(** * Infinite mixture model sampler (nipy/neurospin/clustering/imm.py)

    A shallow embedding of the [IMM] class: the index and mask primitives of
    numpy that the class relies on, the label bookkeeping ([sample_indicator],
    [reduce]), the prior management ([set_priors], [update]), the weight
    update and the cross-validated sweep.

    Conventions.
    - The source is Python 2: [/] between two ints is floor division.
    - Label arrays are lists of [Z]; [self.k] is a [Z].
    - float64 values are modelled by [npfloat]: exact rationals for the finite
      values plus the IEEE special values inf, -inf and nan.  Rounding is not
      modelled.  The data are floats; [alpha] and the entries of
      [prior_weights] are Python numbers, ints or floats as the caller gave
      them.
    - [likelihood_under_the_prior] needs log, exp and gammaln and is modelled
      apart, over the reals, in [PriorLike].
    - The base class BGMM (bgmm.py) is not part of the sources at hand; what
      [IMM] calls from it is the interface [BGMM_base]. *)

From Stdlib Require Import ZArith List Bool Lia QArith Permutation Sorted.
From Stdlib Require Import Reals Lra.
Import ListNotations.
Open Scope Z_scope.

(** ** float64 with special values *)

Inductive npfloat : Type :=
| Fin (q : Q)
| PInf
| NInf
| NaN.

Module NpFloat.

Definition of_Z (z : Z) : npfloat := Fin (inject_Z z).
Definition of_nat (n : nat) : npfloat := of_Z (Z.of_nat n).

Definition zero : npfloat := Fin 0%Q.
Definition one : npfloat := Fin 1%Q.

Definition is_zero (q : Q) : bool := Qeq_bool q 0%Q.
Definition is_pos (q : Q) : bool := negb (Qle_bool q 0%Q).

Definition neg (a : npfloat) : npfloat :=
  match a with
  | Fin q => Fin (- q)%Q
  | PInf => NInf
  | NInf => PInf
  | NaN => NaN
  end.

Definition add (a b : npfloat) : npfloat :=
  match a, b with
  | NaN, _ | _, NaN => NaN
  | Fin p, Fin q => Fin (p + q)%Q
  | PInf, NInf | NInf, PInf => NaN
  | PInf, _ | _, PInf => PInf
  | NInf, _ | _, NInf => NInf
  end.

Definition sub (a b : npfloat) : npfloat := add a (neg b).

(** Sign of the product of an infinity by a finite value; inf * 0 is nan. *)
Definition scale_inf (positive : bool) (q : Q) : npfloat :=
  if is_zero q then NaN
  else if Bool.eqb positive (is_pos q) then PInf else NInf.

Definition mul (a b : npfloat) : npfloat :=
  match a, b with
  | NaN, _ | _, NaN => NaN
  | Fin p, Fin q => Fin (p * q)%Q
  | PInf, Fin q | Fin q, PInf => scale_inf true q
  | NInf, Fin q | Fin q, NInf => scale_inf false q
  | PInf, PInf | NInf, NInf => PInf
  | PInf, NInf | NInf, PInf => NaN
  end.

(** Array division: a zero divisor gives inf, -inf or nan (numpy warns and
    goes on); the zero of the model carries no sign and divides as +0.0. *)
Definition div (a b : npfloat) : npfloat :=
  match a, b with
  | NaN, _ | _, NaN => NaN
  | Fin p, Fin q =>
      if is_zero q
      then (if is_zero p then NaN else if is_pos p then PInf else NInf)
      else Fin (p / q)%Q
  | Fin _, PInf | Fin _, NInf => zero
  | PInf, Fin q => if is_pos q || is_zero q then PInf else NInf
  | NInf, Fin q => if is_pos q || is_zero q then NInf else PInf
  | _, _ => NaN
  end.

End NpFloat.

(** ** numpy primitives on one-dimensional arrays *)

Module Numpy.

(** [z == v] *)
Definition mask_eq (z : list Z) (v : Z) : list bool :=
  map (fun d => d =? v) z.

(** [np.sum] of a boolean array *)
Definition count_true (m : list bool) : nat :=
  length (filter (fun b : bool => b) m).

(** [np.arange(n)] *)
Definition arange (n : nat) : list Z := map Z.of_nat (seq 0 n).

(** [np.logical_not] *)
Definition logical_not (m : list bool) : list bool := map negb m.

(** [a[m]] for a boolean mask [m]: a fresh array holding the selected entries;
    [None] is the IndexError of a mask of the wrong length. *)
Fixpoint select {A : Type} (m : list bool) (a : list A) : option (list A) :=
  match m, a with
  | [], [] => Some []
  | b :: m', x :: a' =>
      match select m' a' with
      | Some r => Some (if b then x :: r else r)
      | None => None
      end
  | _, _ => None
  end.

(** [a[m] = v] for a scalar [v] *)
Fixpoint fill_mask {A : Type} (a : list A) (m : list bool) (v : A) : list A :=
  match a, m with
  | x :: a', b :: m' => (if b then v else x) :: fill_mask a' m' v
  | _, _ => a
  end.

(** [a[m] = vals] for an array [vals]: the values go to the selected positions
    in order; [None] is the ValueError of a wrong number of values (or the
    IndexError of a mask of the wrong length). *)
Fixpoint put_mask {A : Type} (a : list A) (m : list bool) (vals : list A)
  : option (list A) :=
  match a, m with
  | [], [] => match vals with [] => Some [] | _ :: _ => None end
  | x :: a', true :: m' =>
      match vals with
      | v :: vs => option_map (cons v) (put_mask a' m' vs)
      | [] => None
      end
  | x :: a', false :: m' => option_map (cons x) (put_mask a' m' vals)
  | _, _ => None
  end.

(** [a[lo:hi]] for [0 <= lo] *)
Definition slice {A : Type} (lo hi : nat) (a : list A) : list A :=
  firstn (hi - lo) (skipn lo a).

(** [m[pos] = True] for an array [pos] of indices *)
Definition set_at (m : list bool) (pos : list nat) : list bool :=
  map (fun p => nth p m false || existsb (Nat.eqb p) pos)
      (seq 0 (length m)).

(** [np.zeros(n).astype('bool')] *)
Definition zeros_bool (n : nat) : list bool := repeat false n.

(** Insertion of a value in a strictly increasing list. *)
Fixpoint uinsert (v : Z) (l : list Z) : list Z :=
  match l with
  | [] => [v]
  | h :: t =>
      if v <? h then v :: l
      else if v =? h then l
      else h :: uinsert v t
  end.

(** [np.unique(z)]: the distinct values of [z] in increasing order *)
Definition unique (z : list Z) : list Z := fold_right uinsert [] z.

(** [z.max()]; [None] is the ValueError of an empty array. *)
Definition amax (z : list Z) : option Z :=
  match z with
  | [] => None
  | h :: t => Some (fold_left Z.max t h)
  end.

(** [enumerate] *)
Definition enumerate {A : Type} (l : list A) : list (Z * A) :=
  combine (arange (length l)) l.

End Numpy.

(** ** Two-dimensional arrays as lists of rows *)

Definition vector := list npfloat.
Definition matrix := list (list npfloat).

Module Mat.

Definition vsum (v : vector) : npfloat := fold_left NpFloat.add v NpFloat.zero.

(** Column [c] of a list of rows. *)
Definition column (c : nat) (x : matrix) : vector :=
  map (fun row => nth c row NaN) x.

(** [x.mean(0)] for [x] of shape (n, d) *)
Definition mean0 (d : nat) (x : matrix) : vector :=
  map (fun c => NpFloat.div (vsum (column c x)) (NpFloat.of_nat (length x)))
      (seq 0 d).

(** [x - mx] with [mx] of shape (1, d) broadcast over the rows *)
Definition sub_row (x : matrix) (mx : vector) : matrix :=
  map (fun row => map (fun p => NpFloat.sub (fst p) (snd p)) (combine row mx)) x.

(** [np.dot(dx.T, dx) / n] *)
Definition gram_over (d : nat) (dx : matrix) (n : nat) : matrix :=
  map (fun a =>
         map (fun b =>
                NpFloat.div
                  (vsum (map (fun p => NpFloat.mul (fst p) (snd p))
                             (combine (column a dx) (column b dx))))
                  (NpFloat.of_nat n))
             (seq 0 d))
      (seq 0 d).

(** [np.diag(m)] for a square matrix: its diagonal *)
Definition diag_of (m : matrix) : vector :=
  map (fun a => nth a (nth a m []) NaN) (seq 0 (length m)).

(** [np.diag(v)] for a vector: the diagonal matrix *)
Definition diag_matrix (v : vector) : matrix :=
  map (fun a =>
         map (fun b => if Nat.eqb a b then nth a v NaN else NpFloat.zero)
             (seq 0 (length v)))
      (seq 0 (length v)).

(** [1.0 / v] *)
Definition reciprocal (v : vector) : vector := map (NpFloat.div NpFloat.one) v.

(** [np.zeros((r, c))] *)
Definition zeros2 (r c : nat) : matrix := repeat (repeat NpFloat.zero c) r.

(** [a * np.ones(n)] *)
Definition scalar_ones (a : npfloat) (n : nat) : vector :=
  map (NpFloat.mul a) (repeat NpFloat.one n).

(** [m.sum(1)] *)
Definition sum1 (m : matrix) : vector := map vsum m.

End Mat.

(** ** Python numbers *)

(** [self.alpha] and the entries of the list [self.prior_weights] are what the
    caller passed, Python ints or floats.  numpy makes an int array of a
    list of ints, and a float array as soon as one entry is a float. *)
Inductive pyscalar : Type :=
| PyI (z : Z)
| PyF (v : npfloat).

Definition as_float (a : pyscalar) : npfloat :=
  match a with
  | PyI z => NpFloat.of_Z z
  | PyF v => v
  end.

(** The entries of a non-empty list of ints; [None] when an entry is a float
    and for the empty list, of which numpy makes a float array. *)
Definition all_ints (l : list pyscalar) : option (list Z) :=
  match l with
  | [] => None
  | _ :: _ =>
      fold_right (fun a acc =>
                    match a, acc with
                    | PyI z, Some r => Some (z :: r)
                    | _, _ => None
                    end)
                 (Some []) l
  end.

(** ** Exceptions and outcomes *)

Inductive exn : Type :=
| ValueError
| IndexError
| TypeError
| AttributeError
| ZeroDivisionError
| LinAlgError.

(** A call either returns a value or raises; in both cases the state it
    leaves behind is kept, since the assignments made before a [raise] stay. *)
Inductive outcome (S A : Type) : Type :=
| Ok (a : A) (s : S)
| Raised (e : exn) (s : S).
Arguments Ok {S A} a s.
Arguments Raised {S A} e s.

Definition state_of {S A : Type} (o : outcome S A) : S :=
  match o with Ok _ s => s | Raised _ s => s end.

Definition is_ok {S A : Type} (o : outcome S A) : bool :=
  match o with Ok _ _ => true | Raised _ _ => false end.

(** ** The object state *)

Record IMM : Type := mkIMM {
  dim : nat;
  alpha : pyscalar;
  k : Z;
  prior_means : option matrix;
  prior_weights : option (list pyscalar);
  prior_scale : option (list matrix);
  prior_dof : option vector;
  prior_shrinkage : option vector;
  weights : vector;
  _dets : option vector;
  _inv_prior_scale : option (list matrix);
  means : matrix;
  precisions : list matrix
}.

(** [IMM.__init__]; the two caches do not exist yet ([None]). *)
Definition init (alpha0 : pyscalar) (dim0 : nat)
  (prior_means0 : option matrix) (prior_weights0 : option (list pyscalar))
  (prior_scale0 : option (list matrix)) (prior_dof0 : option vector)
  (prior_shrinkage0 : option vector) : IMM :=
  {| dim := dim0; alpha := alpha0; k := 0;
     prior_means := prior_means0; prior_weights := prior_weights0;
     prior_scale := prior_scale0; prior_dof := prior_dof0;
     prior_shrinkage := prior_shrinkage0;
     weights := [NpFloat.one];
     _dets := None; _inv_prior_scale := None;
     means := []; precisions := [] |}.

Definition set_k (s : IMM) (v : Z) : IMM :=
  {| dim := dim s; alpha := alpha s; k := v;
     prior_means := prior_means s; prior_weights := prior_weights s;
     prior_scale := prior_scale s; prior_dof := prior_dof s;
     prior_shrinkage := prior_shrinkage s; weights := weights s;
     _dets := _dets s; _inv_prior_scale := _inv_prior_scale s;
     means := means s; precisions := precisions s |}.

Definition set_prior_means (s : IMM) (v : option matrix) : IMM :=
  {| dim := dim s; alpha := alpha s; k := k s;
     prior_means := v; prior_weights := prior_weights s;
     prior_scale := prior_scale s; prior_dof := prior_dof s;
     prior_shrinkage := prior_shrinkage s; weights := weights s;
     _dets := _dets s; _inv_prior_scale := _inv_prior_scale s;
     means := means s; precisions := precisions s |}.

Definition set_prior_weights (s : IMM) (v : option (list pyscalar)) : IMM :=
  {| dim := dim s; alpha := alpha s; k := k s;
     prior_means := prior_means s; prior_weights := v;
     prior_scale := prior_scale s; prior_dof := prior_dof s;
     prior_shrinkage := prior_shrinkage s; weights := weights s;
     _dets := _dets s; _inv_prior_scale := _inv_prior_scale s;
     means := means s; precisions := precisions s |}.

Definition set_prior_scale (s : IMM) (v : option (list matrix)) : IMM :=
  {| dim := dim s; alpha := alpha s; k := k s;
     prior_means := prior_means s; prior_weights := prior_weights s;
     prior_scale := v; prior_dof := prior_dof s;
     prior_shrinkage := prior_shrinkage s; weights := weights s;
     _dets := _dets s; _inv_prior_scale := _inv_prior_scale s;
     means := means s; precisions := precisions s |}.

Definition set_prior_dof (s : IMM) (v : option vector) : IMM :=
  {| dim := dim s; alpha := alpha s; k := k s;
     prior_means := prior_means s; prior_weights := prior_weights s;
     prior_scale := prior_scale s; prior_dof := v;
     prior_shrinkage := prior_shrinkage s; weights := weights s;
     _dets := _dets s; _inv_prior_scale := _inv_prior_scale s;
     means := means s; precisions := precisions s |}.

Definition set_prior_shrinkage (s : IMM) (v : option vector) : IMM :=
  {| dim := dim s; alpha := alpha s; k := k s;
     prior_means := prior_means s; prior_weights := prior_weights s;
     prior_scale := prior_scale s; prior_dof := prior_dof s;
     prior_shrinkage := v; weights := weights s;
     _dets := _dets s; _inv_prior_scale := _inv_prior_scale s;
     means := means s; precisions := precisions s |}.

Definition set_weights (s : IMM) (v : vector) : IMM :=
  {| dim := dim s; alpha := alpha s; k := k s;
     prior_means := prior_means s; prior_weights := prior_weights s;
     prior_scale := prior_scale s; prior_dof := prior_dof s;
     prior_shrinkage := prior_shrinkage s; weights := v;
     _dets := _dets s; _inv_prior_scale := _inv_prior_scale s;
     means := means s; precisions := precisions s |}.

Definition set_dets (s : IMM) (v : option vector) : IMM :=
  {| dim := dim s; alpha := alpha s; k := k s;
     prior_means := prior_means s; prior_weights := prior_weights s;
     prior_scale := prior_scale s; prior_dof := prior_dof s;
     prior_shrinkage := prior_shrinkage s; weights := weights s;
     _dets := v; _inv_prior_scale := _inv_prior_scale s;
     means := means s; precisions := precisions s |}.

Definition set_inv_prior_scale (s : IMM) (v : option (list matrix)) : IMM :=
  {| dim := dim s; alpha := alpha s; k := k s;
     prior_means := prior_means s; prior_weights := prior_weights s;
     prior_scale := prior_scale s; prior_dof := prior_dof s;
     prior_shrinkage := prior_shrinkage s; weights := weights s;
     _dets := _dets s; _inv_prior_scale := v;
     means := means s; precisions := precisions s |}.

Definition set_means (s : IMM) (v : matrix) : IMM :=
  {| dim := dim s; alpha := alpha s; k := k s;
     prior_means := prior_means s; prior_weights := prior_weights s;
     prior_scale := prior_scale s; prior_dof := prior_dof s;
     prior_shrinkage := prior_shrinkage s; weights := weights s;
     _dets := _dets s; _inv_prior_scale := _inv_prior_scale s;
     means := v; precisions := precisions s |}.

Definition set_precisions (s : IMM) (v : list matrix) : IMM :=
  {| dim := dim s; alpha := alpha s; k := k s;
     prior_means := prior_means s; prior_weights := prior_weights s;
     prior_scale := prior_scale s; prior_dof := prior_dof s;
     prior_shrinkage := prior_shrinkage s; weights := weights s;
     _dets := _dets s; _inv_prior_scale := _inv_prior_scale s;
     means := means s; precisions := v |}.

(** ** What the class takes from outside *)

(** [numpy.linalg]: [det] never raises, [inv] raises LinAlgError ([None]) on a
    singular matrix. *)
Class LinAlg : Type := {
  det : matrix -> npfloat;
  inv : matrix -> option matrix
}.

(** The base class BGMM and the random generator.  Every random draw threads
    the generator state. *)
Class BGMM_base : Type := {
  rng_state : Type;
  (** [np.argsort(np.random.rand(n))] *)
  argsort_rand : rng_state -> nat -> list nat * rng_state;
  (** [BGMM.sample_indicator(self, like)]: one column index per row *)
  BGMM_sample_indicator : IMM -> rng_state -> matrix -> list Z * rng_state;
  (** [BGMM.update(self, x, z)] *)
  BGMM_update : IMM -> rng_state -> matrix -> list Z
                -> outcome (IMM * rng_state) unit;
  (** [self.unweighted_likelihood(x)] *)
  unweighted_likelihood : IMM -> matrix -> matrix;
  (** [self.pop(z)] *)
  pop : IMM -> list Z -> list Z
}.

(** [likelihood_under_the_prior] as a float64 function; its arithmetic needs
    log, exp and gammaln and is modelled over the reals in [PriorLike]. *)
Class PriorDensity : Type := {
  prior_density : IMM -> matrix -> vector
}.

(** ** Methods that only touch the object *)

Definition bindO {S A B : Type} (c : S -> outcome S A) (f : A -> S -> outcome S B)
  : S -> outcome S B :=
  fun s => match c s with
           | Ok a s' => f a s'
           | Raised e s' => Raised e s'
           end.

Definition ret {S A : Type} (a : A) : S -> outcome S A := fun s => Ok a s.
Definition raise {S A : Type} (e : exn) : S -> outcome S A := fun s => Raised e s.
Definition get {S : Type} : S -> outcome S S := fun s => Ok s s.
Definition modify {S : Type} (f : S -> S) : S -> outcome S unit :=
  fun s => Ok tt (f s).

(** Value of an optional, or the given exception. *)
Definition expect {S A : Type} (e : exn) (o : option A) : S -> outcome S A :=
  match o with
  | Some a => ret a
  | None => raise e
  end.

Declare Scope py_scope.
Delimit Scope py_scope with py.
Notation "x <- c ;; f" := (bindO c (fun x => f))
  (at level 61, c at next level, right associativity) : py_scope.
Notation "c ;;; f" := (bindO c (fun _ => f))
  (at level 61, right associativity) : py_scope.
Open Scope py_scope.

(** [a + b] between one-dimensional arrays, with broadcasting of a length-one
    operand; [None] is the ValueError of incompatible shapes. *)
Definition broadcast_add (a b : vector) : option vector :=
  if Nat.eqb (length a) (length b)
  then Some (map (fun p => NpFloat.add (fst p) (snd p)) (combine a b))
  else match a, b with
       | _, [y] => Some (map (fun v => NpFloat.add v y) a)
       | [v], _ => Some (map (fun y => NpFloat.add v y) b)
       | _, _ => None
       end.

(** [m *= w] for a two-dimensional [m] and a one-dimensional [w] *)
Definition broadcast_mul_rows (m : matrix) (w : vector) : option matrix :=
  match w with
  | [y] => Some (map (map (fun v => NpFloat.mul v y)) m)
  | _ =>
      if forallb (fun row => Nat.eqb (length row) (length w)) m
      then Some (map (fun row => map (fun p => NpFloat.mul (fst p) (snd p))
                                     (combine row w)) m)
      else None
  end.

(** [np.repeat(a, count, 0)]; [None] is the ValueError of a negative count. *)
Definition repeat0 {A : Type} (a : list A) (count : Z) : option (list A) :=
  if count <? 0 then None
  else Some (flat_map (fun row => repeat row (Z.to_nat count)) a).

(** [a * np.ones(n)]; [None] is the ValueError of a negative [n]. *)
Definition times_ones (a : npfloat) (n : Z) : option vector :=
  if n <? 0 then None else Some (Mat.scalar_ones a (Z.to_nat n)).

(** [np.zeros((n, d))] and [np.zeros((n, d, d))] *)
Definition zeros_kd (n : Z) (d : nat) : option matrix :=
  if n <? 0 then None else Some (Mat.zeros2 (Z.to_nat n) d).
Definition zeros_kdd (n : Z) (d : nat) : option (list matrix) :=
  if n <? 0 then None else Some (repeat (Mat.zeros2 d d) (Z.to_nat n)).

(** The first part of [IMM.update], up to the call of the base class:
    "re-dimension the priors in order to match self.k", then
    "initialize some variables". *)
Definition redimension_priors : IMM -> outcome IMM unit :=
  (* self.prior_means = np.repeat(self.prior_means[:1], self.k, 0) *)
  (s <- get ;;
   a <- expect TypeError (prior_means s) ;;
   v <- expect ValueError (repeat0 (firstn 1 a) (k s)) ;;
   modify (fun s => set_prior_means s (Some v))) ;;;
  (* self.prior_dof = self.prior_dof[0]*np.ones(self.k) *)
  (s <- get ;;
   a <- expect TypeError (prior_dof s) ;;
   a0 <- expect IndexError (hd_error a) ;;
   v <- expect ValueError (times_ones a0 (k s)) ;;
   modify (fun s => set_prior_dof s (Some v))) ;;;
  (* self.prior_shrinkage = self.prior_shrinkage[0]*np.ones(self.k) *)
  (s <- get ;;
   a <- expect TypeError (prior_shrinkage s) ;;
   a0 <- expect IndexError (hd_error a) ;;
   v <- expect ValueError (times_ones a0 (k s)) ;;
   modify (fun s => set_prior_shrinkage s (Some v))) ;;;
  (* self._dets = self._dets[0]*np.ones(self.k) *)
  (s <- get ;;
   a <- expect AttributeError (_dets s) ;;
   a0 <- expect IndexError (hd_error a) ;;
   v <- expect ValueError (times_ones a0 (k s)) ;;
   modify (fun s => set_dets s (Some v))) ;;;
  (* self._inv_prior_scale = np.repeat(self._inv_prior_scale[:1], self.k, 0) *)
  (s <- get ;;
   a <- expect AttributeError (_inv_prior_scale s) ;;
   v <- expect ValueError (repeat0 (firstn 1 a) (k s)) ;;
   modify (fun s => set_inv_prior_scale s (Some v))) ;;;
  (* self.means = np.zeros((self.k, self.dim)) *)
  (s <- get ;;
   v <- expect ValueError (zeros_kd (k s) (dim s)) ;;
   modify (fun s => set_means s v)) ;;;
  (* self.precisions = np.zeros((self.k, self.dim, self.dim)) *)
  (s <- get ;;
   v <- expect ValueError (zeros_kdd (k s) (dim s)) ;;
   modify (fun s => set_precisions s v)).

(** [IMM.set_priors] *)
Definition set_priors `{LinAlg} (x : matrix) : IMM -> outcome IMM unit :=
  s <- get ;;
  let small := Fin (1 # 100) in
  (* mx = np.reshape(x.mean(0), (1, self.dim)) *)
  (if forallb (fun row => Nat.eqb (length row) (dim s)) x
   then ret tt else raise ValueError) ;;;
  let mx := Mat.mean0 (dim s) x in
  let dx := Mat.sub_row x mx in
  let vx := Mat.gram_over (dim s) dx (length x) in
  let px := Mat.diag_matrix (Mat.reciprocal (Mat.diag_of vx)) in
  modify (fun s => set_prior_means s (Some [mx])) ;;;
  modify (fun s => set_prior_weights s (Some [alpha s])) ;;;
  modify (fun s => set_prior_scale s (Some [px])) ;;;
  modify (fun s => set_prior_dof s (Some [NpFloat.of_nat (dim s + 2)])) ;;;
  modify (fun s => set_prior_shrinkage s (Some [small])) ;;;
  modify (fun s => set_dets s (Some [det px])) ;;;
  ipx <- expect LinAlgError (inv px) ;;
  modify (fun s => set_inv_prior_scale s (Some [ipx])).

(** [a + b] between one-dimensional int arrays, with the same broadcasting. *)
Definition broadcast_add_int (a b : list Z) : option (list Z) :=
  if Nat.eqb (length a) (length b)
  then Some (map (fun p => fst p + snd p) (combine a b))
  else match a, b with
       | _, [y] => Some (map (fun v => v + y) a)
       | [v], _ => Some (map (fun y => v + y) b)
       | _, _ => None
       end.

(** [IMM.update_weights].  [self.pop(z)] is an array of counts, hence of
    ints.  When the prior weights are ints as well, [self.weights] is an int
    array and the in-place [/=] is the integer division of Python 2 (numpy
    gives 0 for a zero divisor); the values of the int array are kept as
    such in [weights].  Otherwise the sum is a float array and [/=] is the
    true division. *)
Definition update_weights `{BGMM_base} (z : list Z) : IMM -> outcome IMM unit :=
  s <- get ;;
  (* pop = np.hstack((self.pop(z), 0)) *)
  let pop1 := pop s z ++ [0] in
  (* self.weights = pop + self.prior_weights *)
  pw <- expect TypeError (prior_weights s) ;;
  match all_ints pw with
  | Some pwi =>
      w <- expect ValueError (broadcast_add_int pop1 pwi) ;;
      modify (fun s => set_weights s (map NpFloat.of_Z w)) ;;;
      (* self.weights /= self.weights.sum() *)
      let total := fold_left Z.add w 0 in
      modify (fun s => set_weights s (map (fun v => NpFloat.of_Z (v / total)) w))
  | None =>
      w <- expect ValueError
             (broadcast_add (map NpFloat.of_Z pop1) (map as_float pw)) ;;
      modify (fun s => set_weights s w) ;;;
      (* self.weights /= self.weights.sum() *)
      let total := Mat.vsum w in
      modify (fun s => set_weights s (map (fun v => NpFloat.div v total) w))
  end.

(** ** Methods that also touch arrays shared with the caller *)

(** A call of the base class update, as observed from outside: the cluster
    count at the call and the two arguments. *)
Record base_call : Type := BaseCall {
  call_k : Z;
  call_x : matrix;
  call_z : list Z
}.

(** Label arrays live in a store and are named by their address, so that a
    method which writes into its argument is seen by whoever holds the array. *)
Definition ref := nat.

Record world `{BGMM_base} : Type := mkWorld {
  self : IMM;
  heap : list (list Z);
  rng : rng_state;
  trace : list base_call
}.

Section WorldMethods.
Context `{B : BGMM_base} `{P : PriorDensity}.

Definition with_self (w : world) (s : IMM) : world :=
  {| self := s; heap := heap w; rng := rng w; trace := trace w |}.
Definition with_heap (w : world) (h : list (list Z)) : world :=
  {| self := self w; heap := h; rng := rng w; trace := trace w |}.
Definition with_rng (w : world) (r : rng_state) : world :=
  {| self := self w; heap := heap w; rng := r; trace := trace w |}.
Definition with_trace (w : world) (t : list base_call) : world :=
  {| self := self w; heap := heap w; rng := rng w; trace := t |}.

(** Run a method of the object inside the world. *)
Definition on_self {A : Type} (c : IMM -> outcome IMM A) : world -> outcome world A :=
  fun w => match c (self w) with
           | Ok a s => Ok a (with_self w s)
           | Raised e s => Raised e (with_self w s)
           end.

(** Replace cell [r] of the store. *)
Fixpoint store_set (h : list (list Z)) (r : ref) (v : list Z) : list (list Z) :=
  match h, r with
  | [], _ => []
  | _ :: t, O => v :: t
  | c :: t, S r' => c :: store_set t r' v
  end.

Definition read (r : ref) : world -> outcome world (list Z) :=
  w <- get ;; expect IndexError (nth_error (heap w) r).
Definition write (r : ref) (v : list Z) : world -> outcome world unit :=
  modify (fun w => with_heap w (store_set (heap w) r v)).
(** A fresh array holding [v]. *)
Definition alloc (v : list Z) : world -> outcome world ref :=
  w <- get ;;
  modify (fun w => with_heap w (heap w ++ [v])) ;;;
  ret (length (heap w)).

(** The loop of [reduce] on the contents of the array. *)
Definition reduce_loop (z : list Z) : list Z :=
  fold_left (fun zc ik => Numpy.fill_mask zc (Numpy.mask_eq zc (snd ik)) (fst ik))
            (Numpy.enumerate (Numpy.unique z)) z.

(** [IMM.reduce]: relabels the array at [r] in place and sets [self.k]. *)
Definition reduce (r : ref) : world -> outcome world unit :=
  z <- read r ;;
  write r (reduce_loop z) ;;;
  m <- expect ValueError (Numpy.amax (reduce_loop z)) ;;
  on_self (modify (fun s => set_k s (m + 1))).

(** [IMM.update] *)
Definition update (x : matrix) (z : list Z) : world -> outcome world unit :=
  on_self redimension_priors ;;;
  (* BGMM.update(self, x, z) *)
  modify (fun w => with_trace w (trace w ++ [BaseCall (k (self w)) x z])) ;;;
  fun w => match BGMM_update (self w) (rng w) x z with
           | Ok _ (s, g) => Ok tt (with_rng (with_self w s) g)
           | Raised e (s, g) => Raised e (with_rng (with_self w s) g)
           end.

(** [IMM.sample_indicator] *)
Definition sample_indicator (like : matrix) : world -> outcome world (list Z) :=
  w <- get ;;
  (* z = BGMM.sample_indicator(self, like) *)
  let (z, g) := BGMM_sample_indicator (self w) (rng w) like in
  modify (fun w => with_rng w g) ;;;
  (* z[z==self.k] = self.k + np.arange(np.sum(z==self.k)) *)
  let sk := k (self w) in
  let m := Numpy.mask_eq z sk in
  expect ValueError
    (Numpy.put_mask z m (map (Z.add sk) (Numpy.arange (Numpy.count_true m)))).

(** [np.hstack((like, plike))] for [plike] of shape (n, 1) *)
Definition hstack_col (like : matrix) (plike : vector) : option matrix :=
  if Nat.eqb (length like) (length plike)
  then Some (map (fun p => fst p ++ [snd p]) (combine like plike))
  else None.

(** [IMM.likelihood].  The result is a new matrix.  In the source, when
    [self.k] is not positive, [like] is the reshaped view of the argument
    [plike], and [like *= self.weights] then also changes the array of the
    caller; [plike] is passed by value here, so that effect on the caller is
    not part of the model. *)
Definition likelihood (x : matrix) (plike : option vector)
  : world -> outcome world matrix :=
  w <- get ;;
  let plike1 := match plike with
                | None => prior_density (self w) x
                | Some p => p
                end in
  (* plike = np.reshape(plike, (x.shape[0], 1)) *)
  (if Nat.eqb (length plike1) (length x) then ret tt else raise ValueError) ;;;
  like <- (if 0 <? k (self w)
           then expect ValueError
                  (hstack_col (unweighted_likelihood (self w) x) plike1)
           else ret (map (fun v => [v]) plike1)) ;;
  (* like *= self.weights *)
  expect ValueError (broadcast_mul_rows like (weights (self w))).

(** The positions held out in fold [i]: [idx[i*j:min(n_samples, j*(i+1))]] *)
Definition test_block (idx : list nat) (n : nat) (j : Z) (i : nat) : list nat :=
  Numpy.slice (Z.to_nat (Z.of_nat i * j))
              (Z.to_nat (Z.min (Z.of_nat n) (j * (Z.of_nat i + 1)))) idx.

Definition test_mask (idx : list nat) (n : nat) (j : Z) (i : nat) : list bool :=
  Numpy.set_at (Numpy.zeros_bool n) (test_block idx n j i).

(** The statement [self.reduce(z[train])]: the boolean index builds a new
    array, and [reduce] works on that one. *)
Definition reduce_on_slice (train : list bool) (zr : ref)
  : world -> outcome world unit :=
  z0 <- read zr ;;
  zt <- expect IndexError (Numpy.select train z0) ;;
  tmp <- alloc zt ;;
  reduce tmp.

(** The statement [self.update(x[train], z[train])] *)
Definition update_on_slice (train : list bool) (x : matrix) (zr : ref)
  : world -> outcome world unit :=
  xt <- expect IndexError (Numpy.select train x) ;;
  z1 <- read zr ;;
  zt1 <- expect IndexError (Numpy.select train z1) ;;
  update xt zt1.

(** The rest of the loop body: score the held-out points and redraw their
    labels. *)
Definition score_held_out (test : list bool) (x : matrix) (zr : ref)
  (plike : vector) (slike : vector) : world -> outcome world vector :=
  (* alike = self.likelihood(x[test], plike[test]) *)
  xs <- expect IndexError (Numpy.select test x) ;;
  ps <- expect IndexError (Numpy.select test plike) ;;
  alike <- likelihood xs (Some ps) ;;
  (* slike[test] = alike.sum(1) *)
  slike1 <- expect ValueError (Numpy.put_mask slike test (Mat.sum1 alike)) ;;
  (* z[test] = self.sample_indicator(alike) *)
  znew <- sample_indicator alike ;;
  z2 <- read zr ;;
  z3 <- expect ValueError (Numpy.put_mask z2 test znew) ;;
  write zr z3 ;;;
  ret slike1.

(** Body of the loop of [cross_validated_update] for fold [i]. *)
Definition cv_fold (x : matrix) (zr : ref) (plike : vector)
  (idx : list nat) (j : Z) (slike : vector) (i : nat)
  : world -> outcome world vector :=
  let n_samples := length x in
  let test := test_mask idx n_samples j i in
  let train := Numpy.logical_not test in
  reduce_on_slice train zr ;;;
  update_on_slice train x zr ;;;
  score_held_out test x zr plike slike.

Fixpoint cv_loop (x : matrix) (zr : ref) (plike : vector)
  (idx : list nat) (j : Z) (slike : vector) (folds : list nat)
  : world -> outcome world vector :=
  match folds with
  | [] => ret slike
  | i :: rest =>
      slike1 <- cv_fold x zr plike idx j slike i ;;
      cv_loop x zr plike idx j slike1 rest
  end.

(** [IMM.cross_validated_update]; [nfolds] is the parameter [k] of the source.
    [n_samples/k] divides two ints, so [np.ceil] receives the floor. *)
Definition cross_validated_update (x : matrix) (zr : ref) (plike : vector)
  (nfolds : Z) : world -> outcome world vector :=
  let n_samples := length x in
  (* idx = np.argsort(np.random.rand(n_samples)) *)
  w <- get ;;
  let (idx, g) := argsort_rand (rng w) n_samples in
  modify (fun w => with_rng w g) ;;;
  (* j = np.ceil(n_samples/k) *)
  (if nfolds =? 0 then raise ZeroDivisionError else ret tt) ;;;
  let j := Z.of_nat n_samples / nfolds in
  let slike := repeat NpFloat.zero n_samples in
  cv_loop x zr plike idx j slike (seq 0 (Z.to_nat nfolds)).

(** [IMM.simple_update]; the parameter [z] is rebound to the new draw at once,
    so the array of the caller is neither read nor written. *)
Definition simple_update (x : matrix) (zr : ref) (plike : vector)
  : world -> outcome world vector :=
  like <- likelihood x (Some plike) ;;
  z <- sample_indicator like ;;
  znew <- alloc z ;;
  reduce znew ;;;
  z' <- read znew ;;
  update x z' ;;;
  ret (Mat.sum1 like).

End WorldMethods.

(** ** A concrete base, to run the methods *)

(** Modelled from the spec: [BGMM.pop] is not in the sources at hand; the spec
    describes it as the per-cluster point counts, one entry for each of the
    [k] clusters. *)
Definition pop_counts (kk : Z) (z : list Z) : list Z :=
  map (fun c => Z.of_nat (Numpy.count_true (Numpy.mask_eq z c)))
      (Numpy.arange (Z.to_nat kk)).

(** Plug-in weights over [kk + 1] slots, as [update_weights] computes them. *)
Definition demo_weights (a : npfloat) (kk : Z) (z : list Z) : vector :=
  let w := map (fun c => NpFloat.add (NpFloat.of_Z c) a) (pop_counts kk z ++ [0]) in
  map (fun v => NpFloat.div v (Mat.vsum w)) w.

(** A deterministic stand-in for the base class: the generator state is a
    counter, the permutation is the reversed identity, row [p] of a draw picks
    column [(p + counter) mod ncols], and the update only refreshes the
    weights. *)
#[local] Instance demo_base : BGMM_base := {|
  rng_state := nat;
  argsort_rand := fun g n => (rev (seq 0 n), S g);
  BGMM_sample_indicator := fun _ g like =>
    (map (fun p => Z.of_nat ((fst p + g) mod (length (snd p))))
         (combine (seq 0 (length like)) like), S g);
  BGMM_update := fun s g _ z =>
    Ok tt (set_weights s (demo_weights (as_float (alpha s)) (k s) z), S g);
  unweighted_likelihood := fun s x =>
    map (fun _ => repeat NpFloat.one (Z.to_nat (k s))) x;
  pop := fun s z => pop_counts (k s) z
|}.

(** [numpy.linalg] on diagonal matrices, the only ones [set_priors] builds:
    the determinant is the product of the diagonal, the inverse takes the
    reciprocals and is refused when a diagonal entry is exactly zero. *)
Definition diag_det (m : matrix) : npfloat :=
  fold_left NpFloat.mul (Mat.diag_of m) NpFloat.one.

Definition diag_singular (m : matrix) : bool :=
  existsb (fun v => match v with Fin q => NpFloat.is_zero q | _ => false end)
          (Mat.diag_of m).

Definition diag_inv (m : matrix) : option matrix :=
  if diag_singular m then None
  else Some (Mat.diag_matrix (Mat.reciprocal (Mat.diag_of m))).

#[local] Instance diag_linalg : LinAlg := {| det := diag_det; inv := diag_inv |}.

#[local] Instance demo_density : PriorDensity :=
  {| prior_density := fun _ x => map (fun _ => NpFloat.one) x |}.

Definition fresh (a : npfloat) (d : nat) : IMM :=
  init (PyF a) d None None None None None.

Definition demo_world (s : IMM) (z : list Z) : world :=
  {| self := s; heap := [z]; rng := 0%nat; trace := [] |}.

(** Ten one-dimensional points 0, ..., 9, priors set from them, every point
    in a cluster of its own. *)
Definition x10 : matrix := map (fun i => [NpFloat.of_nat i]) (seq 0 10).
Definition plike10 : vector := repeat NpFloat.one 10.
Definition w10 : world :=
  demo_world (state_of (set_priors x10 (fresh (Fin (1 # 2)) 1)))
             (map Z.of_nat (seq 0 10)).

(** ** The likelihood under the prior, over the reals

    [likelihood_under_the_prior] needs log, exp and gammaln.  Here a finite
    float64 is read as a real number, and the three library functions
    [numpy.linalg.det], [numpy.linalg.inv] and [scipy.special.gammaln] are
    given real functions.  A logarithm or a gammaln taken at an argument that
    is not positive gives nan or an infinity in the source; the model stops
    there with [NonFinite].  Rounding, overflow and underflow are outside
    this reading. *)

Module PriorLike.
Local Open Scope R_scope.

(** [self.prior_dof[0]] is a Python int right after [set_priors] and a float
    once [update] has run; [/] floors on ints. *)
Inductive pynum : Type :=
| PyInt (z : Z)
| PyFloat (r : R).

Definition to_R (a : pynum) : R :=
  match a with
  | PyInt z => IZR z
  | PyFloat r => r
  end.

(** [a + i] and [a / i] for an int [i] *)
Definition add_int (a : pynum) (i : Z) : pynum :=
  match a with
  | PyInt z => PyInt (z + i)
  | PyFloat r => PyFloat (r + IZR i)
  end.

Definition div_int (a : pynum) (i : Z) : pynum :=
  match a with
  | PyInt z => PyInt (z / i)
  | PyFloat r => PyFloat (r / IZR i)
  end.

Definition rmatrix := list (list R).

Class RealLib : Type := {
  real_det : rmatrix -> R;
  real_inv : rmatrix -> rmatrix;
  gammaln : R -> R
}.

(** What the call gives back. *)
Inductive result : Type :=
| Returned (w : list R)
| RaisedIndexError
| NonFinite.

(** [np.log] and [gammaln] where they are finite for sure. *)
Definition np_log (v : R) : option R :=
  if Rlt_dec 0 v then Some (ln v) else None.

Definition np_gammaln `{RealLib} (v : R) : option R :=
  if Rlt_dec 0 v then Some (gammaln v) else None.

(** The part of the object that the method reads. *)
Record priors : Type := mkPriors {
  dim : nat;
  prior_dof : list pynum;
  prior_shrinkage : list R;
  prior_means : list (list R);
  prior_scale : list rmatrix
}.

(** [m - x[i:i+1]] *)
Definition vsub (m xi : list R) : list R :=
  map (fun p => fst p - snd p) (combine m xi).

(** [tau*v*v.T] for [v] of shape (1, d): entry (r, c) is [tau*v[c]*v[r]] *)
Definition outer_tau (tau : R) (v : list R) : rmatrix :=
  map (fun vr => map (fun vc => tau * vc * vr) v) v.

Definition radd (r1 r2 : list R) : list R :=
  map (fun q => fst q + snd q) (combine r1 r2).

Definition madd (a b : rmatrix) : rmatrix :=
  map (fun p => radd (fst p) (snd p)) (combine a b).

(** [w[i] = f(w[i])] *)
Fixpoint update_at (i : nat) (f : R -> R) (w : list R) : list R :=
  match w, i with
  | [], _ => []
  | h :: t, O => f h :: t
  | h :: t, S i' => h :: update_at i' f t
  end.

(** The matrix whose determinant is taken for point [i]:
    [ib + tau*(m-x[i:i+1])*(m-x[i:i+1]).T] *)
Definition point_matrix (ib : rmatrix) (tau : R) (m : list R)
  (x : list (list R)) (i : nat) : rmatrix :=
  madd ib (outer_tau tau (vsub m (nth i x []))).

(** The loop [for i in range(x.shape[0]): w[i] -= (a+1) * np.log(det(...))] *)
Definition point_loop `{RealLib} (a : pynum) (ib : rmatrix) (tau : R)
  (m : list R) (x : list (list R)) (indices : list nat) (w : list R)
  : option (list R) :=
  fold_left
    (fun ow i =>
       match ow with
       | Some w =>
           match np_log (real_det (point_matrix ib tau m x i)) with
           | Some l => Some (update_at i (fun wi => wi - to_R (add_int a 1) * l) w)
           | None => None
           end
       | None => None
       end)
    indices (Some w).

(** The scalar part of the exponent. *)
Definition scalar_part `{RealLib} (d : nat) (a : pynum) (tau : R) (b0 : rmatrix)
  : option R :=
  match np_log (real_det b0),
        np_log (tau / PI),
        np_gammaln (to_R (div_int (add_int a 1) 2)),
        np_gammaln (to_R (div_int (add_int a (- Z.of_nat d)) 2)) with
  | Some ldb, Some lt, Some g1, Some g2 =>
      (* scalar_w = np.log(tau/np.pi) * self.dim *)
      let scalar_w := lt * INR d in
      (* scalar_w += 2*gammaln((a+1)/2) *)
      let scalar_w := scalar_w + 2 * g1 in
      (* scalar_w -= 2*gammaln((a-self.dim)/2) *)
      let scalar_w := scalar_w - 2 * g2 in
      (* scalar_w -= ldb*a *)
      Some (scalar_w - ldb * to_R a)
  | _, _, _, _ => None
  end.

(** [IMM.likelihood_under_the_prior] *)
Definition likelihood_under_the_prior `{RealLib} (self : priors)
  (x : list (list R)) : result :=
  match prior_dof self, prior_shrinkage self, prior_means self,
        prior_scale self with
  | a :: _, tau0 :: _, m :: _, b0 :: _ =>
      (* tau /= (1+tau) *)
      let tau := tau0 / (1 + tau0) in
      let ib := real_inv b0 in
      match scalar_part (dim self) a tau b0 with
      | Some scalar_w =>
          (* w = scalar_w * np.ones(x.shape[0]) *)
          let w := map (fun _ => scalar_w * 1) (seq 0 (length x)) in
          match point_loop a ib tau m x (seq 0 (length x)) w with
          | Some w =>
              (* w = w/2; return np.exp(w) *)
              Returned (map exp (map (fun wi => wi / 2) w))
          | None => NonFinite
          end
      | None => NonFinite
      end
  | _, _, _, _ => RaisedIndexError
  end.

Definition dot (u v : list R) : R :=
  fold_right (fun p acc => fst p * snd p + acc) 0 (combine u v).

(** The quadratic form [v.T b v]. *)
Definition quad (b : rmatrix) (v : list R) : R :=
  dot v (map (fun row => dot row v) b).

(** A positive-definite d x d matrix. *)
Definition pos_def (d : nat) (b : rmatrix) : Prop :=
  length b = d
  /\ Forall (fun row => length row = d) b
  /\ forall v, length v = d -> ~ Forall (fun c => c = 0) v -> 0 < quad b v.

(** The dof is above the dimension; for an int dof the floored quotient
    [(a - dim)/2] has to stay positive as well, which asks for [dim + 2], the
    value that [set_priors] stores. *)
Definition dof_above_dim (d : nat) (a : pynum) : Prop :=
  match a with
  | PyFloat r => INR d < r
  | PyInt z => (Z.of_nat d + 2 <= z)%Z
  end.

Definition valid_priors (self : priors) : Prop :=
  match prior_dof self, prior_shrinkage self, prior_means self,
        prior_scale self with
  | a :: _, tau0 :: _, m :: _, b0 :: _ =>
      dof_above_dim (dim self) a /\ 0 < tau0
      /\ length m = dim self /\ pos_def (dim self) b0
  | _, _, _, _ => False
  end.

(** One dimension: determinant and inverse of a 1 x 1 matrix. *)
#[local] Instance one_dim_lib : RealLib := {|
  real_det := fun m => match m with [[a]] => a | _ => 1 end;
  real_inv := fun m => match m with [[a]] => [[/ a]] | _ => m end;
  gammaln := fun _ => 0
|}.

Definition priors_1d : priors :=
  {| dim := 1; prior_dof := [PyInt 3]; prior_shrinkage := [/ 100];
     prior_means := [[0]]; prior_scale := [[[1]]] |}.

(** The same with the int dof 2, one above the dimension. *)
Definition priors_int_dof : priors :=
  {| dim := 1; prior_dof := [PyInt 2]; prior_shrinkage := [/ 100];
     prior_means := [[0]]; prior_scale := [[[1]]] |}.

End PriorLike.

(** Six rows of three columns, and an object with two clusters. *)
Definition like6 : matrix := repeat (repeat NpFloat.one 3) 6.
Definition imm_k2 : IMM := set_k (fresh (Fin (1 # 2)) 1) 2.
Definition w_k2 : world := demo_world imm_k2 [3; 1; 3; 7; 1].

(** Two one-dimensional points, and the object with two clusters after
    [set_priors] on them. *)
Definition x_two : matrix := [[Fin 1]; [Fin 3]].
Definition imm_k2_priors : IMM :=
  Eval vm_compute in state_of (set_priors x_two imm_k2).

(** [IMM(alpha=1, dim=1)]: the concentration is a Python int.  Two clusters,
    priors set from the two points. *)
Definition imm_int_alpha : IMM :=
  Eval vm_compute in
    state_of (set_priors x_two
                (set_k (init (PyI 1) 1 None None None None None) 2)).

(** The object with the float concentration 1/2 after [update_weights] on the
    labels 0, 0, 1, 5. *)
Definition imm_weighted : IMM :=
  Eval vm_compute in state_of (update_weights [0; 0; 1; 5] imm_k2_priors).

(** The new object, without cluster, after [set_priors] on the two points. *)
Definition imm_k0_priors : IMM :=
  Eval vm_compute in state_of (set_priors x_two (fresh (Fin (1 # 2)) 1)).

(** The same object in a world whose only array holds the labels 0 and 1 of
    the two points, and the prior likelihood 1.0 of each. *)
Definition w_two : world := demo_world imm_k2_priors [0; 1].
Definition plike_two : vector := [Fin 1; Fin 1].

(** The object after [set_priors] and an update made with no cluster. *)
Definition imm_lost : IMM :=
  Eval vm_compute in
    self (state_of (update x_two [] (demo_world (set_k imm_k2_priors 0) []))).

(** Two clusters with the weights 1/2, 1/4 and 1/4 for the two clusters and
    the new one. *)
Definition w_weighted : world :=
  demo_world (set_weights imm_k2 [Fin (1 # 2); Fin (1 # 4); Fin (1 # 4)]) [].

(** ** Vocabulary of the statements *)

(** Number of draws of the new-cluster column [kk] among the first [i] points. *)
Definition new_before (d : list Z) (kk : Z) (i : nat) : nat :=
  Numpy.count_true (Numpy.mask_eq (firstn i d) kk).

(** The positions outside the block held out in fold [i], in increasing
    order. *)
Definition train_positions (idx : list nat) (n : nat) (j : Z) (i : nat)
  : list nat :=
  filter (fun p => negb (existsb (Nat.eqb p) (test_block idx n j i))) (seq 0 n).

(** Sum of a list of rationals. *)
Definition Qsum (l : list Q) : Q := fold_right Qplus 0%Q l.

(** The counts that [update_weights] starts from: [pop(z)] and a zero for the
    new-cluster slot. *)
Definition slot_counts `{BGMM_base} (s : IMM) (z : list Z) : list Q :=
  map inject_Z (pop s z ++ [0]).

(** The single rows that [set_priors] stores: prior mean, prior dof, prior
    shrinkage, determinant and inverse of the prior scale. *)
Record canon_rows : Type := Canon {
  c_mean : vector;
  c_dof : npfloat;
  c_shrinkage : npfloat;
  c_det : npfloat;
  c_inv : matrix
}.

Definition canon_of (s : IMM) : option canon_rows :=
  match prior_means s, prior_dof s, prior_shrinkage s,
        _dets s, _inv_prior_scale s with
  | Some [m], Some [d], Some [sh], Some [dt], Some [ip] =>
      Some (Canon m d sh dt ip)
  | _, _, _, _, _ => None
  end.

(** The rows stored by [set_priors] on the two points. *)
Definition canon_two : canon_rows :=
  Eval vm_compute in
    match canon_of imm_k2_priors with
    | Some c => c
    | None => Canon [] NaN NaN NaN []
    end.

(** Each of the five arrays has [n] rows, all equal to the canonical row. *)
Definition replicated (c : canon_rows) (n : nat) (s : IMM) : Prop :=
  prior_means s = Some (repeat (c_mean c) n)
  /\ prior_dof s = Some (repeat (c_dof c) n)
  /\ prior_shrinkage s = Some (repeat (c_shrinkage c) n)
  /\ _dets s = Some (repeat (c_det c) n)
  /\ _inv_prior_scale s = Some (repeat (c_inv c) n).

(** A sequence of calls of [update], each with its data and labels; a call
    that raises leaves the object as it was at the raise, and the next call
    goes on from there. *)
Definition run_updates `{BGMM_base} (calls : list (matrix * list Z)) (w : world)
  : world :=
  fold_left (fun w c => state_of (update (fst c) (snd c) w)) calls w.

(** The same with the cluster count set before each call, as [reduce] or the
    initialisation of [sample] do. *)
Definition run_updates_at `{BGMM_base} (calls : list (Z * matrix * list Z))
  (w : world) : world :=
  fold_left (fun w c =>
               state_of (update (snd (fst c)) (snd c)
                           (with_self w (set_k (self w) (fst (fst c))))))
            calls w.

(** [np.dot(dx.T, dx)/x.shape[0]] of [set_priors] *)
Definition centered_covariance (d : nat) (x : matrix) : matrix :=
  Mat.gram_over d (Mat.sub_row x (Mat.mean0 d x)) (length x).

(** The prior scale matrix built by [set_priors]:
    [np.diag(1.0/np.diag(vx))] *)
Definition prior_scale_of (d : nat) (x : matrix) : matrix :=
  Mat.diag_matrix (Mat.reciprocal (Mat.diag_of (centered_covariance d x))).

(** A concentration that is positive: an int that is at least 1 or a finite
    float above 0. *)
Definition positive_concentration (al : pyscalar) : Prop :=
  match al with
  | PyI a => 1 <= a
  | PyF (Fin a) => (0 < a)%Q
  | PyF _ => False
  end.

(** Two equal one-dimensional points: the column is constant. *)
Definition x_const : matrix := [[Fin 1]; [Fin 1]].

(** What the loop of [reduce] does to one label, the values of
    [np.unique(z)] being numbered from [c]. *)
Definition relabel_from (c : nat) (u : list Z) (y : Z) : Z :=
  fold_left (fun y ik => if y =? snd ik then fst ik else y)
            (combine (map Z.of_nat (seq c (length u))) u) y.

(** The observation [f] of the state is the same after the call, whether it
    returns or raises. *)
Definition keeps {S T A : Type} (f : S -> T) (c : S -> outcome S A) : Prop :=
  forall s, f (state_of (c s)) = f s.

(** * Properties *)

(** ** Masks and index arrays *)

Module NumpyFacts.
Import Numpy.

Lemma mask_eq_length (z : list Z) (v : Z) : length (mask_eq z v) = length z.
Proof. unfold mask_eq. apply length_map. Qed.

Lemma count_true_cons (b : bool) (m : list bool) :
  count_true (b :: m) = ((if b then 1 else 0) + count_true m)%nat.
Proof. unfold count_true. simpl. destruct b; reflexivity. Qed.

Lemma fill_mask_eq (a : list Z) (h c : Z) :
  fill_mask a (mask_eq a h) c = map (fun y => if y =? h then c else y) a.
Proof.
  induction a as [|y a IH]; simpl; [reflexivity|].
  now rewrite IH.
Qed.

(** Writing [kk + c], [kk + c + 1], ... at the positions that hold [kk]. *)
Lemma put_mask_fresh (kk : Z) (z : list Z) :
  forall c : nat,
  exists z',
    put_mask z (mask_eq z kk)
             (map (Z.add kk) (map Z.of_nat (seq c (count_true (mask_eq z kk)))))
    = Some z'
    /\ length z' = length z
    /\ forall i, (i < length z)%nat ->
         nth i z' 0 =
         if nth i z 0 =? kk
         then kk + Z.of_nat (c + new_before z kk i)
         else nth i z 0.
Proof.
  induction z as [|h t IH]; intros c.
  - exists []. simpl. repeat split; intros; lia.
  - simpl mask_eq. rewrite count_true_cons.
    destruct (h =? kk) eqn:E.
    + simpl. destruct (IH (S c)) as (z' & Hp & Hl & Hn).
      rewrite Hp. exists ((kk + Z.of_nat c) :: z'). simpl.
      repeat split; [now rewrite Hl|].
      intros [|i] Hi.
      * rewrite E. unfold new_before, count_true. simpl.
        now rewrite Nat.add_0_r.
      * simpl. rewrite Hn by lia.
        destruct (nth i t 0 =? kk); [|reflexivity].
        unfold new_before. simpl firstn. simpl mask_eq.
        rewrite count_true_cons, E. f_equal. lia.
    + simpl. destruct (IH c) as (z' & Hp & Hl & Hn).
      rewrite Hp. exists (h :: z'). simpl.
      repeat split; [now rewrite Hl|].
      intros [|i] Hi.
      * now rewrite E.
      * simpl. rewrite Hn by lia.
        destruct (nth i t 0 =? kk); [|reflexivity].
        unfold new_before. simpl firstn. simpl mask_eq.
        rewrite count_true_cons, E. reflexivity.
Qed.

Lemma new_before_mono (d : list Z) (kk : Z) (i j : nat) :
  (i < j)%nat -> (j < length d)%nat -> nth i d 0 = kk ->
  (new_before d kk i < new_before d kk j)%nat.
Proof.
  revert i j. unfold new_before.
  induction d as [|h t IH]; intros i j Hij Hj Hi; simpl in Hj; [lia|].
  destruct j as [|j]; [lia|].
  destruct i as [|i].
  - simpl in Hi. subst h. simpl. rewrite count_true_cons, Z.eqb_refl.
    unfold count_true. simpl. lia.
  - simpl in Hi. simpl firstn. simpl mask_eq. rewrite !count_true_cons.
    assert (count_true (mask_eq (firstn i t) kk)
            < count_true (mask_eq (firstn j t) kk))%nat by (apply IH; lia).
    lia.
Qed.

End NumpyFacts.

(** ** sample_indicator *)

Section SampleIndicator.
Context `{B : BGMM_base}.

(** The base draw returns one column index per row of the matrix. *)
Hypothesis draw_length : forall s g like,
  length (fst (BGMM_sample_indicator s g like)) = length like.
Hypothesis draw_range : forall s g like c,
  (0 < c)%nat ->
  Forall (fun row => length row = c) like ->
  Forall (fun d => 0 <= d < Z.of_nat c) (fst (BGMM_sample_indicator s g like)).

(** C1.  With [k = self.k] and a likelihood matrix of [k + 1] columns, the
    vector returned by [sample_indicator] keeps every drawn index below [k]
    and replaces the draws of the last column by [k], [k + 1], ... in point
    order: the point gets [k] plus the number of earlier points that drew the
    last column, so fresh labels are at least [k] and pairwise distinct. *)
Theorem sample_indicator_fresh_labels (w : world) (like : matrix) :
  0 <= k (self w) ->
  Forall (fun row => length row = S (Z.to_nat (k (self w)))) like ->
  let kk := k (self w) in
  let d := fst (BGMM_sample_indicator (self w) (rng w) like) in
  exists z w',
    sample_indicator like w = Ok z w'
    /\ length z = length like
    /\ (forall i, (i < length like)%nat -> nth i d 0 = kk ->
          nth i z 0 = kk + Z.of_nat (new_before d kk i) /\ kk <= nth i z 0)
    /\ (forall i, (i < length like)%nat -> nth i d 0 <> kk ->
          nth i z 0 = nth i d 0 /\ 0 <= nth i z 0 < kk)
    /\ (forall i j, (i < j)%nat -> (j < length like)%nat ->
          nth i d 0 = kk -> nth j d 0 = kk -> nth i z 0 < nth j z 0).
Proof.
  intros Hk Hcols kk d.
  pose proof (draw_length (self w) (rng w) like) as Hlen.
  pose proof (draw_range (self w) (rng w) like _ (Nat.lt_0_succ _) Hcols) as Hr.
  fold d in Hlen, Hr.
  unfold sample_indicator, bindO, get, modify.
  unfold d in *. clear d.
  destruct (BGMM_sample_indicator (self w) (rng w) like) as [z0 g].
  simpl fst in *. cbn [k self with_rng]. fold kk.
  destruct (NumpyFacts.put_mask_fresh kk z0 0) as (z & Hp & Hl & Hn).
  unfold Numpy.arange. rewrite Hp. simpl.
  exists z, (with_rng w g).
  split; [reflexivity|]. split; [lia|].
  assert (Hin : forall i, (i < length like)%nat -> 0 <= nth i z0 0 <= kk).
  { intros i Hi. rewrite Forall_forall in Hr.
    assert (Hm : In (nth i z0 0) z0) by (apply nth_In; lia).
    apply Hr in Hm. rewrite Nat2Z.inj_succ, Z2Nat.id in Hm by exact Hk.
    unfold kk. lia. }
  split; [|split].
  - intros i Hi Hd. rewrite Hn by lia.
    rewrite (proj2 (Z.eqb_eq _ _) Hd). simpl. lia.
  - intros i Hi Hd. rewrite Hn by lia.
    rewrite (proj2 (Z.eqb_neq _ _) Hd). specialize (Hin i Hi). lia.
  - intros i j Hij Hj Hdi Hdj.
    rewrite !Hn by lia.
    rewrite (proj2 (Z.eqb_eq _ _) Hdi), (proj2 (Z.eqb_eq _ _) Hdj). simpl.
    pose proof (NumpyFacts.new_before_mono z0 kk i j Hij ltac:(lia) Hdi). lia.
Qed.

End SampleIndicator.

Lemma demo_draw_length (s : IMM) (g : nat) (like : matrix) :
  length (fst (@BGMM_sample_indicator demo_base s g like)) = length like.
Proof.
  simpl. rewrite length_map, length_combine, length_seq. apply Nat.min_id.
Qed.

Lemma demo_draw_range (s : IMM) (g : nat) (like : matrix) (c : nat) :
  (0 < c)%nat ->
  Forall (fun row => length row = c) like ->
  Forall (fun d => 0 <= d < Z.of_nat c)
         (fst (@BGMM_sample_indicator demo_base s g like)).
Proof.
  intros Hc Hrows. simpl. apply Forall_map. apply Forall_forall.
  intros [p row] Hin. apply in_combine_r in Hin.
  rewrite Forall_forall in Hrows. simpl. rewrite (Hrows row Hin).
  pose proof (Nat.mod_upper_bound (p + g) c ltac:(lia)). lia.
Qed.

(** Six points, two clusters: the draws are 0, 1, 2, 0, 1, 2, and the two
    draws of the last column become the labels 2 and 3. *)
Lemma sample_indicator_fresh_labels_witness :
  0 <= k (self w_k2)
  /\ Forall (fun row => length row = S (Z.to_nat (k (self w_k2)))) like6
  /\ exists z w',
       sample_indicator like6 w_k2 = Ok z w'
       /\ length z = length like6
       /\ nth 2 z 0 = 2 /\ nth 5 z 0 = 3.
Proof.
  assert (H1 : 0 <= k (self w_k2)) by (vm_compute; discriminate).
  assert (H2 : Forall (fun row => length row = S (Z.to_nat (k (self w_k2)))) like6)
    by (repeat constructor).
  split; [exact H1|]. split; [exact H2|].
  destruct (@sample_indicator_fresh_labels demo_base
              demo_draw_length demo_draw_range w_k2 like6 H1 H2)
    as (z & w' & E & Hl & Hnew & _).
  exists z, w'. split; [exact E|]. split; [exact Hl|].
  split.
  - apply (Hnew 2%nat); [simpl; lia|reflexivity].
  - apply (Hnew 5%nat); [simpl; lia|reflexivity].
Defined.

(** ** reduce *)

Module ReduceFacts.
Import Numpy.

Lemma uinsert_In (v x : Z) (l : list Z) :
  In x (uinsert v l) <-> x = v \/ In x l.
Proof.
  induction l as [|h t IH]; simpl.
  - intuition.
  - destruct (v <? h) eqn:E1; [simpl; intuition|].
    destruct (v =? h) eqn:E2.
    + apply Z.eqb_eq in E2. subst. simpl. intuition.
    + simpl. rewrite IH. intuition.
Qed.

Lemma uinsert_sorted (v : Z) (l : list Z) :
  StronglySorted Z.lt l -> StronglySorted Z.lt (uinsert v l).
Proof.
  induction 1 as [|h t Hs IH Hh]; simpl.
  - repeat constructor.
  - destruct (v <? h) eqn:E1.
    + apply Z.ltb_lt in E1. constructor; [now constructor|].
      constructor; [exact E1|].
      eapply Forall_impl; [|exact Hh]. intros. lia.
    + destruct (v =? h) eqn:E2; [now constructor|].
      apply Z.ltb_ge in E1. apply Z.eqb_neq in E2.
      constructor; [exact IH|].
      rewrite Forall_forall in *. intros x Hx.
      apply uinsert_In in Hx. destruct Hx as [->|Hx]; [lia|auto].
Qed.

(** [np.unique] returns the labels of [z], each once, in increasing order. *)
Lemma unique_sorted (z : list Z) : StronglySorted Z.lt (unique z).
Proof.
  induction z; simpl; [constructor|now apply uinsert_sorted].
Qed.

Lemma unique_In (z : list Z) (v : Z) : In v (unique z) <-> In v z.
Proof.
  induction z as [|h t IH]; simpl; [tauto|].
  rewrite uinsert_In, IH. intuition.
Qed.

Lemma sorted_NoDup (u : list Z) : StronglySorted Z.lt u -> NoDup u.
Proof.
  induction 1 as [|h t Hs IH Hh]; constructor; [|exact IH].
  intros Hin. rewrite Forall_forall in Hh. specialize (Hh _ Hin). lia.
Qed.

Lemma loop_pointwise (l : list (Z * Z)) (z : list Z) :
  fold_left (fun zc ik => fill_mask zc (mask_eq zc (snd ik)) (fst ik)) l z
  = map (fold_left (fun y ik => if y =? snd ik then fst ik else y) l) z.
Proof.
  revert z. induction l as [|[c h] l IH]; intros z; simpl.
  - now rewrite map_id.
  - rewrite IH, NumpyFacts.fill_mask_eq, map_map. reflexivity.
Qed.

Lemma relabel_from_cons (c : nat) (h : Z) (t : list Z) (y : Z) :
  relabel_from c (h :: t) y
  = relabel_from (S c) t (if y =? h then Z.of_nat c else y).
Proof. reflexivity. Qed.

Lemma relabel_from_skip (u : list Z) :
  forall (c : nat) (y : Z),
    Forall (fun h => y < h) u -> relabel_from c u y = y.
Proof.
  unfold relabel_from.
  induction u as [|h t IH]; intros c y Hy; simpl; [reflexivity|].
  inversion Hy; subst.
  replace (y =? h) with false by (symmetry; apply Z.eqb_neq; lia).
  now apply IH.
Qed.

(** A label present in the array is sent to its position in the sorted list
    of distinct labels, as long as no label is below the numbering. *)
Lemma relabel_from_nth (u : list Z) :
  forall (c p : nat),
    StronglySorted Z.lt u ->
    Forall (fun h => Z.of_nat c <= h) u ->
    (p < length u)%nat ->
    relabel_from c u (nth p u 0) = Z.of_nat (c + p).
Proof.
  induction u as [|h t IH]; intros c p Hs Hc Hp; simpl in Hp; [lia|].
  inversion Hs as [|? ? Hs' Hh]; subst. inversion Hc as [|? ? Hch Hct]; subst.
  rewrite relabel_from_cons.
  destruct p as [|p]; simpl.
  - rewrite Z.eqb_refl. rewrite relabel_from_skip.
    + f_equal. lia.
    + eapply Forall_impl; [|exact Hh]. simpl. intros. lia.
  - assert (Hlt : h < nth p t 0).
    { rewrite Forall_forall in Hh. apply Hh, nth_In. lia. }
    replace (nth p t 0 =? h) with false by (symmetry; apply Z.eqb_neq; lia).
    rewrite IH; [f_equal; lia|exact Hs'| |lia].
    eapply Forall_impl; [|exact Hh]. simpl. intros. lia.
Qed.

Lemma amax_spec (z : list Z) (v : Z) :
  amax z = Some v -> In v z /\ Forall (fun y => y <= v) z.
Proof.
  destruct z as [|h t]; simpl; [discriminate|].
  intros E. injection E as <-.
  revert h. induction t as [|a t IH]; intros h; simpl.
  - split; [now left|]. constructor; [lia|constructor].
  - destruct (IH (Z.max h a)) as [Hin Hall].
    split.
    + destruct Hin as [Hin|Hin]; [|now right; right].
      destruct (Z.max_spec h a) as [[_ E]|[_ E]]; rewrite E in Hin at 1;
        [right; left|left]; exact Hin.
    + inversion Hall; subst. constructor; [lia|].
      constructor; [lia|assumption].
Qed.

Lemma nth_map_lt {A C : Type} (f : A -> C) (l : list A) (i : nat) (d : A) (d' : C) :
  (i < length l)%nat -> nth i (map f l) d' = f (nth i l d).
Proof.
  intros Hi. rewrite (nth_indep _ d' (f d)) by now rewrite length_map.
  apply map_nth.
Qed.

(** The relabelled array, label by label. *)
Lemma reduce_loop_rank (z : list Z) :
  Forall (fun v => 0 <= v) z ->
  forall i, (i < length z)%nat ->
    0 <= nth i (reduce_loop z) 0 < Z.of_nat (length (unique z))
    /\ nth_error (unique z) (Z.to_nat (nth i (reduce_loop z) 0))
       = Some (nth i z 0).
Proof.
  intros Hz i Hi.
  unfold reduce_loop, enumerate, arange. rewrite loop_pointwise.
  rewrite (nth_map_lt _ z i 0 0 Hi).
  fold (relabel_from 0 (unique z) (nth i z 0)).
  assert (Hin : In (nth i z 0) (unique z)) by (apply unique_In, nth_In; exact Hi).
  destruct (In_nth _ _ 0 Hin) as (p & Hp & Ep).
  rewrite <- Ep at 1 2 3.
  rewrite relabel_from_nth; [|apply unique_sorted| |exact Hp].
  - simpl. rewrite Nat2Z.id. split; [lia|].
    rewrite <- Ep. apply nth_error_nth'. exact Hp.
  - rewrite Forall_forall in *. intros x Hx.
    apply (proj1 (unique_In z x)) in Hx. simpl. auto.
Qed.

Lemma reduce_loop_length (z : list Z) :
  length (reduce_loop z) = length z.
Proof.
  unfold reduce_loop. rewrite loop_pointwise. apply length_map.
Qed.

End ReduceFacts.

Module StoreFacts.

Lemma store_set_length (h : list (list Z)) (r : nat) (v : list Z) :
  length (store_set h r v) = length h.
Proof.
  revert r. induction h as [|c t IH]; intros [|r]; simpl; auto.
Qed.

Lemma store_set_same (h : list (list Z)) (r : nat) (v : list Z) :
  (r < length h)%nat -> nth_error (store_set h r v) r = Some v.
Proof.
  revert r. induction h as [|c t IH]; intros [|r] Hr; simpl in *; try lia; auto.
  apply IH. lia.
Qed.

Lemma store_set_other (h : list (list Z)) (r r' : nat) (v : list Z) :
  r <> r' -> nth_error (store_set h r v) r' = nth_error h r'.
Proof.
  revert r r'.
  induction h as [|c t IH]; intros [|r] [|r'] Hr; simpl; auto; congruence.
Qed.

End StoreFacts.

Section Reduce.
Context `{B : BGMM_base}.
Import ReduceFacts.

(** Every rank below the number of distinct labels is taken by some point. *)
Lemma reduce_loop_onto (z : list Z) (q : nat) :
  Forall (fun v => 0 <= v) z ->
  (q < length (Numpy.unique z))%nat ->
  exists i, (i < length z)%nat /\ nth i (reduce_loop z) 0 = Z.of_nat q.
Proof.
  intros Hz Hq.
  assert (Hin : In (nth q (Numpy.unique z) 0) z)
    by (apply unique_In, nth_In; exact Hq).
  destruct (In_nth _ _ 0 Hin) as (i & Hi & Ei).
  exists i. split; [exact Hi|].
  destruct (reduce_loop_rank z Hz i Hi) as [Hr He].
  rewrite Ei in He. rewrite <- (nth_error_nth' _ 0 Hq) in He.
  pose proof (sorted_NoDup _ (unique_sorted z)) as Hnd.
  rewrite NoDup_nth_error in Hnd.
  symmetry in He. apply Hnd in He; [lia|exact Hq].
Qed.

Lemma amax_reduce_loop (z : list Z) :
  z <> [] -> Forall (fun v => 0 <= v) z ->
  Numpy.amax (reduce_loop z)
  = Some (Z.of_nat (length (Numpy.unique z)) - 1).
Proof.
  intros Hne Hz.
  assert (Hlen : (0 < length z)%nat) by (destruct z; [congruence|simpl; lia]).
  assert (Hu : (0 < length (Numpy.unique z))%nat).
  { assert (In (nth 0 z 0) (Numpy.unique z)) by (apply unique_In, nth_In; lia).
    destruct (Numpy.unique z); [contradiction|simpl; lia]. }
  destruct (Numpy.amax (reduce_loop z)) as [v|] eqn:E.
  - f_equal. destruct (amax_spec _ _ E) as [Hin Hall].
    destruct (In_nth _ _ 0 Hin) as (i & Hi & Ei).
    rewrite reduce_loop_length in Hi.
    pose proof (reduce_loop_rank z Hz i Hi) as [Hr _].
    destruct (reduce_loop_onto z (length (Numpy.unique z) - 1) Hz ltac:(lia))
      as (i' & Hi' & Ei').
    rewrite Forall_forall in Hall.
    assert (nth i' (reduce_loop z) 0 <= v).
    { apply Hall, nth_In. now rewrite reduce_loop_length. }
    lia.
  - pose proof (reduce_loop_length z) as L.
    destruct (reduce_loop z); [simpl in L; lia|discriminate].
Qed.

(** C2.  On a non-empty array of nonnegative labels [reduce] returns, and
    afterwards: [self.k] is the number of distinct input labels; the labels
    present are exactly 0, ..., k-1; two points share their new label exactly
    when they shared the old one; and the new label of a point is the position
    of its old label in the increasing list of distinct input labels. *)
Theorem reduce_contiguous_ranks (w : world) (r : ref) (z : list Z) :
  nth_error (heap w) r = Some z ->
  z <> [] ->
  Forall (fun v => 0 <= v) z ->
  let u := Numpy.unique z in
  StronglySorted Z.lt u /\ (forall v, In v u <-> In v z) /\
  exists w' z',
    reduce r w = Ok tt w'
    /\ nth_error (heap w') r = Some z'
    /\ length z' = length z
    /\ k (self w') = Z.of_nat (length u)
    /\ (forall v, In v z' <-> 0 <= v < k (self w'))
    /\ (forall i j, (i < length z)%nat -> (j < length z)%nat ->
          (nth i z' 0 = nth j z' 0 <-> nth i z 0 = nth j z 0))
    /\ (forall i, (i < length z)%nat ->
          0 <= nth i z' 0
          /\ nth_error u (Z.to_nat (nth i z' 0)) = Some (nth i z 0)).
Proof.
  intros Hh Hne Hz u.
  split; [apply unique_sorted|]. split; [apply unique_In|].
  assert (Hr : (r < length (heap w))%nat)
    by (apply nth_error_Some; congruence).
  exists (with_self (with_heap w (store_set (heap w) r (reduce_loop z)))
                    (set_k (self w) (Z.of_nat (length u) - 1 + 1))),
         (reduce_loop z).
  split.
  { unfold reduce, read, write, bindO, get, modify, expect, on_self, ret.
    rewrite Hh. simpl. rewrite (amax_reduce_loop z Hne Hz). reflexivity. }
  simpl.
  split; [now apply StoreFacts.store_set_same|].
  split; [apply reduce_loop_length|].
  split; [lia|].
  split; [|split].
  - intros v. split.
    + intros Hin. destruct (In_nth _ _ 0 Hin) as (i & Hi & Ei).
      rewrite reduce_loop_length in Hi.
      destruct (reduce_loop_rank z Hz i Hi) as [Hrk _]. fold u in Hrk. lia.
    + intros Hv.
      destruct (reduce_loop_onto z (Z.to_nat v) Hz) as (i & Hi & Ei);
        [fold u; lia|].
      rewrite Z2Nat.id in Ei by lia. rewrite <- Ei.
      apply nth_In. now rewrite reduce_loop_length.
  - intros i j Hi Hj.
    destruct (reduce_loop_rank z Hz i Hi) as [Hri Hei].
    destruct (reduce_loop_rank z Hz j Hj) as [Hrj Hej].
    split; intros E.
    + rewrite E in Hei. congruence.
    + rewrite <- E in Hej. rewrite <- Hej in Hei.
      pose proof (sorted_NoDup _ (unique_sorted z)) as Hnd.
      rewrite NoDup_nth_error in Hnd. apply Hnd in Hei; lia.
  - intros i Hi. destruct (reduce_loop_rank z Hz i Hi) as [Hri Hei].
    split; [lia|exact Hei].
Qed.

End Reduce.

(** The labels 3, 1, 3, 7, 1 become 1, 0, 1, 2, 0 and [k] becomes 3. *)
Lemma reduce_contiguous_ranks_witness :
  nth_error (heap w_k2) 0 = Some [3; 1; 3; 7; 1]
  /\ [3; 1; 3; 7; 1] <> []
  /\ Forall (fun v => 0 <= v) [3; 1; 3; 7; 1]
  /\ exists w' z',
       reduce 0%nat w_k2 = Ok tt w'
       /\ nth_error (heap w') 0 = Some z'
       /\ k (self w') = 3.
Proof.
  assert (H1 : nth_error (heap w_k2) 0 = Some [3; 1; 3; 7; 1]) by reflexivity.
  assert (H2 : [3; 1; 3; 7; 1] <> []) by discriminate.
  assert (H3 : Forall (fun v => 0 <= v) [3; 1; 3; 7; 1])
    by (repeat constructor; lia).
  split; [exact H1|]. split; [exact H2|]. split; [exact H3|].
  destruct (reduce_contiguous_ranks w_k2 0%nat _ H1 H2 H3)
    as (_ & _ & w' & z' & E & Hh & _ & Hk & _).
  exists w', z'. split; [exact E|]. split; [exact Hh|]. exact Hk.
Defined.

(** A label below zero breaks the numbering: -1 and 0 are merged. *)
Example reduce_loop_negative_label : reduce_loop [-1; 0] = [1; 1].
Proof. reflexivity. Qed.

(** ** What each method leaves untouched *)

Section Keeps.
Context {S T : Type} (f : S -> T).

Lemma keeps_ret {A : Type} (a : A) : keeps f (ret a).
Proof. intros s. reflexivity. Qed.

Lemma keeps_raise {A : Type} (e : exn) : keeps f (@raise S A e).
Proof. intros s. reflexivity. Qed.

Lemma keeps_get : keeps f (@get S).
Proof. intros s. reflexivity. Qed.

Lemma keeps_expect {A : Type} (e : exn) (o : option A) : keeps f (expect e o).
Proof. intros s. destruct o; reflexivity. Qed.

Lemma keeps_modify (g : S -> S) : (forall s, f (g s) = f s) -> keeps f (modify g).
Proof. intros H s. apply H. Qed.

Lemma keeps_bind {A C : Type} (c : S -> outcome S A) (h : A -> S -> outcome S C) :
  keeps f c -> (forall a, keeps f (h a)) -> keeps f (bindO c h).
Proof.
  intros Hc Hh s. unfold bindO. specialize (Hc s).
  destruct (c s) as [a s'|e s']; simpl in *; [|exact Hc].
  now rewrite Hh.
Qed.

Lemma keeps_if {A : Type} (b : bool) (c1 c2 : S -> outcome S A) :
  keeps f c1 -> keeps f c2 -> keeps f (if b then c1 else c2).
Proof. destruct b; auto. Qed.

End Keeps.

Lemma keeps_of_state {S T A : Type} (f : S -> T) (c : S -> outcome S A) :
  keeps (fun s => s) c -> keeps f c.
Proof. intros H s. specialize (H s). cbv beta in H. now rewrite H. Qed.

(** How a sequence runs: either the first part returns and the rest runs from
    there, or it raises and the sequence stops. *)
Lemma bindO_cases {S A C : Type} (c : S -> outcome S A)
  (h : A -> S -> outcome S C) (s : S) :
  (exists a s', c s = Ok a s' /\ bindO c h s = h a s')
  \/ (exists e s', c s = Raised e s' /\ bindO c h s = Raised e s').
Proof.
  unfold bindO. destruct (c s) as [a s'|e s']; [left|right]; eauto.
Qed.

Lemma bind_ok {S A C : Type} (c : S -> outcome S A)
  (h : A -> S -> outcome S C) (s s' : S) (a : A) :
  c s = Ok a s' -> bindO c h s = h a s'.
Proof. intros E. unfold bindO. now rewrite E. Qed.

Lemma bind_raised {S A C : Type} (c : S -> outcome S A)
  (h : A -> S -> outcome S C) (s s' : S) (e : exn) :
  c s = Raised e s' -> bindO c h s = Raised e s'.
Proof. intros E. unfold bindO. now rewrite E. Qed.

Lemma expect_some {S A : Type} (e : exn) (a : A) (s : S) :
  expect e (Some a) s = Ok a s.
Proof. reflexivity. Qed.

Lemma expect_none {S A : Type} (e : exn) (s : S) :
  expect e (@None A) s = Raised e s.
Proof. reflexivity. Qed.

Ltac keeps_steps :=
  repeat first
    [ apply keeps_ret | apply keeps_raise | apply keeps_get
    | apply keeps_expect
    | apply keeps_if
    | apply keeps_modify; intros; reflexivity
    | apply keeps_bind; [|intros] ].


Section Frames.
Context `{B : BGMM_base} `{P : PriorDensity}.

Lemma keeps_on_self {T A : Type} (f : world -> T) (c : IMM -> outcome IMM A) :
  (forall w s, f (with_self w s) = f w) -> keeps f (on_self c).
Proof.
  intros H w. unfold on_self. destruct (c (self w)); simpl; apply H.
Qed.

Lemma keeps_on_self_field {T A : Type} (g : IMM -> T) (c : IMM -> outcome IMM A) :
  keeps g c -> keeps (fun w => g (self w)) (on_self c).
Proof.
  intros H w. unfold on_self. specialize (H (self w)).
  destruct (c (self w)); simpl in *; exact H.
Qed.

Lemma redimension_keeps_k : keeps k redimension_priors.
Proof. unfold redimension_priors. keeps_steps. Qed.

Lemma redimension_keeps_dim : keeps dim redimension_priors.
Proof. unfold redimension_priors. keeps_steps. Qed.

Lemma alloc_ok (v : list Z) (w : world) :
  alloc v w = Ok (length (heap w)) (with_heap w (heap w ++ [v])).
Proof. reflexivity. Qed.

(** [update] keeps the store, and logs exactly one call of the base update
    unless it raises before reaching it. *)
Lemma update_effect (x : matrix) (z : list Z) (w : world) :
  let o := update x z w in
  heap (state_of o) = heap w
  /\ (trace (state_of o) = trace w
      \/ trace (state_of o) = trace w ++ [BaseCall (k (self w)) x z])
  /\ (is_ok o = true ->
      trace (state_of o) = trace w ++ [BaseCall (k (self w)) x z]).
Proof.
  unfold update.
  pose proof (keeps_on_self_field k _ redimension_keeps_k w) as Hk.
  pose proof (keeps_on_self heap redimension_priors (fun _ _ => eq_refl) w) as Hh.
  pose proof (keeps_on_self trace redimension_priors (fun _ _ => eq_refl) w) as Ht.
  simpl in Hk.
  destruct (bindO_cases (on_self redimension_priors)
              (fun _ =>
                 modify (fun w => with_trace w (trace w ++ [BaseCall (k (self w)) x z])) ;;;
                 (fun w => match BGMM_update (self w) (rng w) x z with
                           | Ok _ (s, g) => Ok tt (with_rng (with_self w s) g)
                           | Raised e (s, g) => Raised e (with_rng (with_self w s) g)
                           end)) w)
    as [(a & w1 & E1 & E2)|(e & w1 & E1 & E2)];
    rewrite E2; rewrite E1 in Hk, Hh, Ht; simpl in Hk, Hh, Ht.
  - unfold bindO, modify. simpl.
    destruct (BGMM_update (self w1) (rng w1) x z) as [u [s g]|e [s g]]; simpl;
      rewrite Hh, Ht, Hk; auto.
  - simpl. repeat split; auto. discriminate.
Qed.

Lemma likelihood_state (x : matrix) (plike : option vector) :
  keeps (fun w : world => w) (likelihood x plike).
Proof. unfold likelihood. keeps_steps. Qed.

Lemma sample_indicator_keeps {T : Type} (f : world -> T) (like : matrix) :
  (forall w g, f (with_rng w g) = f w) -> keeps f (sample_indicator like).
Proof.
  intros Hf w. unfold sample_indicator, bindO, get, modify.
  destruct (BGMM_sample_indicator (self w) (rng w) like) as [z g]. simpl.
  destruct (Numpy.put_mask _ _ _); simpl; apply Hf.
Qed.

Lemma read_state (r : ref) : keeps (fun w : world => w) (read r).
Proof. unfold read. keeps_steps. Qed.

Lemma reduce_keeps_trace (r : ref) : keeps trace (reduce r).
Proof.
  unfold reduce, read, write. keeps_steps.
Qed.

Lemma reduce_keeps_other (r zr : ref) :
  r <> zr -> keeps (fun w => nth_error (heap w) zr) (reduce r).
Proof.
  intros Hr. unfold reduce, read, write. keeps_steps.
  apply keeps_modify. intros w. simpl.
  now apply StoreFacts.store_set_other.
Qed.

Lemma read_some (r : ref) (w : world) (z : list Z) :
  nth_error (heap w) r = Some z -> read r w = Ok z w.
Proof. intros E. unfold read, bindO, get. now rewrite E. Qed.

Lemma read_none (r : ref) (w : world) :
  nth_error (heap w) r = None -> read r w = Raised IndexError w.
Proof. intros E. unfold read, bindO, get. now rewrite E. Qed.

(** The statement [self.reduce(z[train])] logs nothing and leaves every array
    that existed before it as it was. *)
Lemma reduce_on_slice_effect (train : list bool) (zr : ref) (w : world) :
  trace (state_of (reduce_on_slice train zr w)) = trace w
  /\ forall r, (r < length (heap w))%nat ->
       nth_error (heap (state_of (reduce_on_slice train zr w))) r
       = nth_error (heap w) r.
Proof.
  unfold reduce_on_slice.
  destruct (nth_error (heap w) zr) as [z0|] eqn:E0;
    [rewrite (bind_ok _ _ _ _ _ (read_some _ _ _ E0))
    |rewrite (bind_raised _ _ _ _ _ (read_none _ _ E0)); auto].
  destruct (Numpy.select train z0) as [zt|];
    [rewrite (bind_ok _ _ _ _ _ (expect_some _ _ _))
    |rewrite (bind_raised _ _ _ _ _ (expect_none _ _)); auto].
  rewrite (bind_ok _ _ _ _ _ (alloc_ok _ _)).
  split.
  - now rewrite reduce_keeps_trace.
  - intros r Hr.
    pose proof (reduce_keeps_other (length (heap w)) r ltac:(lia)
                  (with_heap w (heap w ++ [zt]))) as Hk.
    cbv beta in Hk. rewrite Hk. simpl. now apply nth_error_app1.
Qed.

(** When [self.reduce(z[train])] returns, [self.k] is one more than the
    largest label of the compacted copy. *)
Lemma reduce_on_slice_ok (train : list bool) (zr : ref) (w w1 : world)
  (z0 : list Z) :
  nth_error (heap w) zr = Some z0 ->
  reduce_on_slice train zr w = Ok tt w1 ->
  exists zt, Numpy.select train z0 = Some zt
             /\ Numpy.amax (reduce_loop zt) = Some (k (self w1) - 1).
Proof.
  intros E0. unfold reduce_on_slice.
  rewrite (bind_ok _ _ _ _ _ (read_some _ _ _ E0)).
  destruct (Numpy.select train z0) as [zt|];
    [rewrite (bind_ok _ _ _ _ _ (expect_some _ _ _))
    |rewrite (bind_raised _ _ _ _ _ (expect_none _ _)); discriminate].
  rewrite (bind_ok _ _ _ _ _ (alloc_ok _ _)).
  assert (Et : nth_error (heap (with_heap w (heap w ++ [zt]))) (length (heap w))
               = Some zt).
  { simpl. rewrite nth_error_app2 by lia. now rewrite Nat.sub_diag. }
  unfold reduce. rewrite (bind_ok _ _ _ _ _ (read_some _ _ _ Et)).
  unfold write, bindO, modify, expect, on_self, ret, raise.
  destruct (Numpy.amax (reduce_loop zt)) as [m|] eqn:Em; [|discriminate].
  intros E. injection E as <-. exists zt. split; [reflexivity|].
  simpl. rewrite Em. f_equal. lia.
Qed.

(** The statement [self.update(x[train], z[train])] keeps the store; the call
    of the base update it logs carries [x[train]] and the current [z[train]]. *)
Lemma update_on_slice_effect (train : list bool) (x : matrix) (zr : ref)
  (w : world) :
  heap (state_of (update_on_slice train x zr w)) = heap w
  /\ (trace (state_of (update_on_slice train x zr w)) = trace w
      /\ is_ok (update_on_slice train x zr w) = false
      \/ exists xt z1 zt,
           Numpy.select train x = Some xt
           /\ nth_error (heap w) zr = Some z1
           /\ Numpy.select train z1 = Some zt
           /\ trace (state_of (update_on_slice train x zr w))
              = trace w ++ [BaseCall (k (self w)) xt zt]).
Proof.
  unfold update_on_slice.
  destruct (Numpy.select train x) as [xt|] eqn:Ex;
    [rewrite (bind_ok _ _ _ _ _ (expect_some _ _ _))
    |rewrite (bind_raised _ _ _ _ _ (expect_none _ _)); auto].
  destruct (nth_error (heap w) zr) as [z1|] eqn:E1;
    [rewrite (bind_ok _ _ _ _ _ (read_some _ _ _ E1))
    |rewrite (bind_raised _ _ _ _ _ (read_none _ _ E1)); auto].
  destruct (Numpy.select train z1) as [zt|] eqn:Ez;
    [rewrite (bind_ok _ _ _ _ _ (expect_some _ _ _))
    |rewrite (bind_raised _ _ _ _ _ (expect_none _ _)); auto].
  destruct (update_effect xt zt w) as (Hh & Ht & Hok).
  split; [exact Hh|].
  destruct Ht as [Ht|Ht].
  - destruct (is_ok (update xt zt w)) eqn:Eok.
    + right. exists xt, z1, zt. auto.
    + left. auto.
  - right. exists xt, z1, zt. auto.
Qed.

Lemma score_held_out_keeps_trace (test : list bool) (x : matrix) (zr : ref)
  (plike slike : vector) :
  keeps trace (score_held_out test x zr plike slike).
Proof.
  unfold score_held_out, read, write. keeps_steps.
  match goal with
  | |- context [BGMM_sample_indicator ?a ?b ?c] =>
      destruct (BGMM_sample_indicator a b c)
  end.
  keeps_steps.
Qed.

(** One fold logs at most one call of the base update, exactly one when the
    fold completes.  That call carries [x[train]] and [z[train]], taken from
    the labels as they are when the fold starts, and is made with [self.k] one
    more than the largest label of the compacted [z[train]]. *)
Lemma cv_fold_call (x : matrix) (zr : ref) (plike : vector)
  (idx : list nat) (j : Z) (slike : vector) (i : nat) (w : world) :
  let train := Numpy.logical_not (test_mask idx (length x) j i) in
  let o := cv_fold x zr plike idx j slike i w in
  (trace (state_of o) = trace w /\ is_ok o = false)
  \/ exists c z0,
       trace (state_of o) = trace w ++ [c]
       /\ Numpy.select train x = Some (call_x c)
       /\ nth_error (heap w) zr = Some z0
       /\ Numpy.select train z0 = Some (call_z c)
       /\ Numpy.amax (reduce_loop (call_z c)) = Some (call_k c - 1).
Proof.
  intros train o. unfold o, cv_fold. fold train.
  destruct (bindO_cases (reduce_on_slice train zr)
              (fun _ => update_on_slice train x zr ;;;
                        score_held_out (test_mask idx (length x) j i) x zr plike slike) w)
    as [(a & w1 & E1 & E2)|(e & w1 & E1 & E2)]; rewrite E2; clear E2;
    pose proof (reduce_on_slice_effect train zr w) as [Ht1 Hh1];
    rewrite E1 in Ht1, Hh1; simpl in Ht1, Hh1.
  2:{ left. simpl. auto. }
  destruct a.
  destruct (nth_error (heap w) zr) as [z0|] eqn:E0.
  2:{ exfalso. unfold reduce_on_slice in E1.
      rewrite (bind_raised _ _ _ _ _ (read_none _ _ E0)) in E1. discriminate. }
  destruct (reduce_on_slice_ok train zr w w1 z0 E0 E1) as (zt & Hs & Hm).
  assert (E0' : nth_error (heap w1) zr = Some z0).
  { rewrite Hh1; [exact E0|]. apply nth_error_Some. congruence. }
  destruct (bindO_cases (update_on_slice train x zr)
              (fun _ => score_held_out (test_mask idx (length x) j i) x zr plike slike) w1)
    as [(a2 & w2 & E3 & E4)|(e & w2 & E3 & E4)]; rewrite E4; clear E4;
    pose proof (update_on_slice_effect train x zr w1) as [_ Hu];
    rewrite E3 in Hu; simpl in Hu.
  - destruct Hu as [[_ Hu]|(xt & z1 & zt1 & Hx & Hz1 & Hzt & Ht2)];
      [discriminate|].
    rewrite E0' in Hz1. injection Hz1 as <-.
    rewrite Hs in Hzt. injection Hzt as <-.
    right. exists (BaseCall (k (self w1)) xt zt), z0.
    rewrite score_held_out_keeps_trace, Ht2, Ht1. simpl. auto 10.
  - destruct Hu as [[Ht2 _]|(xt & z1 & zt1 & Hx & Hz1 & Hzt & Ht2)].
    + left. simpl. rewrite Ht2, Ht1. auto.
    + rewrite E0' in Hz1. injection Hz1 as <-.
      rewrite Hs in Hzt. injection Hzt as <-.
      right. exists (BaseCall (k (self w1)) xt zt), z0.
      simpl. rewrite Ht2, Ht1. auto 10.
Qed.

(** The whole loop: the calls of the base update come in fold order, one per
    fold that reached its update.  Call number [p] is made after the folds
    before fold number [p] have returned, and is the call of that fold. *)
Lemma cv_loop_calls (x : matrix) (zr : ref) (plike : vector)
  (idx : list nat) (j : Z) (folds : list nat) :
  forall (slike : vector) (w : world),
  exists calls,
    trace (state_of (cv_loop x zr plike idx j slike folds w)) = trace w ++ calls
    /\ (is_ok (cv_loop x zr plike idx j slike folds w) = true ->
        length calls = length folds)
    /\ forall p c, nth_error calls p = Some c ->
         exists i sl wp z0,
           nth_error folds p = Some i
           /\ cv_loop x zr plike idx j slike (firstn p folds) w = Ok sl wp
           /\ Numpy.select
                (Numpy.logical_not (test_mask idx (length x) j i)) x
              = Some (call_x c)
           /\ nth_error (heap wp) zr = Some z0
           /\ Numpy.select
                (Numpy.logical_not (test_mask idx (length x) j i)) z0
              = Some (call_z c)
           /\ Numpy.amax (reduce_loop (call_z c)) = Some (call_k c - 1).
Proof.
  induction folds as [|i rest IH]; intros slike w.
  - exists []. simpl. rewrite app_nil_r. repeat split; auto.
    intros [|p] c; discriminate.
  - cbn [cv_loop].
    destruct (cv_fold_call x zr plike idx j slike i w)
      as [[Ht Hok]|(c0 & z0 & Ht & Hx & Hz0 & Hzt & Hm)].
    + exists []. rewrite app_nil_r.
      destruct (bindO_cases (cv_fold x zr plike idx j slike i)
                  (fun s1 => cv_loop x zr plike idx j s1 rest) w)
        as [(a & w1 & E1 & E2)|(e & w1 & E1 & E2)]; rewrite E1 in Ht, Hok;
        [discriminate|].
      rewrite E2. simpl in *. repeat split; auto; try discriminate.
      intros [|p] c; discriminate.
    + destruct (bindO_cases (cv_fold x zr plike idx j slike i)
                  (fun s1 => cv_loop x zr plike idx j s1 rest) w)
        as [(a & w1 & E1 & E2)|(e & w1 & E1 & E2)]; rewrite E1 in Ht;
        rewrite E2; simpl in Ht.
      * destruct (IH a w1) as (calls & Hc & Hok & Hn).
        exists (c0 :: calls). rewrite Hc, Ht, <- app_assoc.
        split; [reflexivity|].
        split; [intros H; simpl; f_equal; auto|].
        intros [|p] c Ec.
        -- simpl in Ec. injection Ec as <-.
           exists i, slike, w, z0. simpl. auto 10.
        -- simpl in Ec.
           destruct (Hn p c Ec) as (i' & sl & wp & z' & A1 & A2 & A3).
           exists i', sl, wp, z'. split; [exact A1|]. split; [|exact A3].
           cbn [firstn cv_loop]. rewrite (bind_ok _ _ _ _ _ E1). exact A2.
      * exists [c0]. split; [exact Ht|]. split; [discriminate|].
        intros [|[|p]] c Ec; simpl in Ec; try discriminate.
        injection Ec as <-. exists i, slike, w, z0. simpl. auto 10.
Qed.

End Frames.

(** ** The folds of cross_validated_update *)

Module FoldFacts.
Import Numpy.

Lemma select_seq_filter {A : Type} (g : nat -> bool) (d : A) (x : list A) :
  forall (a : nat) (xt : list A),
    select (map g (seq a (length x))) x = Some xt ->
    xt = map (fun p => nth (p - a) x d) (filter g (seq a (length x))).
Proof.
  induction x as [|h t IH]; intros a xt; simpl.
  - intros E. now injection E as <-.
  - destruct (select (map g (seq (S a) (length t))) t) as [r|] eqn:E;
      [|discriminate].
    intros E'. injection E' as <-.
    specialize (IH (S a) r E).
    assert (Hr : r = map (fun p => nth (p - a) (h :: t) d)
                         (filter g (seq (S a) (length t)))).
    { rewrite IH. apply map_ext_in. intros p Hp.
      apply filter_In in Hp. destruct Hp as [Hp _]. apply in_seq in Hp.
      replace (p - a)%nat with (S (p - S a)) by lia. reflexivity. }
    destruct (g a); simpl; [|exact Hr].
    rewrite Nat.sub_diag. simpl. now f_equal.
Qed.

Lemma select_length {A : Type} (m : list bool) :
  forall (a r : list A), select m a = Some r -> length m = length a.
Proof.
  induction m as [|b m IH]; intros [|h t] r; simpl; try discriminate.
  - reflexivity.
  - destruct (select m t) as [r'|] eqn:E; [|discriminate].
    intros _. f_equal. exact (IH t r' E).
Qed.

Lemma firstn_seq_below (p : nat) :
  forall a n : nat, (p <= n)%nat -> firstn p (seq a n) = seq a p.
Proof.
  induction p as [|p IH]; intros a [|n] Hp; simpl; try reflexivity; try lia.
  f_equal. apply IH. lia.
Qed.

(** The training mask of a fold, position by position. *)
Lemma train_mask_eq (idx : list nat) (n : nat) (j : Z) (i : nat) :
  logical_not (test_mask idx n j i)
  = map (fun p => negb (existsb (Nat.eqb p) (test_block idx n j i))) (seq 0 n).
Proof.
  unfold logical_not, test_mask, set_at, zeros_bool.
  rewrite map_map, repeat_length. apply map_ext.
  intros p. now rewrite nth_repeat.
Qed.

Lemma mem_block (p : nat) (b : list nat) :
  existsb (Nat.eqb p) b = true <-> In p b.
Proof.
  rewrite existsb_exists. split.
  - intros (q & Hq & E). apply Nat.eqb_eq in E. now subst.
  - intros H. exists p. split; [exact H|apply Nat.eqb_refl].
Qed.

End FoldFacts.

Section CrossValidation.
Context `{B : BGMM_base} `{P : PriorDensity}.
Import FoldFacts.

Lemma train_positions_spec (idx : list nat) (n : nat) (j : Z) (i p : nat) :
  In p (train_positions idx n j i)
  <-> (p < n)%nat /\ ~ In p (test_block idx n j i).
Proof.
  unfold train_positions. rewrite filter_In, in_seq, negb_true_iff.
  rewrite <- mem_block.
  destruct (existsb (Nat.eqb p) (test_block idx n j i)); intuition (try lia; congruence).
Qed.

Lemma cross_validated_update_unfold (x : matrix) (zr : ref)
  (plike : vector) (nfolds : Z) (w : world) :
  cross_validated_update x zr plike nfolds w
  = let idx := fst (argsort_rand (rng w) (length x)) in
    let w1 := with_rng w (snd (argsort_rand (rng w) (length x))) in
    if nfolds =? 0 then Raised ZeroDivisionError w1
    else cv_loop x zr plike idx (Z.of_nat (length x) / nfolds)
                 (repeat NpFloat.zero (length x)) (seq 0 (Z.to_nat nfolds)) w1.
Proof.
  unfold cross_validated_update, bindO, get, modify, ret, raise.
  destruct (argsort_rand (rng w) (length x)) as [idx g]. simpl.
  destruct (nfolds =? 0); reflexivity.
Qed.

(** C4.  The calls of the base update made by [cross_validated_update] come
    one per fold, in fold order.  The call of fold [i] is made after the
    folds before it have returned; with [zi] the labels at that moment,
    - its [x] argument is the data at the positions outside the block held
      out in fold [i], in increasing order: no held-out position is among
      them, and every other position is;
    - its [z] argument is [zi] at the same positions;
    - [self.k] at the call is one more than the largest label left by the
      loop of [reduce] on these training labels. *)
Theorem cv_training_excludes_held_out (x : matrix) (zr : ref)
  (plike : vector) (nfolds : Z) (w : world) :
  let n := length x in
  let idx := fst (argsort_rand (rng w) n) in
  let j := Z.of_nat n / nfolds in
  let w1 := with_rng w (snd (argsort_rand (rng w) n)) in
  let o := cross_validated_update x zr plike nfolds w in
  exists calls,
    trace (state_of o) = trace w ++ calls
    /\ (is_ok o = true -> length calls = Z.to_nat nfolds)
    /\ forall i c, nth_error calls i = Some c ->
         call_x c = map (fun p => nth p x []) (train_positions idx n j i)
         /\ (forall p, In p (test_block idx n j i) ->
                       ~ In p (train_positions idx n j i))
         /\ (forall p, (p < n)%nat -> ~ In p (test_block idx n j i) ->
                       In p (train_positions idx n j i))
         /\ exists sl wi zi m,
              cv_loop x zr plike idx j (repeat NpFloat.zero n) (seq 0 i) w1
              = Ok sl wi
              /\ nth_error (heap wi) zr = Some zi
              /\ length zi = n
              /\ call_z c
                 = map (fun p => nth p zi 0) (train_positions idx n j i)
              /\ Numpy.amax (reduce_loop (call_z c)) = Some m
              /\ call_k c = m + 1.
Proof.
  intros n idx j w1 o. unfold o. rewrite cross_validated_update_unfold.
  fold n. fold idx. fold j. fold w1. cbv zeta.
  destruct (nfolds =? 0) eqn:E0.
  - exists []. simpl. rewrite app_nil_r.
    split; [reflexivity|]. split; [discriminate|].
    intros [|i] c Ec; discriminate.
  - destruct (cv_loop_calls x zr plike idx j (seq 0 (Z.to_nat nfolds))
                (repeat NpFloat.zero n) w1)
      as (calls & Ht & Hok & Hn).
    exists calls. fold n in Ht, Hok, Hn.
    split; [exact Ht|]. split; [now rewrite length_seq in Hok|].
    intros i c Ec.
    destruct (Hn i c Ec) as (i' & sl & wi & zi & Ei & Erun & Hsel & Hzi & Hz & Hm).
    assert (Hlt : (i < Z.to_nat nfolds)%nat).
    { assert (Hlt : (i < length (seq 0 (Z.to_nat nfolds)))%nat)
        by (apply nth_error_Some; congruence).
      now rewrite length_seq in Hlt. }
    assert (i' = i).
    { apply nth_error_nth with (d := 0%nat) in Ei.
      rewrite seq_nth in Ei by exact Hlt. simpl in Ei. lia. }
    subst i'. rewrite train_mask_eq in Hsel, Hz.
    rewrite firstn_seq_below in Erun by lia.
    assert (Hlen : length zi = n).
    { apply select_length in Hz. now rewrite length_map, length_seq in Hz. }
    apply (select_seq_filter _ []) in Hsel.
    assert (Hz' : Numpy.select
                    (map (fun p => negb (existsb (Nat.eqb p)
                                           (test_block idx n j i)))
                         (seq 0 (length zi))) zi
                  = Some (call_z c)) by (rewrite Hlen; exact Hz).
    apply (select_seq_filter _ 0) in Hz'. rewrite Hlen in Hz'.
    split; [|split; [|split]].
    + rewrite Hsel. unfold train_positions. apply map_ext.
      intros p. now rewrite Nat.sub_0_r.
    + intros p Hp Hin. apply train_positions_spec in Hin. tauto.
    + intros p Hp Hout. apply train_positions_spec. tauto.
    + exists sl, wi, zi, (call_k c - 1).
      split; [exact Erun|]. split; [exact Hzi|]. split; [exact Hlen|].
      split; [|split; [exact Hm|lia]].
      rewrite Hz'. unfold train_positions. apply map_ext.
      intros p. now rewrite Nat.sub_0_r.
Qed.

End CrossValidation.

(** The run on ten points in three folds makes three calls of the base
    update, each on seven points, with the labels of these points and the
    cluster count that [reduce] found on them. *)
Example cv_ten_points_refit_calls :
  let o := cross_validated_update x10 0%nat plike10 3 w10 in
  map (fun c => (length (call_x c), length (call_z c)))
      (trace (state_of o))
  = [(7, 7); (7, 7); (7, 7)]%nat
  /\ Forall (fun c => Numpy.amax (reduce_loop (call_z c)) = Some (call_k c - 1))
            (trace (state_of o)).
Proof.
  vm_compute. split; [reflexivity|]. repeat constructor.
Qed.

Module BlockFacts.
Import Numpy.

Lemma firstn_plus {A : Type} (a b : nat) (l : list A) :
  firstn (a + b) l = firstn a l ++ firstn b (skipn a l).
Proof.
  revert l. induction a as [|a IH]; intros l; simpl; [reflexivity|].
  destruct l as [|h t]; simpl.
  - now rewrite firstn_nil.
  - now rewrite IH.
Qed.

(** With [j = n / nfolds], every block is the run of [j] entries of [idx]
    that starts at [i * j]. *)
Lemma test_block_eq (idx : list nat) (n : nat) (nfolds : Z) (i : nat) :
  0 < nfolds -> (i < Z.to_nat nfolds)%nat ->
  let j := Z.of_nat n / nfolds in
  test_block idx n j i = firstn (Z.to_nat j) (skipn (i * Z.to_nat j) idx).
Proof.
  intros Hf Hi j. unfold test_block, slice.
  assert (Hj : 0 <= j) by (apply Z.div_pos; lia).
  assert (Hjn : j * nfolds <= Z.of_nat n)
    by (unfold j; rewrite Z.mul_comm; apply Z.mul_div_le; lia).
  assert (Hhi : j * (Z.of_nat i + 1) <= Z.of_nat n) by nia.
  rewrite Z.min_r by exact Hhi.
  f_equal; [|f_equal]; nia.
Qed.

(** The blocks of all folds, put end to end, are the first
    [nfolds * (n / nfolds)] entries of the permutation. *)
Lemma blocks_cover_prefix (idx : list nat) (n : nat) (nfolds : Z) :
  0 < nfolds ->
  let j := Z.of_nat n / nfolds in
  forall m, (m <= Z.to_nat nfolds)%nat ->
    concat (map (test_block idx n j) (seq 0 m))
    = firstn (m * Z.to_nat j) idx.
Proof.
  intros Hf j m. subst j.
  induction m as [|m IH]; intros Hm; [reflexivity|].
  rewrite seq_S, map_app, concat_app, IH by lia.
  cbn [map concat Nat.add].
  rewrite app_nil_r, (test_block_eq idx n nfolds m Hf) by lia.
  cbv zeta.
  replace (S m * Z.to_nat (Z.of_nat n / nfolds))%nat
    with (m * Z.to_nat (Z.of_nat n / nfolds)
          + Z.to_nat (Z.of_nat n / nfolds))%nat by lia.
  symmetry. apply firstn_plus.
Qed.

(** When [nfolds] does not divide [n], the last entry of the permutation is
    held out in no fold. *)
Lemma remainder_never_held_out (idx : list nat) (n : nat) (nfolds : Z) :
  0 < nfolds -> length idx = n -> NoDup idx ->
  Z.of_nat n mod nfolds <> 0 ->
  forall i, (i < Z.to_nat nfolds)%nat ->
    ~ In (nth (n - 1) idx 0%nat) (test_block idx n (Z.of_nat n / nfolds) i).
Proof.
  intros Hf Hlen Hnd Hmod i Hi Hin.
  assert (Hall : In (nth (n - 1) idx 0%nat)
                    (firstn (Z.to_nat nfolds * Z.to_nat (Z.of_nat n / nfolds))
                            idx)).
  { rewrite <- (blocks_cover_prefix idx n nfolds Hf (Z.to_nat nfolds)) by lia.
    apply in_concat. exists (test_block idx n (Z.of_nat n / nfolds) i).
    split; [|exact Hin]. apply in_map, in_seq. lia. }
  set (j := Z.of_nat n / nfolds) in *.
  assert (Hj : 0 <= j) by (apply Z.div_pos; lia).
  assert (Hlt : (Z.to_nat nfolds * Z.to_nat j < n)%nat).
  { pose proof (Z.div_mod (Z.of_nat n) nfolds ltac:(lia)) as Hdm.
    pose proof (Z.mod_pos_bound (Z.of_nat n) nfolds Hf) as Hb.
    fold j in Hdm. nia. }
  destruct (In_nth _ _ 0%nat Hall) as (q & Hq & Eq).
  rewrite length_firstn in Hq.
  rewrite nth_firstn in Eq.
  replace (q <? Z.to_nat nfolds * Z.to_nat j)%nat with true in Eq
    by (symmetry; apply Nat.ltb_lt; lia).
  rewrite NoDup_nth in Hnd. apply Hnd in Eq; lia.
Qed.

End BlockFacts.

(** C3.  Ten points in three folds: [n_samples/k] is 3, the blocks are
    [idx[0:3]], [idx[3:6]] and [idx[6:9]], and the point [idx[9]] (the point 0
    under the reversed permutation) is held out in no fold: the call returns,
    the point is never scored and its label is never redrawn. *)
Theorem cv_ten_points_three_folds :
  let o := cross_validated_update x10 0%nat plike10 3 w10 in
  map (test_block (rev (seq 0 10)) 10 (10 / 3)) (seq 0 3)
  = [[9; 8; 7]; [6; 5; 4]; [3; 2; 1]]%nat
  /\ is_ok o = true
  /\ (forall i, In i (seq 0 3) ->
                ~ In 0%nat (test_block (rev (seq 0 10)) 10 (10 / 3) i))
  /\ match o with
     | Ok slike _ => nth 0 slike NaN = NpFloat.zero
     | Raised _ _ => False
     end
  /\ option_map (fun z => nth 0 z (-1)) (nth_error (heap (state_of o)) 0)
     = Some 0.
Proof.
  vm_compute. repeat split; try reflexivity.
  intros i [<-|[<-|[<-|[]]]]; intuition discriminate.
Qed.

(** With the ceiling of 10/3 as block length, the three blocks would cover the
    ten points, the last one being shorter. *)
Example cv_blocks_with_ceiling :
  map (test_block (rev (seq 0 10)) 10 4) (seq 0 3)
  = [[9; 8; 7; 6]; [5; 4; 3; 2]; [1; 0]]%nat.
Proof. reflexivity. Qed.

(** With a single fold every point is held out, the training slice is empty
    and [reduce] raises on [z.max()] before anything is scored. *)
Example cv_single_fold_raises :
  exists w', cross_validated_update x10 0%nat plike10 1 w10
             = Raised ValueError w'
             /\ trace w' = [].
Proof. eexists. split; vm_compute; reflexivity. Qed.

(** ** reduce inside the folds works on a copy *)

Section ReduceOnCopy.
Context `{B : BGMM_base} `{P : PriorDensity}.

(** C9.  In a fold of [cross_validated_update], [reduce] is applied to the
    array built by [z[train]]: (a) whatever the statement does, the array [z]
    of the caller is as before; (b) when it returns, [self.k] comes from the
    compacted copy, while the call of the base update that follows receives
    [z[train]] taken again from the untouched [z]; (c) these labels can exceed
    [self.k - 1], as in the run on ten points in three folds. *)
Theorem reduce_in_fold_works_on_copy (train : list bool) (x : matrix)
  (zr : ref) (w : world) (z0 : list Z) :
  nth_error (heap w) zr = Some z0 ->
  nth_error (heap (state_of (reduce_on_slice train zr w))) zr = Some z0
  /\ (forall w1, reduce_on_slice train zr w = Ok tt w1 ->
       exists zt,
         Numpy.select train z0 = Some zt
         /\ Numpy.amax (reduce_loop zt) = Some (k (self w1) - 1)
         /\ forall c,
              trace (state_of (update_on_slice train x zr w1)) = trace w1 ++ [c] ->
              call_z c = zt /\ call_k c = k (self w1))
  /\ (exists c l,
        In c (trace (state_of
                (@cross_validated_update demo_base demo_density
                   x10 0%nat plike10 3 w10)))
        /\ In l (call_z c) /\ call_k c - 1 < l).
Proof.
  intros E0.
  assert (Hzr : (zr < length (heap w))%nat) by (apply nth_error_Some; congruence).
  pose proof (reduce_on_slice_effect train zr w) as [_ Hframe].
  split; [rewrite Hframe by exact Hzr; exact E0|].
  split.
  - intros w1 E1.
    destruct (reduce_on_slice_ok train zr w w1 z0 E0 E1) as (zt & Hs & Hm).
    exists zt. split; [exact Hs|]. split; [exact Hm|].
    intros c Hc.
    specialize (Hframe zr Hzr). rewrite E1 in Hframe. simpl in Hframe.
    destruct (update_on_slice_effect train x zr w1)
      as [_ [[Ht _]|(xt & z1 & zt' & _ & Hz1 & Hs' & Ht)]].
    + rewrite Ht in Hc. apply (f_equal (@length _)) in Hc.
      rewrite length_app in Hc. simpl in Hc. lia.
    + rewrite Ht in Hc. apply app_inv_head in Hc. injection Hc as <-.
      simpl. split; [|reflexivity]. congruence.
  - exists (BaseCall 5 (map (fun i => [NpFloat.of_nat i]) [0; 4; 5; 6; 7; 8; 9]%nat)
                     [0; 4; 5; 0; 2; 3; 4]), 5.
    split; [|split]; [|simpl; tauto|simpl; lia].
    vm_compute. right. right. left. reflexivity.
Qed.

End ReduceOnCopy.

(** First fold of the run on ten points: the array of the caller still holds
    0, ..., 9 after [self.reduce(z[train])]. *)
Lemma reduce_in_fold_works_on_copy_witness :
  nth_error (heap w10) 0 = Some (map Z.of_nat (seq 0 10))
  /\ nth_error
       (heap (state_of
          (reduce_on_slice
             (Numpy.logical_not (test_mask (rev (seq 0 10)) 10 3 0)) 0%nat w10)))
       0
     = Some (map Z.of_nat (seq 0 10)).
Proof.
  assert (H1 : nth_error (heap w10) 0 = Some (map Z.of_nat (seq 0 10)))
    by reflexivity.
  split; [exact H1|].
  destruct (@reduce_in_fold_works_on_copy demo_base
              (Numpy.logical_not (test_mask (rev (seq 0 10)) 10 3 0))
              x10 0%nat w10 _ H1) as (Ha & _).
  exact Ha.
Defined.

(** ** update_weights *)

Module WeightFacts.

Lemma fold_add_fin (qs : list Q) (acc : Q) :
  fold_left NpFloat.add (map Fin qs) (Fin acc) = Fin (fold_left Qplus qs acc).
Proof.
  revert acc. induction qs as [|q qs IH]; intros acc; simpl; [reflexivity|].
  apply IH.
Qed.

Lemma fold_left_Qsum (qs : list Q) (acc : Q) :
  (fold_left Qplus qs acc == acc + Qsum qs)%Q.
Proof.
  revert acc. induction qs as [|q qs IH]; intros acc; simpl.
  - ring.
  - rewrite IH. ring.
Qed.

Lemma Qsum_pos (qs : list Q) :
  qs <> [] -> Forall (fun q => 0 < q)%Q qs -> (0 < Qsum qs)%Q.
Proof.
  intros Hne H. induction H as [|q qs Hq Hqs IH]; [congruence|].
  simpl. destruct qs as [|q' qs'].
  - simpl. rewrite Qplus_0_r. exact Hq.
  - assert (0 < Qsum (q' :: qs'))%Q by (apply IH; congruence).
    apply (Qlt_trans _ (q + 0)%Q); [now rewrite Qplus_0_r|].
    apply Qplus_lt_r. assumption.
Qed.

Lemma Qsum_scale (qs : list Q) (t : Q) :
  ~ (t == 0)%Q -> (Qsum (map (fun v => v / t) qs) == Qsum qs / t)%Q.
Proof.
  intros Ht. induction qs as [|q qs IH]; simpl.
  - field. exact Ht.
  - rewrite IH. field. exact Ht.
Qed.

Lemma broadcast_add_scalar (l : vector) (y : npfloat) :
  l <> [] -> broadcast_add l [y] = Some (map (fun v => NpFloat.add v y) l).
Proof.
  intros Hne. unfold broadcast_add.
  destruct (Nat.eqb (length l) (length [y])) eqn:E.
  - apply Nat.eqb_eq in E. destruct l as [|v [|v' l]]; simpl in E; try lia.
    reflexivity.
  - destruct l as [|v l]; [congruence|]. destruct l; reflexivity.
Qed.

Lemma is_zero_false (q : Q) : ~ (q == 0)%Q -> NpFloat.is_zero q = false.
Proof.
  intros H. unfold NpFloat.is_zero.
  destruct (Qeq_bool q 0) eqn:E; [|reflexivity].
  apply Qeq_bool_eq in E. contradiction.
Qed.

End WeightFacts.

Module IntWeightFacts.

Lemma fold_left_Zadd (l : list Z) (acc : Z) :
  fold_left Z.add l acc = acc + fold_left Z.add l 0.
Proof.
  revert acc. induction l as [|h t IH]; intros acc; simpl; [lia|].
  rewrite (IH (acc + h)), (IH h). lia.
Qed.

(** In a list of two or more integers that are all at least 1, every entry
    is below the sum. *)
Lemma entry_below_sum (l : list Z) :
  Forall (fun v => 1 <= v) l ->
  forall v, In v l -> v + Z.of_nat (length l) - 1 <= fold_left Z.add l 0.
Proof.
  induction 1 as [|h t Hh Ht IH]; intros v Hin; [contradiction|].
  cbn [fold_left length]. rewrite fold_left_Zadd, Nat2Z.inj_succ.
  assert (Hlen : Z.of_nat (length t) <= fold_left Z.add t 0).
  { clear - Ht. induction Ht as [|h' t' Hh' Ht' IH']; cbn [fold_left length];
      [lia|].
    rewrite fold_left_Zadd, Nat2Z.inj_succ. lia. }
  destruct Hin as [<-|Hin]; [lia|].
  specialize (IH v Hin). lia.
Qed.

Lemma broadcast_add_int_scalar (l : list Z) (y : Z) :
  l <> [] -> broadcast_add_int l [y] = Some (map (fun v => v + y) l).
Proof.
  intros Hne. unfold broadcast_add_int.
  destruct (Nat.eqb (length l) (length [y])) eqn:E.
  - apply Nat.eqb_eq in E. destruct l as [|v [|v' l]]; simpl in E; try lia.
    reflexivity.
  - destruct l as [|v l]; [congruence|]. destruct l; reflexivity.
Qed.

End IntWeightFacts.

Module LastColumn.

Lemma combine_snoc {A C : Type} (a : list A) (b : list C) (x : A) (y : C) :
  length a = length b ->
  combine (a ++ [x]) (b ++ [y]) = combine a b ++ [(x, y)].
Proof.
  revert b. induction a as [|h t IH]; intros [|h' t'] Hl; simpl in Hl;
    try discriminate; [reflexivity|].
  simpl. rewrite IH by lia. reflexivity.
Qed.

End LastColumn.

Section UpdateWeights.
Context `{B : BGMM_base} `{P : PriorDensity}.
Import WeightFacts IntWeightFacts LastColumn.

(** The base class counts the points of each of the [k] clusters. *)
Hypothesis pop_length : forall s z, length (pop s z) = Z.to_nat (k s).
Hypothesis pop_nonneg : forall s z, Forall (fun c => 0 <= c) (pop s z).

(** What [update_weights] computes when the prior concentration is the
    one-entry list [[a]] with a float [a > 0]. *)
Lemma update_weights_run (s : IMM) (z : list Z) (a : Q) :
  prior_weights s = Some [PyF (Fin a)] ->
  (0 < a)%Q ->
  let vs := map (fun c => c + a)%Q (slot_counts s z) in
  (0 < Qsum vs)%Q
  /\ exists total,
       (total == Qsum vs)%Q
       /\ update_weights z s
          = Ok tt (set_weights s (map (fun v => Fin (v / total)) vs)).
Proof.
  intros Hpw Ha vs.
  assert (Hvs : Forall (fun q => 0 < q)%Q vs).
  { unfold vs, slot_counts. rewrite map_map. apply Forall_map.
    apply Forall_app. split.
    - eapply Forall_impl; [|apply pop_nonneg]. cbv beta. intros c Hc.
      apply (Qlt_le_trans _ (0 + a)%Q); [now rewrite Qplus_0_l|].
      apply Qplus_le_l. change 0%Q with (inject_Z 0).
      rewrite <- Zle_Qle. exact Hc.
    - constructor; [|constructor]. simpl. now rewrite Qplus_0_l. }
  assert (Hne : vs <> []).
  { unfold vs, slot_counts. destruct (pop s z); discriminate. }
  pose proof (Qsum_pos vs Hne Hvs) as Hpos.
  split; [exact Hpos|].
  exists (fold_left Qplus vs 0%Q).
  split; [rewrite fold_left_Qsum; ring|].
  assert (Hnz : ~ (fold_left Qplus vs 0 == 0)%Q).
  { rewrite fold_left_Qsum, Qplus_0_l. intros E. rewrite E in Hpos.
    now apply Qlt_irrefl in Hpos. }
  unfold update_weights, bindO, get. rewrite Hpw.
  cbn [expect ret all_ints fold_right map as_float].
  assert (Hpop1 : map NpFloat.of_Z (pop s z ++ [0])
                  = map Fin (slot_counts s z)).
  { unfold slot_counts. rewrite map_map. reflexivity. }
  rewrite Hpop1.
  rewrite broadcast_add_scalar
    by (unfold slot_counts; destruct (pop s z); discriminate).
  rewrite map_map. cbn [NpFloat.add].
  replace (map (fun x => Fin (x + a)%Q) (slot_counts s z))
    with (map Fin vs) by (unfold vs; now rewrite map_map).
  simpl. unfold modify, Mat.vsum, NpFloat.zero. rewrite fold_add_fin.
  f_equal. unfold set_weights. simpl. f_equal.
  rewrite map_map. apply map_ext. intros v. simpl.
  now rewrite (is_zero_false _ Hnz).
Qed.

Lemma Forall2_map_left {A C : Type} (R : C -> A -> Prop) (f : A -> C)
  (l : list A) :
  (forall v, R (f v) v) -> Forall2 R (map f l) l.
Proof. intros H. induction l; simpl; constructor; auto. Qed.

(** The float path.  With the float concentration [[a]], [a > 0], as prior
    weight, [update_weights] leaves [k + 1] entries that, as exact rationals,
    sum to 1: the count of the slot plus [a], over the sum of these numbers.
    Rounding is outside this reading. *)
Lemma update_weights_float_path (s : IMM) (z : list Z) (a : Q) :
  0 <= k s ->
  prior_weights s = Some [PyF (Fin a)] ->
  (0 < a)%Q ->
  let vs := map (fun c => c + a)%Q (slot_counts s z) in
  exists s' ws,
    update_weights z s = Ok tt s'
    /\ weights s' = map Fin ws
    /\ Z.of_nat (length ws) = k s + 1
    /\ (Qsum ws == 1)%Q
    /\ Forall2 (fun w v => w == v / Qsum vs)%Q ws vs.
Proof.
  intros Hk Hpw Ha vs.
  destruct (update_weights_run s z a Hpw Ha) as (Hpos & total & Ht & Hrun).
  fold vs in Hpos, Ht, Hrun.
  assert (Hnz : ~ (total == 0)%Q).
  { intros E. rewrite Ht in E. rewrite E in Hpos. now apply Qlt_irrefl in Hpos. }
  exists (set_weights s (map (fun v => Fin (v / total)) vs)),
         (map (fun v => v / total)%Q vs).
  split; [exact Hrun|]. split; [simpl; now rewrite map_map|].
  split; [|split].
  - unfold vs, slot_counts. rewrite !length_map, length_app, pop_length.
    simpl. lia.
  - rewrite Qsum_scale by exact Hnz. rewrite <- Ht. field. exact Hnz.
  - apply Forall2_map_left. intros v. rewrite Ht. reflexivity.
Qed.

(** The int path: what [update_weights] computes when the prior
    concentration is the one-entry list [[a]] with an int [a]. *)
Lemma update_weights_int_run (s : IMM) (z : list Z) (a : Z) :
  prior_weights s = Some [PyI a] ->
  let w := map (fun c => c + a) (pop s z ++ [0]) in
  update_weights z s
  = Ok tt (set_weights s
             (map (fun v => NpFloat.of_Z (v / fold_left Z.add w 0)) w)).
Proof.
  intros Hpw w. unfold update_weights, bindO, get. rewrite Hpw.
  cbn [expect ret all_ints fold_right].
  rewrite broadcast_add_int_scalar by (destruct (pop s z); discriminate).
  reflexivity.
Qed.

(** C7.  The claim fails for an int concentration.  With [alpha] a Python
    int, [a >= 1], and one or more clusters, [self.weights] is an int array
    and [/=] divides it in integers: every entry is below the total, so the
    [k + 1] weights are all 0 and sum to 0, not to 1. *)
Theorem update_weights_int_alpha_floors (s : IMM) (z : list Z) (a : Z) :
  prior_weights s = Some [PyI a] ->
  1 <= a ->
  1 <= k s ->
  exists s',
    update_weights z s = Ok tt s'
    /\ weights s' = repeat NpFloat.zero (S (Z.to_nat (k s)))
    /\ exists q, Mat.vsum (weights s') = Fin q /\ (q == 0)%Q.
Proof.
  intros Hpw Ha Hk.
  set (w := map (fun c => c + a) (pop s z ++ [0])).
  assert (Hlen : length w = S (Z.to_nat (k s))).
  { unfold w. rewrite length_map, length_app, pop_length. simpl. lia. }
  assert (Hw : Forall (fun v => 1 <= v) w).
  { unfold w. apply Forall_map. apply Forall_app. split.
    - eapply Forall_impl; [|apply pop_nonneg]. cbv beta. intros c Hc. lia.
    - constructor; [lia|constructor]. }
  assert (Hzero : map (fun v => NpFloat.of_Z (v / fold_left Z.add w 0)) w
                  = repeat NpFloat.zero (length w)).
  { rewrite <- (map_const NpFloat.zero w) at 1 .
    apply map_ext_in. intros v Hv.
    pose proof (entry_below_sum w Hw v Hv) as Hb.
    rewrite Forall_forall in Hw. specialize (Hw v Hv).
    rewrite Z.div_small by lia. reflexivity. }
  exists (set_weights s (repeat NpFloat.zero (S (Z.to_nat (k s))))).
  split.
  - rewrite (update_weights_int_run s z a Hpw). fold w.
    now rewrite Hzero, Hlen.
  - split; [reflexivity|]. cbn [weights set_weights].
    exists (fold_left Qplus (repeat 0%Q (S (Z.to_nat (k s)))) 0%Q).
    split.
    + unfold Mat.vsum, NpFloat.zero. rewrite <- (map_repeat 0%Q _ Fin).
      apply fold_add_fin.
    + rewrite fold_left_Qsum, Qplus_0_l.
      generalize (S (Z.to_nat (k s))). intros n.
      induction n as [|n IH]; simpl; [reflexivity|].
      rewrite IH. reflexivity.
Qed.

(** The new-cluster entry of every row of the matrix that [likelihood]
    returns is the prior likelihood of the point times the last weight. *)
Lemma likelihood_last_entry (x : matrix) (plike : vector) (w : world)
  (ws0 : vector) (wl : npfloat) :
  weights (self w) = ws0 ++ [wl] ->
  length ws0 = Z.to_nat (k (self w)) ->
  length plike = length x ->
  (0 < k (self w) ->
   length (unweighted_likelihood (self w) x) = length x
   /\ Forall (fun row => length row = Z.to_nat (k (self w)))
             (unweighted_likelihood (self w) x)) ->
  exists like,
    likelihood x (Some plike) w = Ok like w
    /\ length like = length x
    /\ forall i, (i < length x)%nat ->
         last (nth i like []) NaN = NpFloat.mul (nth i plike NaN) wl.
Proof.
  intros Hws Hl0 Hpl Hul.
  unfold likelihood, bindO, get, expect, ret, raise. cbv zeta.
  rewrite Hpl, Nat.eqb_refl.
  destruct (0 <? k (self w)) eqn:Ek.
  - apply Z.ltb_lt in Ek. destruct (Hul Ek) as [Hlu Hrows].
    set (ul := unweighted_likelihood (self w) x) in *.
    set (m := map (fun p : list npfloat * npfloat => fst p ++ [snd p])
                  (combine ul plike)).
    assert (Hm : hstack_col ul plike = Some m).
    { unfold hstack_col. rewrite Hlu, Hpl, Nat.eqb_refl. reflexivity. }
    assert (Hml : length m = length x).
    { unfold m. rewrite length_map, length_combine. lia. }
    assert (Hmi : forall i, (i < length x)%nat ->
                    nth i m [] = nth i ul [] ++ [nth i plike NaN]).
    { intros i Hi. unfold m.
      rewrite (ReduceFacts.nth_map_lt _ _ i ([], NaN))
        by (rewrite length_combine; lia).
      rewrite combine_nth by lia. reflexivity. }
    assert (Hui : forall i, (i < length x)%nat ->
                    length (nth i ul []) = length ws0).
    { intros i Hi. rewrite Forall_forall in Hrows.
      rewrite (Hrows (nth i ul [])) by (apply nth_In; lia). now rewrite Hl0. }
    set (scaled := map (fun row => map (fun p => NpFloat.mul (fst p) (snd p))
                                       (combine row (ws0 ++ [wl]))) m).
    assert (Hb : broadcast_mul_rows m (weights (self w)) = Some scaled).
    { rewrite Hws. unfold broadcast_mul_rows.
      assert (Hf : forallb (fun row => Nat.eqb (length row)
                                               (length (ws0 ++ [wl]))) m = true).
      { apply forallb_forall. intros row Hin. apply Nat.eqb_eq.
        destruct (In_nth _ _ [] Hin) as (i & Hi & <-).
        rewrite Hmi by lia. rewrite !length_app, Hui by lia. reflexivity. }
      destruct ws0 as [|a0 [|b0 t0]]; [simpl in Hl0; lia| |];
        cbn [app] in Hf |- *; now rewrite Hf. }
    rewrite Hm. cbv beta iota. rewrite Hb.
    exists scaled. split; [reflexivity|].
    split; [unfold scaled; now rewrite length_map|].
    intros i Hi. unfold scaled.
    rewrite (ReduceFacts.nth_map_lt _ _ i []) by lia.
    rewrite Hmi by exact Hi.
    rewrite combine_snoc by now apply Hui.
    now rewrite map_last, last_last.
  - apply Z.ltb_ge in Ek.
    assert (Hnil : ws0 = [])
      by (destruct ws0; [reflexivity|simpl in Hl0; lia]).
    rewrite Hws, Hnil. cbn [app broadcast_mul_rows].
    eexists. split; [reflexivity|].
    split; [now rewrite !length_map|].
    intros i Hi. rewrite map_map.
    rewrite (ReduceFacts.nth_map_lt _ _ i NaN) by lia. reflexivity.
Qed.

(** C10, as the code has it.  With a float concentration [a > 0] the last
    entry of the weight vector left by [update_weights] is [a] over the
    normalising total, positive as an exact quotient.  What the draw sees of
    it is the new-cluster entry of the likelihood row, the prior likelihood
    of the point times this weight: for a finite prior likelihood it is zero
    exactly when the prior likelihood is. *)
Theorem update_weights_new_cluster_positive (s : IMM) (z : list Z) (a : Q) :
  prior_weights s = Some [PyF (Fin a)] ->
  (0 < a)%Q ->
  let total := Qsum (map (fun c => c + a)%Q (slot_counts s z)) in
  exists s' ws,
    update_weights z s = Ok tt s'
    /\ weights s' = map Fin ws
    /\ (0 < total)%Q
    /\ (last ws 0 == a / total)%Q
    /\ (0 < last ws 0)%Q
    /\ forall (w : world) (x : matrix) (plike : vector),
         self w = s' ->
         length plike = length x ->
         (0 < k s ->
          length (unweighted_likelihood s' x) = length x
          /\ Forall (fun row => length row = Z.to_nat (k s))
                    (unweighted_likelihood s' x)) ->
         exists like,
           likelihood x (Some plike) w = Ok like w
           /\ length like = length x
           /\ forall i, (i < length x)%nat ->
                last (nth i like []) NaN
                = NpFloat.mul (nth i plike NaN) (Fin (last ws 0%Q))
                /\ forall p, nth i plike NaN = Fin p ->
                     exists q, last (nth i like []) NaN = Fin q
                               /\ ((q == 0)%Q <-> (p == 0)%Q).
Proof.
  intros Hpw Ha total.
  destruct (update_weights_run s z a Hpw Ha) as (Hpos & t & Ht & Hrun).
  fold total in Hpos, Ht.
  assert (Hnz : ~ (t == 0)%Q).
  { intros E. rewrite Ht in E. rewrite E in Hpos. now apply Qlt_irrefl in Hpos. }
  set (ws0 := map (fun v => v / t)%Q
                  (map (fun c => c + a)%Q (map inject_Z (pop s z)))).
  set (wl := ((inject_Z 0 + a) / t)%Q).
  assert (Hsplit : map (fun v => v / t)%Q
                       (map (fun c => c + a)%Q (slot_counts s z))
                   = ws0 ++ [wl]).
  { unfold slot_counts, ws0, wl. rewrite !map_app. reflexivity. }
  assert (Hwl : (0 < wl)%Q).
  { unfold wl. rewrite Ht. unfold Qdiv. apply Qmult_lt_0_compat.
    - unfold inject_Z. now rewrite Qplus_0_l.
    - now apply Qinv_lt_0_compat. }
  exists (set_weights s (map (fun v => Fin (v / t))
                             (map (fun c => c + a)%Q (slot_counts s z)))),
         (ws0 ++ [wl]).
  split; [exact Hrun|].
  split; [cbn [weights set_weights]; rewrite <- Hsplit; symmetry; apply map_map|].
  split; [exact Hpos|].
  rewrite last_last.
  split.
  { unfold wl. rewrite Ht. unfold inject_Z. field.
    intros E. rewrite E in Hpos. now apply Qlt_irrefl in Hpos. }
  split; [exact Hwl|].
  intros w x plike Hself Hpl Hul.
  assert (Hweights : weights (self w) = map Fin ws0 ++ [Fin wl]).
  { rewrite Hself. cbn [weights set_weights].
    rewrite <- (map_map (fun v => (v / t)%Q) Fin), Hsplit, map_app.
    reflexivity. }
  assert (Hk' : k (self w) = k s) by (rewrite Hself; reflexivity).
  destruct (likelihood_last_entry x plike w (map Fin ws0) (Fin wl) Hweights)
    as (like & El & Hll & Hlast).
  - unfold ws0. rewrite !length_map, pop_length. now rewrite Hk'.
  - exact Hpl.
  - rewrite Hk', Hself. exact Hul.
  - exists like. split; [exact El|]. split; [exact Hll|].
    intros i Hi. split; [now apply Hlast|].
    intros p Hp. rewrite (Hlast i Hi), Hp. cbn [NpFloat.mul].
    exists (p * wl)%Q. split; [reflexivity|].
    split.
    + intros E. apply Qmult_integral in E. destruct E as [E|E]; [exact E|].
      rewrite E in Hwl. now apply Qlt_irrefl in Hwl.
    + intros E. rewrite E. ring.
Qed.

End UpdateWeights.

Lemma demo_pop_length (s : IMM) (z : list Z) :
  length (@pop demo_base s z) = Z.to_nat (k s).
Proof.
  simpl. unfold pop_counts, Numpy.arange.
  now rewrite !length_map, length_seq.
Qed.

Lemma demo_pop_nonneg (s : IMM) (z : list Z) :
  Forall (fun c => 0 <= c) (@pop demo_base s z).
Proof.
  simpl. unfold pop_counts. apply Forall_map, Forall_forall.
  intros c _. lia.
Qed.

(** [IMM(alpha=1, dim=1)] with two clusters and the labels 0, 0, 1, 5: the
    int array 3, 2, 1 divided by 6 is 0, 0, 0. *)
Lemma update_weights_int_alpha_floors_witness :
  prior_weights imm_int_alpha = Some [PyI 1]
  /\ 1 <= 1
  /\ 1 <= k imm_int_alpha
  /\ exists s',
       update_weights [0; 0; 1; 5] imm_int_alpha = Ok tt s'
       /\ weights s' = [NpFloat.zero; NpFloat.zero; NpFloat.zero].
Proof.
  assert (H1 : prior_weights imm_int_alpha = Some [PyI 1]) by reflexivity.
  assert (H2 : 1 <= 1) by lia.
  assert (H3 : 1 <= k imm_int_alpha) by (vm_compute; discriminate).
  split; [exact H1|]. split; [exact H2|]. split; [exact H3|].
  destruct (@update_weights_int_alpha_floors demo_base demo_pop_length
              demo_pop_nonneg imm_int_alpha [0; 0; 1; 5] 1 H1 H2 H3)
    as (s' & E & Hw & _).
  exists s'. split; [exact E|exact Hw].
Defined.

(** Two clusters, the float concentration 1/2, two points with the prior
    likelihoods 1.0 and 2.0: the new-cluster entry of the second row is 2.0
    times the last weight. *)
Lemma update_weights_new_cluster_positive_witness :
  prior_weights imm_k2_priors = Some [PyF (Fin (1 # 2))]
  /\ (0 < 1 # 2)%Q
  /\ exists s' ws,
       update_weights [0; 0; 1; 5] imm_k2_priors = Ok tt s'
       /\ weights s' = map Fin ws
       /\ (0 < last ws 0)%Q
       /\ exists like,
            likelihood x_two (Some [Fin 1; Fin 2]) (demo_world s' [])
            = Ok like (demo_world s' [])
            /\ last (nth 1 like []) NaN
               = NpFloat.mul (Fin 2) (Fin (last ws 0%Q)).
Proof.
  assert (H2 : prior_weights imm_k2_priors = Some [PyF (Fin (1 # 2))])
    by reflexivity.
  assert (H3 : (0 < 1 # 2)%Q) by reflexivity.
  split; [exact H2|]. split; [exact H3|].
  destruct (@update_weights_new_cluster_positive demo_base demo_density
              demo_pop_length demo_pop_nonneg
              imm_k2_priors [0; 0; 1; 5] (1 # 2) H2 H3)
    as (s' & ws & E & Hw & _ & _ & Hp & Hlike).
  exists s', ws. split; [exact E|]. split; [exact Hw|]. split; [exact Hp|].
  destruct (Hlike (demo_world s' []) x_two [Fin 1; Fin 2] eq_refl eq_refl)
    as (like & El & _ & Hrow).
  - intros _. split; [reflexivity|].
    assert (Hk : k s' = k imm_k2_priors).
    { unfold update_weights, bindO, get, modify in E. simpl in E.
      injection E as <-. reflexivity. }
    simpl. rewrite Hk. repeat constructor.
  - exists like. split; [exact El|].
    exact (proj1 (Hrow 1%nat ltac:(simpl; lia))).
Defined.

(** C10, as the claim has it, fails.  After [update_weights] with the float
    concentration 1/2 the last weight is positive, and yet for a point whose
    prior likelihood is 0.0 the new-cluster entry of the likelihood row is
    0.0 while the entries of the two clusters are not: a draw in proportion
    to the row never spawns a cluster for this point. *)
Lemma new_cluster_entry_zero_at_zero_prior :
  update_weights [0; 0; 1; 5] imm_k2_priors = Ok tt imm_weighted
  /\ (exists wl, last (weights imm_weighted) NaN = Fin wl /\ (0 < wl)%Q)
  /\ exists r0 r1 r2 r3,
       likelihood x_two (Some [Fin 0; Fin 1]) (demo_world imm_weighted [])
       = Ok [[Fin r0; Fin r1; Fin r2]; [Fin r0; Fin r1; Fin r3]]
            (demo_world imm_weighted [])
       /\ (0 < r0)%Q /\ (0 < r1)%Q /\ (r2 == 0)%Q /\ (0 < r3)%Q.
Proof.
  split; [vm_compute; reflexivity|].
  split.
  - eexists. split; [vm_compute; reflexivity|reflexivity].
  - do 4 eexists. split; [vm_compute; reflexivity|].
    repeat split; reflexivity.
Qed.

(** ** set_priors and the re-dimensioning of the priors *)

Module PriorFacts.

Lemma Qmult_one (q : Q) : (q * 1)%Q = q.
Proof.
  destruct q as [n d]. unfold Qmult. simpl.
  now rewrite Z.mul_1_r, Pos.mul_1_r.
Qed.

(** Multiplying by 1.0 changes no value, finite or not. *)
Lemma mul_one (a : npfloat) : NpFloat.mul a NpFloat.one = a.
Proof.
  destruct a; simpl; try reflexivity.
  now rewrite Qmult_one.
Qed.

Lemma scalar_ones_repeat (a : npfloat) (n : nat) :
  Mat.scalar_ones a n = repeat a n.
Proof.
  unfold Mat.scalar_ones. induction n; simpl; [reflexivity|].
  now rewrite mul_one, IHn.
Qed.

Lemma repeat0_first {A : Type} (r : A) (n : nat) (kk : Z) :
  0 <= kk ->
  (n = 0%nat -> kk = 0) ->
  repeat0 (firstn 1 (repeat r n)) kk = Some (repeat r (Z.to_nat kk)).
Proof.
  intros Hk Hn. unfold repeat0.
  replace (kk <? 0) with false by (symmetry; apply Z.ltb_ge; exact Hk).
  destruct n as [|n]; simpl.
  - rewrite Hn by reflexivity. reflexivity.
  - now rewrite app_nil_r.
Qed.

Lemma times_ones_some (a : npfloat) (kk : Z) :
  0 <= kk -> times_ones a kk = Some (repeat a (Z.to_nat kk)).
Proof.
  intros Hk. unfold times_ones.
  replace (kk <? 0) with false by (symmetry; apply Z.ltb_ge; exact Hk).
  now rewrite scalar_ones_repeat.
Qed.

Lemma zeros_kd_some (kk : Z) (d : nat) :
  0 <= kk -> zeros_kd kk d = Some (Mat.zeros2 (Z.to_nat kk) d).
Proof.
  intros Hk. unfold zeros_kd.
  now replace (kk <? 0) with false by (symmetry; apply Z.ltb_ge; exact Hk).
Qed.

Lemma zeros_kdd_some (kk : Z) (d : nat) :
  0 <= kk -> zeros_kdd kk d = Some (repeat (Mat.zeros2 d d) (Z.to_nat kk)).
Proof.
  intros Hk. unfold zeros_kdd.
  now replace (kk <? 0) with false by (symmetry; apply Z.ltb_ge; exact Hk).
Qed.

(** Re-dimensioning arrays that hold [n] copies of the canonical rows gives
    [k] copies, provided there was a row to copy ([n > 0]) or none is asked
    for ([k = 0]). *)
Lemma redimension_replicates (c : canon_rows) (n : nat) (s : IMM) :
  replicated c n s ->
  0 <= k s ->
  (n = 0%nat -> k s = 0) ->
  replicated c (Z.to_nat (k s)) (state_of (redimension_priors s))
  /\ k (state_of (redimension_priors s)) = k s.
Proof.
  intros (H1 & H2 & H3 & H4 & H5) Hk Hn.
  split; [|apply redimension_keeps_k].
  unfold redimension_priors, bindO, get, modify, expect, ret, raise.
  cbn [k prior_means prior_dof prior_shrinkage _dets _inv_prior_scale dim
       set_prior_means set_prior_dof set_prior_shrinkage set_dets
       set_inv_prior_scale set_means set_precisions].
  rewrite H1, (repeat0_first _ n (k s) Hk Hn).
  cbn [k prior_means prior_dof prior_shrinkage _dets _inv_prior_scale dim
       set_prior_means set_prior_dof set_prior_shrinkage set_dets
       set_inv_prior_scale set_means set_precisions].
  rewrite H2.
  destruct n as [|n].
  - rewrite (Hn eq_refl). simpl. unfold replicated. simpl.
    rewrite H3, H4, H5. auto.
  - cbn [repeat hd_error].
    rewrite (times_ones_some _ _ Hk).
    cbn [k prior_means prior_dof prior_shrinkage _dets _inv_prior_scale dim
         set_prior_means set_prior_dof set_prior_shrinkage set_dets
         set_inv_prior_scale set_means set_precisions].
    rewrite H3. cbn [repeat hd_error]. rewrite (times_ones_some _ _ Hk).
    cbn [k prior_means prior_dof prior_shrinkage _dets _inv_prior_scale dim
         set_prior_means set_prior_dof set_prior_shrinkage set_dets
         set_inv_prior_scale set_means set_precisions].
    rewrite H4. cbn [repeat hd_error]. rewrite (times_ones_some _ _ Hk).
    cbn [k prior_means prior_dof prior_shrinkage _dets _inv_prior_scale dim
         set_prior_means set_prior_dof set_prior_shrinkage set_dets
         set_inv_prior_scale set_means set_precisions].
    rewrite H5, (repeat0_first _ (S n) (k s) Hk ltac:(discriminate)).
    cbn [k prior_means prior_dof prior_shrinkage _dets _inv_prior_scale dim
         set_prior_means set_prior_dof set_prior_shrinkage set_dets
         set_inv_prior_scale set_means set_precisions].
    rewrite (zeros_kd_some _ _ Hk), (zeros_kdd_some _ _ Hk).
    unfold replicated. simpl. auto.
Qed.

End PriorFacts.

Section SetPriors.
Context `{L : LinAlg}.

(** [set_priors] step by step: once the shape of the data is accepted nothing
    is checked any more, and the only exception left is the one of
    [numpy.linalg.inv]. *)
Lemma set_priors_run (s : IMM) (x : matrix) :
  Forall (fun row => length row = dim s) x ->
  let px := prior_scale_of (dim s) x in
  let s1 :=
    set_dets
      (set_prior_shrinkage
         (set_prior_dof
            (set_prior_scale
               (set_prior_weights
                  (set_prior_means s (Some [Mat.mean0 (dim s) x]))
                  (Some [alpha s]))
               (Some [px]))
            (Some [NpFloat.of_nat (dim s + 2)]))
         (Some [Fin (1 # 100)]))
      (Some [det px]) in
  set_priors x s
  = match inv px with
    | Some ipx => Ok tt (set_inv_prior_scale s1 (Some [ipx]))
    | None => Raised LinAlgError s1
    end.
Proof.
  intros Hx px s1.
  assert (Hb : forallb (fun row => Nat.eqb (length row) (dim s)) x = true).
  { apply forallb_forall. rewrite Forall_forall in Hx.
    intros row Hr. apply Nat.eqb_eq. auto. }
  unfold set_priors, bindO, get, modify, expect, ret, raise.
  rewrite Hb. cbn [dim alpha set_prior_means set_prior_weights set_prior_scale
                   set_prior_dof set_prior_shrinkage set_dets].
  fold (centered_covariance (dim s) x). fold (prior_scale_of (dim s) x).
  fold px. destruct (inv px); reflexivity.
Qed.

Lemma set_priors_canon (s s1 : IMM) (x : matrix) :
  set_priors x s = Ok tt s1 ->
  k s1 = k s
  /\ prior_weights s1 = Some [alpha s]
  /\ exists c, canon_of s1 = Some c.
Proof.
  unfold set_priors, bindO, get, modify, expect, ret, raise.
  destruct (forallb _ x); [|discriminate].
  match goal with |- context [inv ?m] => destruct (inv m) end; [|discriminate].
  intros E. injection E as <-.
  split; [reflexivity|]. split; [reflexivity|]. eexists. reflexivity.
Qed.

End SetPriors.

(** ** update keeps the priors replicated *)

Module EmptyPriors.

(** With no row left in the prior means and the prior dof, the
    re-dimensioning stops on [self.prior_dof[0]], the prior means having been
    re-assigned (to no row again). *)
Lemma redimension_empty (s : IMM) :
  prior_means s = Some [] ->
  prior_dof s = Some [] ->
  0 <= k s ->
  redimension_priors s = Raised IndexError (set_prior_means s (Some [])).
Proof.
  intros E1 E2 Hk.
  unfold redimension_priors, bindO, get, modify, expect, ret, raise.
  cbn [k prior_means prior_dof set_prior_means].
  rewrite E1. cbn [firstn]. unfold repeat0.
  replace (k s <? 0) with false by (symmetry; apply Z.ltb_ge; exact Hk).
  cbn [flat_map k prior_means prior_dof set_prior_means].
  rewrite E2. reflexivity.
Qed.

End EmptyPriors.

Section UpdateInvariant.
Context `{B : BGMM_base} `{L : LinAlg}.
Import PriorFacts EmptyPriors.

(** The base class update draws means, precisions and weights; it leaves the
    cluster count and the prior hyperparameters alone, whether it returns or
    raises. *)
Hypothesis base_update_frame : forall s g x z,
  let s' := fst (state_of (BGMM_update s g x z)) in
  k s' = k s
  /\ prior_means s' = prior_means s
  /\ prior_dof s' = prior_dof s
  /\ prior_shrinkage s' = prior_shrinkage s
  /\ _dets s' = _dets s
  /\ _inv_prior_scale s' = _inv_prior_scale s.

Lemma on_self_state {A : Type} (c : IMM -> outcome IMM A) (w : world) :
  self (state_of (on_self c w)) = state_of (c (self w)).
Proof. unfold on_self. destruct (c (self w)); reflexivity. Qed.

Lemma update_replicates (c : canon_rows) (n : nat) (w : world)
  (x : matrix) (z : list Z) :
  replicated c n (self w) ->
  0 <= k (self w) ->
  (n = 0%nat -> k (self w) = 0) ->
  replicated c (Z.to_nat (k (self w))) (self (state_of (update x z w)))
  /\ k (self (state_of (update x z w))) = k (self w).
Proof.
  intros Hrep Hk Hn.
  destruct (redimension_replicates c n (self w) Hrep Hk Hn) as [Hr Hkk].
  rewrite <- (on_self_state redimension_priors w) in Hr, Hkk.
  unfold update.
  destruct (bindO_cases (on_self redimension_priors)
              (fun _ =>
                 modify (fun w => with_trace w (trace w ++ [BaseCall (k (self w)) x z])) ;;;
                 (fun w => match BGMM_update (self w) (rng w) x z with
                           | Ok _ (s, g) => Ok tt (with_rng (with_self w s) g)
                           | Raised e (s, g) => Raised e (with_rng (with_self w s) g)
                           end)) w)
    as [(a & w1 & E1 & E2)|(e & w1 & E1 & E2)];
    rewrite E2; rewrite E1 in Hr, Hkk; simpl in Hr, Hkk.
  - unfold bindO, modify.
    cbn [self with_trace rng].
    pose proof (base_update_frame (self w1) (rng w1) x z) as Hf.
    destruct (BGMM_update (self w1) (rng w1) x z) as [u [s g]|e [s g]];
      simpl in Hf |- *;
      destruct Hf as (F0 & F1 & F2 & F3 & F4 & F5);
      destruct Hr as (R1 & R2 & R3 & R4 & R5);
      unfold replicated; rewrite F0, F1, F2, F3, F4, F5; auto 10.
  - simpl. auto.
Qed.

Lemma run_updates_replicates (c : canon_rows) (calls : list (matrix * list Z)) :
  forall w,
    replicated c (Z.to_nat (k (self w))) (self w) ->
    0 <= k (self w) ->
    replicated c (Z.to_nat (k (self w))) (self (run_updates calls w))
    /\ k (self (run_updates calls w)) = k (self w).
Proof.
  induction calls as [|[x z] rest IH]; intros w Hrep Hk; simpl; [auto|].
  destruct (update_replicates c _ w x z Hrep Hk ltac:(lia)) as [Hr Hkk].
  rewrite <- Hkk in Hr.
  destruct (IH _ Hr ltac:(lia)) as [Hr' Hk']. unfold run_updates in *.
  rewrite Hkk in Hr'. split; [exact Hr'|congruence].
Qed.

Lemma canon_replicated_once (s : IMM) (c : canon_rows) :
  canon_of s = Some c -> replicated c 1 s.
Proof.
  unfold canon_of, replicated.
  destruct (prior_means s) as [[|m [|? ?]]|]; try discriminate.
  destruct (prior_dof s) as [[|d [|? ?]]|]; try discriminate.
  destruct (prior_shrinkage s) as [[|sh [|? ?]]|]; try discriminate.
  destruct (_dets s) as [[|dt [|? ?]]|]; try discriminate.
  destruct (_inv_prior_scale s) as [[|ip [|? ?]]|]; try discriminate.
  intros E. injection E as <-. simpl. auto.
Qed.

(** The same when the cluster count changes between the calls, as long as it
    is at least 1 at every call. *)
Lemma update_keeps_priors_across_counts (c : canon_rows)
  (calls : list (Z * matrix * list Z)) :
  forall (w : world) (n : nat),
    replicated c n (self w) ->
    (1 <= n)%nat ->
    Forall (fun call => 1 <= fst (fst call)) calls ->
    exists n', (1 <= n')%nat
               /\ replicated c n' (self (run_updates_at calls w))
               /\ (calls <> [] ->
                   Z.of_nat n' = k (self (run_updates_at calls w))).
Proof.
  induction calls as [|[[kk x] z] rest IH]; intros w n Hrep Hn Hall; simpl.
  - exists n. split; [exact Hn|]. split; [exact Hrep|].
    intros H. now elim H.
  - inversion Hall as [|? ? Hkk Hrest]; subst. simpl in Hkk.
    destruct (update_replicates c n (with_self w (set_k (self w) kk)) x z)
      as [Hr Hk'].
    + destruct Hrep as (R1 & R2 & R3 & R4 & R5). unfold replicated. simpl. auto.
    + simpl. lia.
    + lia.
    + simpl in Hr, Hk'.
      destruct (IH _ (Z.to_nat kk) Hr ltac:(lia) Hrest) as (n' & Hn' & Hr' & Hq).
      unfold run_updates_at in *.
      destruct rest as [|c' rest'].
      * exists (Z.to_nat kk). simpl in *.
        split; [lia|]. split; [exact Hr|]. intros _. rewrite Hk'. lia.
      * exists n'. split; [exact Hn'|]. split; [exact Hr'|].
        intros _. apply Hq. discriminate.
Qed.

(** Once the arrays have no row, every later [update] leaves them so. *)
Lemma update_stays_empty (c : canon_rows) (w : world) (x : matrix)
  (z : list Z) :
  replicated c 0 (self w) ->
  0 <= k (self w) ->
  replicated c 0 (self (state_of (update x z w)))
  /\ k (self (state_of (update x z w))) = k (self w).
Proof.
  intros (R1 & R2 & R3 & R4 & R5) Hk.
  assert (E : update x z w
              = Raised IndexError
                  (with_self w (set_prior_means (self w) (Some [])))).
  { unfold update. apply bind_raised. unfold on_self.
    now rewrite (redimension_empty (self w) R1 R2 Hk). }
  rewrite E. simpl. unfold replicated. simpl in *. auto 10.
Qed.

Lemma updates_stay_empty (c : canon_rows)
  (calls : list (Z * matrix * list Z)) :
  forall w : world,
    replicated c 0 (self w) ->
    Forall (fun call => 0 <= fst (fst call)) calls ->
    replicated c 0 (self (run_updates_at calls w)).
Proof.
  induction calls as [|[[kk x] z] rest IH]; intros w Hrep Hall; [exact Hrep|].
  inversion Hall as [|? ? Hkk Hrest]; subst. simpl in Hkk.
  change (run_updates_at ((kk, x, z) :: rest) w)
    with (run_updates_at rest
            (state_of (update x z (with_self w (set_k (self w) kk))))).
  apply IH; [|exact Hrest].
  apply (update_stays_empty c (with_self w (set_k (self w) kk)) x z).
  - destruct Hrep as (R1 & R2 & R3 & R4 & R5). unfold replicated. simpl. auto.
  - simpl. exact Hkk.
Qed.

(** An update with the count 0 somewhere in the sequence leaves no row. *)
Lemma updates_empty_after_zero (c : canon_rows)
  (calls : list (Z * matrix * list Z)) :
  forall (w : world) (n : nat),
    replicated c n (self w) ->
    Forall (fun call => 0 <= fst (fst call)) calls ->
    Exists (fun call => fst (fst call) = 0) calls ->
    replicated c 0 (self (run_updates_at calls w)).
Proof.
  induction calls as [|[[kk x] z] rest IH]; intros w n Hrep Hall Hex;
    [inversion Hex|].
  inversion Hall as [|? ? Hkk Hrest]; subst. simpl in Hkk.
  change (run_updates_at ((kk, x, z) :: rest) w)
    with (run_updates_at rest
            (state_of (update x z (with_self w (set_k (self w) kk))))).
  set (w1 := with_self w (set_k (self w) kk)).
  assert (Hrep1 : replicated c n (self w1)).
  { destruct Hrep as (R1 & R2 & R3 & R4 & R5). unfold replicated. simpl. auto. }
  destruct (Z.eq_dec kk 0) as [->|Hnz].
  - apply updates_stay_empty; [|exact Hrest].
    destruct (update_replicates c n w1 x z Hrep1) as [Hr _];
      [simpl; lia|reflexivity|].
    exact Hr.
  - inversion Hex as [? ? H0|? ? Hlater]; subst; [simpl in H0; lia|].
    destruct n as [|n].
    + apply updates_stay_empty; [|exact Hrest].
      apply (update_stays_empty c w1 x z Hrep1). simpl. exact Hkk.
    + destruct (update_replicates c (S n) w1 x z Hrep1) as [Hr _];
        [simpl; lia|discriminate|].
      exact (IH _ _ Hr Hrest Hlater).
Qed.

(** The count after a sequence of calls is the one set before the last. *)
Lemma run_updates_at_count (calls : list (Z * matrix * list Z)) :
  forall w : world,
    calls <> [] ->
    k (self (run_updates_at calls w)) = fst (fst (last calls (0, [], []))).
Proof.
  induction calls as [|[[kk x] z] rest IH]; intros w Hne; [congruence|].
  change (run_updates_at ((kk, x, z) :: rest) w)
    with (run_updates_at rest
            (state_of (update x z (with_self w (set_k (self w) kk))))).
  destruct rest as [|c' rest'].
  - simpl.
    pose proof (keeps_on_self_field k _ redimension_keeps_k
                  (with_self w (set_k (self w) kk))) as Hk1.
    unfold update.
    destruct (on_self redimension_priors (with_self w (set_k (self w) kk)))
      as [u w1|e w1] eqn:E1; simpl in Hk1.
    + rewrite (bind_ok _ _ _ _ _ E1). unfold bindO, modify.
      cbn [self with_trace rng].
      pose proof (base_update_frame (self w1) (rng w1) x z) as Hf.
      destruct (BGMM_update (self w1) (rng w1) x z) as [u2 [s g]|e [s g]];
        simpl in Hf |- *; destruct Hf as (F0 & _); congruence.
    + rewrite (bind_raised _ _ _ _ _ E1). simpl. exact Hk1.
  - rewrite IH by discriminate. reflexivity.
Qed.

(** C5, as the code has it.  After [set_priors], let [update] be called any
    number of times, [self.k] being set to some count >= 0 before each call.
    After the last call [self.k] is the last count.  If every count was at
    least 1, each of the five arrays (prior means, prior dof, prior
    shrinkage, cached determinant, cached inverse prior scale) holds
    [self.k] rows, all equal to the row stored by [set_priors].  If some
    count was 0, the arrays hold no row at all, whatever [self.k] is. *)
Theorem update_keeps_priors_replicated (s0 s1 : IMM) (x0 : matrix)
  (w : world) (calls : list (Z * matrix * list Z)) :
  set_priors x0 s0 = Ok tt s1 ->
  self w = s1 ->
  calls <> [] ->
  Forall (fun call => 0 <= fst (fst call)) calls ->
  exists c,
    canon_of s1 = Some c
    /\ k (self (run_updates_at calls w)) = fst (fst (last calls (0, [], [])))
    /\ (Forall (fun call => 1 <= fst (fst call)) calls ->
        replicated c (Z.to_nat (k (self (run_updates_at calls w))))
                   (self (run_updates_at calls w)))
    /\ (Exists (fun call => fst (fst call) = 0) calls ->
        replicated c 0 (self (run_updates_at calls w))).
Proof.
  intros Hset Hw Hne Hall.
  destruct (set_priors_canon s0 s1 x0 Hset) as (_ & _ & c & Hc).
  exists c. split; [exact Hc|].
  pose proof (canon_replicated_once s1 c Hc) as H1. rewrite <- Hw in H1.
  split; [now apply run_updates_at_count|].
  split.
  - intros Hpos.
    destruct (update_keeps_priors_across_counts c calls w 1 H1 (le_n 1) Hpos)
      as (n' & Hn' & Hr & Hq).
    specialize (Hq Hne). rewrite <- Hq, Nat2Z.id. exact Hr.
  - intros Hex. exact (updates_empty_after_zero c calls w 1%nat H1 Hall Hex).
Qed.

End UpdateInvariant.

Lemma demo_update_frame (s : IMM) (g : nat) (x : matrix) (z : list Z) :
  let s' := fst (state_of (@BGMM_update demo_base s g x z)) in
  k s' = k s
  /\ prior_means s' = prior_means s
  /\ prior_dof s' = prior_dof s
  /\ prior_shrinkage s' = prior_shrinkage s
  /\ _dets s' = _dets s
  /\ _inv_prior_scale s' = _inv_prior_scale s.
Proof. simpl. auto 10. Qed.

(** Priors set from two points, then an update with two clusters and one with
    four: four copies of each row are left. *)
Lemma update_keeps_priors_replicated_witness :
  set_priors x_two imm_k2 = Ok tt imm_k2_priors
  /\ [(2, x_two, [0; 0; 1; 5]); (4, x_two, [1; 1])] <> []
  /\ Forall (fun call : Z * matrix * list Z => 0 <= fst (fst call))
            [(2, x_two, [0; 0; 1; 5]); (4, x_two, [1; 1])]
  /\ exists c,
       canon_of imm_k2_priors = Some c
       /\ replicated c 4
            (self (run_updates_at
                     [(2, x_two, [0; 0; 1; 5]); (4, x_two, [1; 1])]
                     (demo_world imm_k2_priors []))).
Proof.
  assert (H1 : set_priors x_two imm_k2 = Ok tt imm_k2_priors)
    by (vm_compute; reflexivity).
  assert (H2 : [(2, x_two, [0; 0; 1; 5]); (4, x_two, [1; 1])] <> [])
    by discriminate.
  assert (H3 : Forall (fun call : Z * matrix * list Z => 0 <= fst (fst call))
                      [(2, x_two, [0; 0; 1; 5]); (4, x_two, [1; 1])])
    by (repeat constructor; simpl; lia).
  split; [exact H1|]. split; [exact H2|]. split; [exact H3|].
  destruct (@update_keeps_priors_replicated demo_base diag_linalg
              demo_update_frame imm_k2 imm_k2_priors x_two
              (demo_world imm_k2_priors [])
              [(2, x_two, [0; 0; 1; 5]); (4, x_two, [1; 1])]
              H1 eq_refl H2 H3)
    as (c & Hc & Hk & Hpos & _).
  exists c. split; [exact Hc|].
  assert (H4 : Forall (fun call : Z * matrix * list Z => 1 <= fst (fst call))
                      [(2, x_two, [0; 0; 1; 5]); (4, x_two, [1; 1])])
    by (repeat constructor; simpl; lia).
  specialize (Hpos H4). rewrite Hk in Hpos. exact Hpos.
Defined.

(** C5, as the claim has it, fails.  The new object has no cluster; after
    [set_priors] and an [update], a second [update] made with two clusters
    leaves [self.k = 2] and arrays without any row. *)
Lemma update_after_count_zero_has_no_rows :
  set_priors x_two (fresh (Fin (1 # 2)) 1) = Ok tt imm_k0_priors
  /\ k imm_k0_priors = 0
  /\ canon_of imm_k0_priors = Some canon_two
  /\ k (self (run_updates_at [(0, x_two, []); (2, x_two, [0; 1])]
                             (demo_world imm_k0_priors []))) = 2
  /\ prior_means (self (run_updates_at [(0, x_two, []); (2, x_two, [0; 1])]
                                       (demo_world imm_k0_priors [])))
     = Some []
  /\ prior_dof (self (run_updates_at [(0, x_two, []); (2, x_two, [0; 1])]
                                     (demo_world imm_k0_priors [])))
     = Some []
  /\ ~ replicated canon_two 2
        (self (run_updates_at [(0, x_two, []); (2, x_two, [0; 1])]
                              (demo_world imm_k0_priors []))).
Proof.
  split; [vm_compute; reflexivity|].
  split; [reflexivity|].
  split; [vm_compute; reflexivity|].
  split; [vm_compute; reflexivity|].
  split; [vm_compute; reflexivity|].
  split; [vm_compute; reflexivity|].
  intros (R1 & _). vm_compute in R1. discriminate.
Qed.

(** What the invariant rests on: a call of [update] while the cluster count
    is 0 empties the arrays, and the rows are gone for good.  With the count
    set to 1 afterwards, the next call leaves zero rows of prior means and
    raises IndexError on the prior dof. *)
Example update_at_count_zero_drops_rows :
  let s := state_of (set_priors x10 (fresh (Fin (1 # 2)) 1)) in
  let w1 := state_of (update x10 [] (demo_world s [])) in
  let o := update x10 [] (with_self w1 (set_k (self w1) 1)) in
  k s = 0
  /\ prior_means (self w1) = Some []
  /\ o = Raised IndexError (state_of o)
  /\ k (self (state_of o)) = 1
  /\ prior_means (self (state_of o)) = Some [].
Proof. vm_compute. auto. Qed.

(** ** set_priors on a degenerate dimension *)

Module DegenerateFacts.

Lemma diag_of_length (m : matrix) : length (Mat.diag_of m) = length m.
Proof. unfold Mat.diag_of. now rewrite length_map, length_seq. Qed.

Lemma centered_covariance_length (d : nat) (x : matrix) :
  length (centered_covariance d x) = d.
Proof.
  unfold centered_covariance, Mat.gram_over. now rewrite length_map, length_seq.
Qed.

Lemma diag_matrix_nth (v : vector) (i : nat) :
  (i < length v)%nat ->
  nth i (nth i (Mat.diag_matrix v) []) NaN = nth i v NaN.
Proof.
  intros Hi. unfold Mat.diag_matrix.
  rewrite (ReduceFacts.nth_map_lt _ _ i 0%nat) by now rewrite length_seq.
  rewrite (ReduceFacts.nth_map_lt _ _ i 0%nat) by now rewrite length_seq.
  rewrite seq_nth by exact Hi. simpl. now rewrite Nat.eqb_refl.
Qed.

(** [1.0 / 0.0] is inf. *)
Lemma reciprocal_of_zero (q : Q) :
  (q == 0)%Q -> NpFloat.div NpFloat.one (Fin q) = PInf.
Proof.
  intros Hq. unfold NpFloat.div, NpFloat.one, NpFloat.is_zero.
  rewrite (proj2 (Qeq_bool_iff q 0) Hq). reflexivity.
Qed.

End DegenerateFacts.

Section Degenerate.
Context `{L : LinAlg}.
Import DegenerateFacts.

(** C8, as the code has it.  [set_priors] checks nothing about the
    covariance: when entry [i] of its diagonal is zero, inf is stored at
    position (i, i) of the prior scale, the determinant is taken from that
    matrix, and the call raises exactly when [numpy.linalg.inv] does. *)
Theorem set_priors_degenerate_unchecked (s : IMM) (x : matrix) (i : nat) (q : Q) :
  Forall (fun row => length row = dim s) x ->
  (i < dim s)%nat ->
  nth i (Mat.diag_of (centered_covariance (dim s) x)) NaN = Fin q ->
  (q == 0)%Q ->
  let px := prior_scale_of (dim s) x in
  let o := set_priors x s in
  nth i (nth i px []) NaN = PInf
  /\ prior_scale (state_of o) = Some [px]
  /\ _dets (state_of o) = Some [det px]
  /\ (is_ok o = true <-> inv px <> None)
  /\ (forall e s', o = Raised e s' -> e = LinAlgError).
Proof.
  intros Hx Hi Hd Hq px o.
  split.
  - unfold px, prior_scale_of.
    rewrite diag_matrix_nth
      by (unfold Mat.reciprocal;
          now rewrite length_map, diag_of_length, centered_covariance_length).
    unfold Mat.reciprocal.
    rewrite (ReduceFacts.nth_map_lt _ _ i NaN)
      by now rewrite diag_of_length, centered_covariance_length.
    rewrite Hd. now apply reciprocal_of_zero.
  - unfold o. rewrite (set_priors_run s x Hx). fold px.
    destruct (inv px) as [ipx|]; simpl.
    + repeat split; try reflexivity; try discriminate.
    + repeat split; try reflexivity; try discriminate.
      * intros H. now elim H.
      * intros e s' E. now injection E as <- _.
Qed.

End Degenerate.

(** Two equal points in one dimension. *)
Lemma set_priors_degenerate_unchecked_witness :
  Forall (fun row => length row = dim (fresh (Fin (1 # 2)) 1)) x_const
  /\ (0 < dim (fresh (Fin (1 # 2)) 1))%nat
  /\ nth 0 (Mat.diag_of (centered_covariance 1 x_const)) NaN = Fin (0 # 32)
  /\ (0 # 32 == 0)%Q
  /\ nth 0 (nth 0 (prior_scale_of 1 x_const) []) NaN = PInf
  /\ (is_ok (@set_priors diag_linalg x_const (fresh (Fin (1 # 2)) 1)) = true
      <-> diag_inv (prior_scale_of 1 x_const) <> None).
Proof.
  assert (H1 : Forall (fun row => length row = dim (fresh (Fin (1 # 2)) 1)) x_const)
    by (repeat constructor).
  assert (H2 : (0 < dim (fresh (Fin (1 # 2)) 1))%nat) by (simpl; lia).
  assert (H3 : nth 0 (Mat.diag_of (centered_covariance 1 x_const)) NaN
               = Fin (0 # 32)) by reflexivity.
  assert (H4 : (0 # 32 == 0)%Q) by reflexivity.
  split; [exact H1|]. split; [exact H2|]. split; [exact H3|]. split; [exact H4|].
  destruct (@set_priors_degenerate_unchecked diag_linalg
              (fresh (Fin (1 # 2)) 1) x_const 0%nat (0 # 32) H1 H2 H3 H4)
    as (Hinf & _ & _ & Hok & _).
  split; [exact Hinf|exact Hok].
Defined.

(** C8, as the claim has it, fails: on two equal points the diagonal of the
    centered covariance is zero, and [set_priors] returns normally with inf
    in the prior scale and in the cached determinant. *)
Lemma set_priors_constant_column_returns :
  (exists q, Mat.diag_of (centered_covariance 1 x_const) = [Fin q] /\ (q == 0)%Q)
  /\ is_ok (@set_priors diag_linalg x_const (fresh (Fin (1 # 2)) 1)) = true
  /\ prior_scale (state_of (@set_priors diag_linalg x_const (fresh (Fin (1 # 2)) 1)))
     = Some [[[PInf]]]
  /\ _dets (state_of (@set_priors diag_linalg x_const (fresh (Fin (1 # 2)) 1)))
     = Some [PInf].
Proof.
  split; [|vm_compute; auto].
  eexists. split; [vm_compute; reflexivity|reflexivity].
Qed.

(** ** The likelihood under the prior *)

Module PriorLikeFacts.
Import PriorLike.
Local Open Scope R_scope.

Lemma np_log_pos (v : R) : 0 < v -> np_log v = Some (ln v).
Proof.
  intros Hv. unfold np_log. destruct (Rlt_dec 0 v); [reflexivity|contradiction].
Qed.

Lemma np_gammaln_pos `{RealLib} (v : R) :
  0 < v -> np_gammaln v = Some (gammaln v).
Proof.
  intros Hv. unfold np_gammaln.
  destruct (Rlt_dec 0 v); [reflexivity|contradiction].
Qed.

Lemma dot_cons (a c : R) (u v : list R) :
  dot (a :: u) (c :: v) = a * c + dot u v.
Proof. reflexivity. Qed.

Lemma dot_nil_r (u : list R) : dot u [] = 0.
Proof. destruct u; reflexivity. Qed.

Lemma dot_comm (u : list R) : forall v, dot u v = dot v u.
Proof.
  induction u as [|a u IH]; intros [|c v]; try reflexivity.
  rewrite !dot_cons, IH. ring.
Qed.

Lemma dot_radd (r1 : list R) :
  forall r2 v, length r1 = length r2 ->
               dot (radd r1 r2) v = dot r1 v + dot r2 v.
Proof.
  induction r1 as [|a r1 IH]; intros [|b r2] v Hl; try discriminate.
  - unfold radd, dot. simpl. ring.
  - destruct v as [|c v].
    + rewrite !dot_nil_r. ring.
    + unfold radd. simpl. fold (radd r1 r2). rewrite !dot_cons, IH by (simpl in Hl; lia).
      ring.
Qed.

Lemma dot_scale_l (c1 c2 : R) (u : list R) :
  forall v, dot (map (fun uc => c1 * uc * c2) u) v = c1 * c2 * dot u v.
Proof.
  induction u as [|a u IH]; intros [|c v]; simpl; try (unfold dot; simpl; ring).
  rewrite !dot_cons, IH. ring.
Qed.

Lemma dot_scale_r (c : R) (u : list R) :
  forall v, dot v (map (fun ur => c * ur) u) = c * dot v u.
Proof.
  induction u as [|a u IH]; intros [|b v]; simpl; try (unfold dot; simpl; ring).
  rewrite !dot_cons, IH. ring.
Qed.

Lemma dot_map_add {A : Type} (f g : A -> R) (l1 : list A) :
  forall (l2 : list A) (v : list R),
    length l1 = length l2 ->
    dot v (map (fun p => f (fst p) + g (snd p)) (combine l1 l2))
    = dot v (map f l1) + dot v (map g l2).
Proof.
  induction l1 as [|a l1 IH]; intros [|b l2] v Hl; try discriminate.
  - simpl. rewrite dot_nil_r. ring.
  - destruct v as [|c v]; [unfold dot; simpl; ring|].
    simpl. rewrite !dot_cons, IH by (simpl in Hl; lia). ring.
Qed.

Lemma quad_madd (d : nat) (a c : rmatrix) (v : list R) :
  length a = length c ->
  Forall (fun row => length row = d) a ->
  Forall (fun row => length row = d) c ->
  quad (madd a c) v = quad a v + quad c v.
Proof.
  intros Hl Ha Hc. unfold quad, madd. rewrite map_map.
  rewrite <- (dot_map_add (fun row => dot row v) (fun row => dot row v) a c v Hl).
  f_equal. apply map_ext_in. intros [r1 r2] Hin. simpl.
  apply dot_radd.
  rewrite Forall_forall in Ha, Hc.
  rewrite (Ha r1 (in_combine_l _ _ _ _ Hin)).
  now rewrite (Hc r2 (in_combine_r _ _ _ _ Hin)).
Qed.

Lemma quad_outer (tau : R) (u v : list R) :
  quad (outer_tau tau u) v = tau * (dot u v * dot u v).
Proof.
  unfold quad, outer_tau. rewrite map_map.
  rewrite (map_ext (fun ur => dot (map (fun uc => tau * uc * ur) u) v)
                   (fun ur => (tau * dot u v) * ur)).
  - rewrite dot_scale_r, (dot_comm v u). ring.
  - intros ur. rewrite dot_scale_l. ring.
Qed.

(** Adding [tau] times an outer product, [tau >= 0], to a positive-definite
    matrix leaves it positive definite. *)
Lemma pos_def_point (d : nat) (ib : rmatrix) (tau : R) (u : list R) :
  pos_def d ib -> 0 <= tau -> length u = d ->
  pos_def d (madd ib (outer_tau tau u)).
Proof.
  intros (Hl & Hrows & Hq) Ht Hu.
  assert (Hol : length (outer_tau tau u) = d)
    by (unfold outer_tau; now rewrite length_map).
  assert (Horows : Forall (fun row => length row = d) (outer_tau tau u)).
  { unfold outer_tau. apply Forall_map, Forall_forall. intros ur _.
    now rewrite length_map. }
  split; [|split].
  - unfold madd. rewrite length_map, length_combine, Hl, Hol. apply Nat.min_id.
  - unfold madd. apply Forall_map, Forall_forall. intros [r1 r2] Hin. simpl.
    unfold radd. rewrite length_map, length_combine.
    rewrite Forall_forall in Hrows, Horows.
    rewrite (Hrows r1 (in_combine_l _ _ _ _ Hin)).
    rewrite (Horows r2 (in_combine_r _ _ _ _ Hin)). apply Nat.min_id.
  - intros v Hv Hnz.
    rewrite (quad_madd d) by (auto; congruence).
    rewrite quad_outer. specialize (Hq v Hv Hnz).
    pose proof (Rle_0_sqr (dot u v)) as Hs. unfold Rsqr in Hs.
    pose proof (Rmult_le_pos _ _ Ht Hs). lra.
Qed.

Lemma update_at_length (i : nat) (f : R -> R) (w : list R) :
  length (update_at i f w) = length w.
Proof.
  revert i. induction w as [|h t IH]; intros [|i]; simpl; auto.
Qed.

Lemma vsub_length (m xi : list R) (d : nat) :
  length m = d -> length xi = d -> length (vsub m xi) = d.
Proof.
  intros Hm Hx. unfold vsub. rewrite length_map, length_combine, Hm, Hx.
  apply Nat.min_id.
Qed.

Section Positive.
Context `{Lib : RealLib}.

(** Two facts of linear algebra about the library functions: a
    positive-definite matrix has a positive determinant, and its inverse is
    positive definite. *)
Hypothesis det_pos : forall d b, pos_def d b -> 0 < real_det b.
Hypothesis inv_pos : forall d b, pos_def d b -> pos_def d (real_inv b).

Lemma point_loop_some (a : pynum) (ib : rmatrix) (tau : R) (m : list R)
  (x : list (list R)) (indices : list nat) :
  Forall (fun i => 0 < real_det (point_matrix ib tau m x i)) indices ->
  forall w, exists w',
    point_loop a ib tau m x indices w = Some w' /\ length w' = length w.
Proof.
  unfold point_loop.
  induction 1 as [|i indices Hi Hrest IH]; intros w; simpl.
  - exists w. auto.
  - rewrite (np_log_pos _ Hi).
    destruct (IH (update_at i
                    (fun wi => wi - to_R (add_int a 1)
                                    * ln (real_det (point_matrix ib tau m x i)))
                    w)) as (w' & E & Hl).
    exists w'. split; [exact E|]. now rewrite Hl, update_at_length.
Qed.

Lemma scalar_part_some (d : nat) (a : pynum) (tau0 : R) (b0 : rmatrix) :
  dof_above_dim d a -> 0 < tau0 -> pos_def d b0 ->
  exists sw, scalar_part d a (tau0 / (1 + tau0)) b0 = Some sw.
Proof.
  intros Ha Ht Hb. unfold scalar_part.
  rewrite (np_log_pos _ (det_pos d b0 Hb)).
  assert (Htau : 0 < tau0 / (1 + tau0))
    by (apply Rdiv_lt_0_compat; lra).
  rewrite (np_log_pos (tau0 / (1 + tau0) / PI))
    by (apply Rdiv_lt_0_compat; [exact Htau|apply PI_RGT_0]).
  pose proof (pos_INR d) as Hd.
  assert (H1 : 0 < to_R (div_int (add_int a 1) 2)).
  { destruct a as [z|r]; simpl in *.
    - apply IZR_lt. apply Z.div_str_pos. lia.
    - lra. }
  assert (H2 : 0 < to_R (div_int (add_int a (- Z.of_nat d)) 2)).
  { destruct a as [z|r]; simpl in *.
    - apply IZR_lt. apply Z.div_str_pos. lia.
    - rewrite opp_IZR, <- INR_IZR_INZ. lra. }
  rewrite (np_gammaln_pos _ H1), (np_gammaln_pos _ H2). eauto.
Qed.

(** For a positive-definite prior scale, a positive shrinkage, a dof above
    the dimension (a float, or an int that is at least [dim + 2]) and any
    points of the right dimension, every logarithm and gammaln is taken at a
    positive argument, and [likelihood_under_the_prior] returns one value per
    point, each strictly positive. *)
Lemma likelihood_under_the_prior_positive (self : priors)
  (x : list (list R)) :
  valid_priors self ->
  Forall (fun xi => length xi = dim self) x ->
  exists w,
    likelihood_under_the_prior self x = Returned w
    /\ length w = length x
    /\ Forall (fun v => 0 < v) w.
Proof.
  unfold valid_priors, likelihood_under_the_prior.
  destruct (prior_dof self) as [|a ?]; [contradiction|].
  destruct (prior_shrinkage self) as [|tau0 ?]; [contradiction|].
  destruct (prior_means self) as [|m ?]; [contradiction|].
  destruct (prior_scale self) as [|b0 ?]; [contradiction|].
  intros (Ha & Ht & Hm & Hb) Hx.
  destruct (scalar_part_some (dim self) a tau0 b0 Ha Ht Hb) as (sw & Hsw).
  rewrite Hsw.
  assert (Htau : 0 <= tau0 / (1 + tau0))
    by (apply Rlt_le, Rdiv_lt_0_compat; lra).
  assert (Hpts : Forall (fun i => 0 < real_det
                           (point_matrix (real_inv b0) (tau0 / (1 + tau0)) m x i))
                        (seq 0 (length x))).
  { apply Forall_forall. intros i Hi. apply in_seq in Hi.
    apply (det_pos (dim self)). unfold point_matrix.
    apply pos_def_point; [now apply inv_pos|exact Htau|].
    apply vsub_length; [exact Hm|].
    rewrite Forall_forall in Hx. apply Hx, nth_In. lia. }
  destruct (point_loop_some a (real_inv b0) (tau0 / (1 + tau0)) m x _ Hpts
              (map (fun _ => sw * 1) (seq 0 (length x))))
    as (w' & Hw' & Hl).
  rewrite Hw'. eexists. split; [reflexivity|]. split.
  - now rewrite !length_map, Hl, length_map, length_seq.
  - apply Forall_map, Forall_forall. intros v _. apply exp_pos.
Qed.

End Positive.

Lemma one_dim_entry_pos (d : nat) (a : R) : pos_def d [[a]] -> 0 < a.
Proof.
  intros (Hl & Hrows & Hq). simpl in Hl. subst d.
  specialize (Hq [1] eq_refl).
  unfold quad, dot in Hq. simpl in Hq.
  assert (Hnz : ~ Forall (fun c => c = 0) [1]).
  { intros F. inversion F; subst. lra. }
  specialize (Hq Hnz). lra.
Qed.

Lemma one_dim_det_pos (d : nat) (b : rmatrix) :
  pos_def d b -> 0 < @real_det one_dim_lib b.
Proof.
  intros Hb. simpl.
  destruct b as [|[|a [|? ?]] [|? ?]]; try lra.
  now apply (one_dim_entry_pos d).
Qed.

Lemma one_dim_inv_pos (d : nat) (b : rmatrix) :
  pos_def d b -> pos_def d (@real_inv one_dim_lib b).
Proof.
  intros Hb. simpl.
  destruct b as [|[|a [|? ?]] [|? ?]]; try exact Hb.
  pose proof (one_dim_entry_pos d a Hb) as Ha.
  destruct Hb as (Hl & Hrows & Hq). simpl in Hl. subst d.
  split; [reflexivity|]. split; [repeat constructor|].
  intros [|c [|? ?]] Hv Hnz; try discriminate.
  unfold quad, dot. simpl.
  assert (Hc : c <> 0) by (intros ->; apply Hnz; repeat constructor).
  pose proof (Rinv_0_lt_compat a Ha) as Hia.
  assert (0 < c * c) by nra.
  nra.
Qed.

(** One dimension, the int dof 3 that [set_priors] stores, two points. *)
Lemma likelihood_under_the_prior_positive_at_two_points :
  valid_priors priors_1d
  /\ Forall (fun xi => length xi = dim priors_1d) [[1]; [2]]
  /\ exists w,
       @likelihood_under_the_prior one_dim_lib priors_1d [[1]; [2]] = Returned w
       /\ length w = 2%nat
       /\ Forall (fun v => 0 < v) w.
Proof.
  assert (H1 : valid_priors priors_1d).
  { unfold valid_priors, priors_1d, dof_above_dim, pos_def. simpl.
    split; [lia|]. split; [lra|]. split; [reflexivity|].
    split; [reflexivity|]. split; [repeat constructor|].
    intros [|c [|? ?]] Hl Hnz; try discriminate.
    unfold quad, dot. simpl.
    assert (c <> 0) by (intros ->; apply Hnz; repeat constructor).
    nra. }
  assert (H2 : Forall (fun xi => length xi = dim priors_1d) [[1]; [2]])
    by (repeat constructor).
  split; [exact H1|]. split; [exact H2|].
  exact (@likelihood_under_the_prior_positive one_dim_lib
           one_dim_det_pos one_dim_inv_pos priors_1d [[1]; [2]] H1 H2).
Defined.

(** C6.  One dimension, prior scale [[1.]], shrinkage 0.01 and the int dof 2:
    the scale is positive definite, the dof is above the dimension and the
    shrinkage is positive, yet [(a - self.dim)/2] is the integer quotient
    [1/2 = 0], gammaln is taken at 0 and no point gets a strictly positive
    finite value, whatever the points and the library functions. *)
Theorem likelihood_int_dof_not_positive :
  pos_def (dim priors_int_dof) [[1]]
  /\ INR (dim priors_int_dof) < to_R (PyInt 2)
  /\ 0 < / 100
  /\ div_int (add_int (PyInt 2) (- Z.of_nat (dim priors_int_dof))) 2 = PyInt 0
  /\ forall (Lib : RealLib) (x : list (list R)),
       likelihood_under_the_prior priors_int_dof x = NonFinite.
Proof.
  split; [|split; [|split; [|split]]].
  - split; [reflexivity|]. split; [repeat constructor|].
    intros [|c [|? ?]] Hl Hnz; try discriminate.
    unfold quad, dot. simpl.
    assert (c <> 0) by (intros ->; apply Hnz; repeat constructor).
    nra.
  - simpl. lra.
  - lra.
  - reflexivity.
  - intros Lib x. unfold likelihood_under_the_prior, scalar_part. simpl.
    assert (E : np_gammaln 0 = None).
    { unfold np_gammaln. destruct (Rlt_dec 0 0) as [H|H]; [lra|reflexivity]. }
    change (IZR (1 / 2)) with 0. rewrite E.
    destruct (np_log (real_det [[1]])); [|reflexivity].
    destruct (np_log (/ 100 / (1 + / 100) / PI)); [|reflexivity].
    destruct (np_gammaln (IZR (3 / 2))); reflexivity.
Qed.

End PriorLikeFacts.

(** * Further properties *)

(** ** reduce: order and repetition *)

Module ReduceMore.
Import Numpy ReduceFacts.

Lemma sorted_nth_lt (u : list Z) :
  StronglySorted Z.lt u ->
  forall p q, (p < q)%nat -> (q < length u)%nat -> nth p u 0 < nth q u 0.
Proof.
  induction 1 as [|h t Hs IH Hh]; intros p q Hpq Hq; simpl in Hq; [lia|].
  destruct q as [|q]; [lia|]. destruct p as [|p]; simpl.
  - rewrite Forall_forall in Hh. apply Hh, nth_In. lia.
  - apply IH; lia.
Qed.

(** In a strictly increasing list of integers that are at least [c], entry
    [p] is at least [c + p]; when they are all below [c], it is at most
    [c - (length - p)]. *)
Lemma sorted_lower (u : list Z) :
  StronglySorted Z.lt u ->
  forall c p, Forall (fun v => c <= v) u -> (p < length u)%nat ->
              c + Z.of_nat p <= nth p u 0.
Proof.
  induction 1 as [|h t Hs IH Hh]; intros c p Hc Hp; simpl in Hp; [lia|].
  inversion Hc as [|? ? Hch Hct]; subst.
  destruct p as [|p]; simpl; [lia|].
  assert (Ht : Forall (fun v => c + 1 <= v) t)
    by (eapply Forall_impl; [|exact Hh]; simpl; intros; lia).
  specialize (IH (c + 1) p Ht ltac:(lia)). lia.
Qed.

Lemma sorted_upper (u : list Z) :
  StronglySorted Z.lt u ->
  forall c p, Forall (fun v => v < c) u -> (p < length u)%nat ->
              nth p u 0 <= c - Z.of_nat (length u - p).
Proof.
  induction 1 as [|h t Hs IH Hh]; intros c p Hc Hp; simpl in Hp; [lia|].
  inversion Hc as [|? ? Hch Hct]; subst.
  destruct p as [|p].
  - simpl nth. destruct t as [|h' t'].
    + simpl. lia.
    + assert (Hlt : h < nth 0 (h' :: t') 0)
        by (rewrite Forall_forall in Hh; apply Hh, nth_In; simpl; lia).
      specialize (IH c 0%nat Hct ltac:(simpl; lia)).
      simpl length in *. simpl nth in *. lia.
  - simpl nth. specialize (IH c p Hct ltac:(lia)).
    simpl length. replace (S (length t) - S p)%nat with (length t - p)%nat by lia.
    exact IH.
Qed.

Lemma reduce_loop_labels (z : list Z) (v : Z) :
  Forall (fun y => 0 <= y) z ->
  (In v (reduce_loop z) <-> 0 <= v < Z.of_nat (length (unique z))).
Proof.
  intros Hz. split.
  - intros Hin. destruct (In_nth _ _ 0 Hin) as (i & Hi & Ei).
    rewrite reduce_loop_length in Hi.
    destruct (reduce_loop_rank z Hz i Hi) as [Hrk _]. lia.
  - intros Hv.
    destruct (reduce_loop_onto z (Z.to_nat v) Hz) as (i & Hi & Ei); [lia|].
    rewrite Z2Nat.id in Ei by lia. rewrite <- Ei.
    apply nth_In. now rewrite reduce_loop_length.
Qed.

(** The distinct labels of a compacted array are 0, 1, ..., in this order. *)
Lemma unique_of_compacted (z : list Z) (p : nat) :
  Forall (fun y => 0 <= y) z ->
  (p < length (unique (reduce_loop z)))%nat ->
  length (unique (reduce_loop z)) = length (unique z)
  /\ nth p (unique (reduce_loop z)) 0 = Z.of_nat p.
Proof.
  intros Hz Hp.
  set (u' := unique (reduce_loop z)) in *.
  set (m := length (unique z)).
  assert (Hmem : forall v, In v u' <-> In v (arange m)).
  { intros v. unfold u'. rewrite unique_In, (reduce_loop_labels z v Hz).
    unfold arange. rewrite in_map_iff. fold m. split.
    - intros Hv. exists (Z.to_nat v). split; [lia|]. apply in_seq. lia.
    - intros (q & <- & Hq). apply in_seq in Hq. lia. }
  assert (Hlen : length u' = m).
  { assert (Hnd : NoDup (arange m)).
    { unfold arange. apply Finite.Injective_map_NoDup; [|apply seq_NoDup].
      intros a b E. lia. }
    pose proof (Permutation_length
                  (NoDup_Permutation (sorted_NoDup _ (unique_sorted _)) Hnd Hmem))
      as HP.
    unfold arange in HP. rewrite length_map, length_seq in HP. exact HP. }
  split; [exact Hlen|].
  assert (Hlo : Forall (fun v => 0 <= v) u').
  { apply Forall_forall. intros v Hv. apply Hmem in Hv.
    unfold arange in Hv. apply in_map_iff in Hv. destruct Hv as (q & <- & _). lia. }
  assert (Hhi : Forall (fun v => v < Z.of_nat m) u').
  { apply Forall_forall. intros v Hv. apply Hmem in Hv.
    unfold arange in Hv. apply in_map_iff in Hv.
    destruct Hv as (q & <- & Hq). apply in_seq in Hq. lia. }
  pose proof (sorted_lower u' (unique_sorted _) 0 p Hlo Hp).
  pose proof (sorted_upper u' (unique_sorted _) (Z.of_nat m) p Hhi Hp).
  lia.
Qed.

(** Compacting a compacted array changes nothing. *)
Lemma reduce_loop_idempotent (z : list Z) :
  Forall (fun y => 0 <= y) z -> reduce_loop (reduce_loop z) = reduce_loop z.
Proof.
  intros Hz.
  assert (Hz' : Forall (fun y => 0 <= y) (reduce_loop z)).
  { apply Forall_forall. intros v Hv. apply (reduce_loop_labels z v Hz) in Hv. lia. }
  apply (nth_ext _ _ 0 0); [now rewrite !reduce_loop_length|].
  intros i Hi. rewrite !reduce_loop_length in Hi.
  destruct (reduce_loop_rank (reduce_loop z) Hz' i)
    as [Hr He]; [now rewrite reduce_loop_length|].
  assert (Hp : (Z.to_nat (nth i (reduce_loop (reduce_loop z)) 0%Z)
                < length (unique (reduce_loop z)))%nat) by lia.
  destruct (unique_of_compacted z _ Hz Hp) as [_ Hn].
  rewrite (nth_error_nth' _ 0 Hp) in He. injection He as He.
  rewrite Hn in He. lia.
Qed.

End ReduceMore.

Section ReduceProps.
Context `{B : BGMM_base}.
Import Numpy ReduceFacts ReduceMore.

Lemma reduce_run (w : world) (r : ref) (z : list Z) :
  nth_error (heap w) r = Some z ->
  z <> [] ->
  Forall (fun v => 0 <= v) z ->
  reduce r w
  = Ok tt (with_self (with_heap w (store_set (heap w) r (reduce_loop z)))
                     (set_k (self w) (Z.of_nat (length (unique z)) - 1 + 1))).
Proof.
  intros Hh Hne Hz.
  unfold reduce, read, write, bindO, get, modify, expect, on_self, ret.
  rewrite Hh. simpl. rewrite (amax_reduce_loop z Hne Hz). reflexivity.
Qed.

(** X1.  [reduce] keeps the order of the labels: on a non-empty array of
    nonnegative labels, a point has a smaller new label than another exactly
    when it had a smaller old label. *)
Theorem reduce_preserves_order (w : world) (r : ref) (z : list Z) :
  nth_error (heap w) r = Some z ->
  z <> [] ->
  Forall (fun v => 0 <= v) z ->
  exists w' z',
    reduce r w = Ok tt w'
    /\ nth_error (heap w') r = Some z'
    /\ forall i j, (i < length z)%nat -> (j < length z)%nat ->
         (nth i z' 0 < nth j z' 0 <-> nth i z 0 < nth j z 0).
Proof.
  intros Hh Hne Hz.
  assert (Hr : (r < length (heap w))%nat) by (apply nth_error_Some; congruence).
  eexists. exists (reduce_loop z).
  split; [apply (reduce_run w r z Hh Hne Hz)|].
  split; [simpl; now apply StoreFacts.store_set_same|].
  intros i j Hi Hj.
  destruct (reduce_loop_rank z Hz i Hi) as [Hri Hei].
  destruct (reduce_loop_rank z Hz j Hj) as [Hrj Hej].
  set (p := Z.to_nat (nth i (reduce_loop z) 0)) in *.
  set (q := Z.to_nat (nth j (reduce_loop z) 0)) in *.
  assert (Hp : (p < length (unique z))%nat) by lia.
  assert (Hq : (q < length (unique z))%nat) by lia.
  rewrite (nth_error_nth' _ 0 Hp) in Hei. injection Hei as Hei.
  rewrite (nth_error_nth' _ 0 Hq) in Hej. injection Hej as Hej.
  rewrite <- Hei, <- Hej.
  pose proof (sorted_nth_lt _ (unique_sorted z)) as Hs.
  split; intros Hlt.
  - apply Hs; lia.
  - destruct (Nat.lt_trichotomy p q) as [Hpq|[Hpq|Hpq]]; [lia| |].
    + rewrite Hpq in Hlt. lia.
    + specialize (Hs q p Hpq Hp). lia.
Qed.

(** X2.  A second [reduce] changes nothing: after [reduce] on a non-empty
    array of nonnegative labels, calling it again returns and leaves the same
    labels and the same [self.k]. *)
Theorem reduce_twice_is_reduce_once (w : world) (r : ref) (z : list Z) :
  nth_error (heap w) r = Some z ->
  z <> [] ->
  Forall (fun v => 0 <= v) z ->
  exists w1 w2 z',
    reduce r w = Ok tt w1
    /\ reduce r w1 = Ok tt w2
    /\ nth_error (heap w1) r = Some z'
    /\ nth_error (heap w2) r = Some z'
    /\ k (self w2) = k (self w1).
Proof.
  intros Hh Hne Hz.
  assert (Hr : (r < length (heap w))%nat) by (apply nth_error_Some; congruence).
  set (w1 := with_self (with_heap w (store_set (heap w) r (reduce_loop z)))
                       (set_k (self w) (Z.of_nat (length (unique z)) - 1 + 1))).
  assert (Hh1 : nth_error (heap w1) r = Some (reduce_loop z))
    by (simpl; now apply StoreFacts.store_set_same).
  assert (Hne1 : reduce_loop z <> []).
  { intros E. apply (f_equal (@length Z)) in E.
    rewrite reduce_loop_length in E. destruct z; [congruence|discriminate]. }
  assert (Hz1 : Forall (fun v => 0 <= v) (reduce_loop z)).
  { apply Forall_forall. intros v Hv. apply (reduce_loop_labels z v Hz) in Hv. lia. }
  assert (Hu : length (unique (reduce_loop z)) = length (unique z)).
  { assert (Hpos : (0 < length (unique (reduce_loop z)))%nat).
    { destruct (reduce_loop z) as [|a t] eqn:E; [congruence|].
      assert (In a (unique (a :: t))) by (apply unique_In; now left).
      destruct (unique (a :: t)); [contradiction|simpl; lia]. }
    now destruct (unique_of_compacted z 0 Hz Hpos). }
  exists w1. eexists. exists (reduce_loop z).
  split; [apply (reduce_run w r z Hh Hne Hz)|].
  split; [apply (reduce_run w1 r _ Hh1 Hne1 Hz1)|].
  split; [exact Hh1|].
  split.
  - simpl. rewrite (reduce_loop_idempotent z Hz).
    apply StoreFacts.store_set_same.
    now rewrite StoreFacts.store_set_length.
  - simpl. now rewrite Hu.
Qed.

End ReduceProps.

Lemma reduce_preserves_order_witness :
  nth_error (heap w_k2) 0 = Some [3; 1; 3; 7; 1]
  /\ [3; 1; 3; 7; 1] <> []
  /\ Forall (fun v => 0 <= v) [3; 1; 3; 7; 1]
  /\ exists w' z', reduce 0%nat w_k2 = Ok tt w'
                   /\ nth_error (heap w') 0 = Some z'
                   /\ (nth 1 z' 0 < nth 0 z' 0 <-> 1 < 3).
Proof.
  assert (H1 : nth_error (heap w_k2) 0 = Some [3; 1; 3; 7; 1]) by reflexivity.
  assert (H2 : [3; 1; 3; 7; 1] <> []) by discriminate.
  assert (H3 : Forall (fun v => 0 <= v) [3; 1; 3; 7; 1])
    by (repeat constructor; lia).
  split; [exact H1|]. split; [exact H2|]. split; [exact H3|].
  destruct (reduce_preserves_order w_k2 0%nat _ H1 H2 H3)
    as (w' & z' & E & Hh & Ho).
  exists w', z'. split; [exact E|]. split; [exact Hh|].
  apply (Ho 1%nat 0%nat); simpl; lia.
Defined.

Lemma reduce_twice_is_reduce_once_witness :
  nth_error (heap w_k2) 0 = Some [3; 1; 3; 7; 1]
  /\ [3; 1; 3; 7; 1] <> []
  /\ Forall (fun v => 0 <= v) [3; 1; 3; 7; 1]
  /\ exists w1 w2, reduce 0%nat w_k2 = Ok tt w1
                   /\ reduce 0%nat w1 = Ok tt w2
                   /\ nth_error (heap w2) 0 = nth_error (heap w1) 0.
Proof.
  assert (H1 : nth_error (heap w_k2) 0 = Some [3; 1; 3; 7; 1]) by reflexivity.
  assert (H2 : [3; 1; 3; 7; 1] <> []) by discriminate.
  assert (H3 : Forall (fun v => 0 <= v) [3; 1; 3; 7; 1])
    by (repeat constructor; lia).
  split; [exact H1|]. split; [exact H2|]. split; [exact H3|].
  destruct (reduce_twice_is_reduce_once w_k2 0%nat _ H1 H2 H3)
    as (w1 & w2 & z' & E1 & E2 & Ha & Hb & _).
  exists w1, w2. split; [exact E1|]. split; [exact E2|]. congruence.
Defined.

(** ** cross_validated_update: which fold holds a point out *)

Section FoldOfPosition.
Import Numpy BlockFacts.

(** X3.  With [j = n_samples/k] (integer division) and [idx] a list of [n]
    distinct positions, the point [idx[q]] is held out in fold [i] exactly
    when [i*j <= q < (i+1)*j]: a point is held out in at most one fold, and in
    one at all only when [q < k*j]. *)
Theorem held_out_in_fold_iff (idx : list nat) (n : nat) (nfolds : Z) :
  0 < nfolds -> length idx = n -> NoDup idx ->
  let j := Z.to_nat (Z.of_nat n / nfolds) in
  forall q, (q < n)%nat ->
    (forall i, (i < Z.to_nat nfolds)%nat ->
       (In (nth q idx 0%nat) (test_block idx n (Z.of_nat n / nfolds) i)
        <-> (i * j <= q < (i + 1) * j)%nat))
    /\ ((exists i, (i < Z.to_nat nfolds)%nat
                   /\ In (nth q idx 0%nat)
                         (test_block idx n (Z.of_nat n / nfolds) i))
        <-> (q < Z.to_nat nfolds * j)%nat).
Proof.
  intros Hf Hlen Hnd j q Hq.
  assert (Hj0 : 0 <= Z.of_nat n / nfolds) by (apply Z.div_pos; lia).
  assert (Hcap : (Z.to_nat nfolds * j <= n)%nat).
  { pose proof (Z.mul_div_le (Z.of_nat n) nfolds Hf). unfold j. nia. }
  assert (Hone : forall i, (i < Z.to_nat nfolds)%nat ->
            (In (nth q idx 0%nat) (test_block idx n (Z.of_nat n / nfolds) i)
             <-> (i * j <= q < (i + 1) * j)%nat)).
  { intros i Hi.
    rewrite (test_block_eq idx n nfolds i Hf Hi). cbv zeta. fold j.
    assert (Hblk : ((i + 1) * j <= n)%nat) by nia.
    split.
    - intros Hin. destruct (In_nth _ _ 0%nat Hin) as (r & Hr & Er).
      rewrite length_firstn, length_skipn in Hr.
      rewrite nth_firstn in Er.
      replace (r <? j)%nat with true in Er by (symmetry; apply Nat.ltb_lt; lia).
      rewrite nth_skipn in Er.
      rewrite NoDup_nth in Hnd. apply Hnd in Er; lia.
    - intros [Hlo Hhi].
      replace q with (i * j + (q - i * j))%nat at 1 by lia.
      rewrite <- nth_skipn.
      assert (Hr : (q - i * j < j)%nat) by lia.
      rewrite <- (firstn_skipn j (skipn (i * j) idx)) at 1.
      rewrite app_nth1 by (rewrite length_firstn, length_skipn; lia).
      apply nth_In. rewrite length_firstn, length_skipn. lia. }
  split; [exact Hone|].
  split.
  - intros (i & Hi & Hin). apply (Hone i Hi) in Hin. nia.
  - intros Hlt.
    assert (Hjpos : (0 < j)%nat) by nia.
    exists (q / j)%nat.
    assert (Hdiv : (q / j < Z.to_nat nfolds)%nat)
      by (apply Nat.Div0.div_lt_upper_bound; lia).
    split; [exact Hdiv|]. apply (Hone _ Hdiv).
    pose proof (Nat.div_mod_eq q j) as Hdm.
    pose proof (Nat.mod_upper_bound q j ltac:(lia)) as Hm.
    nia.
Qed.

End FoldOfPosition.

(** Ten points in three folds under the reversed permutation: the point 9 is
    first in the permutation and is held out in fold 0 only; the point 0 is
    last and is held out in no fold. *)
Lemma held_out_in_fold_iff_witness :
  0 < 3
  /\ length (rev (seq 0 10)) = 10%nat
  /\ NoDup (rev (seq 0 10))
  /\ (In 9%nat (test_block (rev (seq 0 10)) 10 (10 / 3) 0)
      <-> (0 * 3 <= 0 < (0 + 1) * 3)%nat)
  /\ ((exists i, (i < 3)%nat /\ In 0%nat (test_block (rev (seq 0 10)) 10 (10 / 3) i))
      <-> (9 < 3 * 3)%nat).
Proof.
  assert (H1 : 0 < 3) by lia.
  assert (H2 : length (rev (seq 0 10)) = 10%nat) by reflexivity.
  assert (H3 : NoDup (rev (seq 0 10))).
  { apply (Permutation_NoDup (Permutation_rev (seq 0 10))), seq_NoDup. }
  split; [exact H1|]. split; [exact H2|]. split; [exact H3|].
  split.
  - apply (proj1 (held_out_in_fold_iff (rev (seq 0 10)) 10 3 H1 H2 H3
                    0%nat ltac:(lia)) 0%nat).
    simpl. lia.
  - apply (proj2 (held_out_in_fold_iff (rev (seq 0 10)) 10 3 H1 H2 H3
                    9%nat ltac:(lia))).
Defined.

(** ** cross_validated_update: what the folds leave alone *)

Module MaskFacts.
Import Numpy.

(** A masked assignment keeps the length and the entries outside the mask. *)
Lemma put_mask_frame {A : Type} (d : A) (a : list A) :
  forall (m : list bool) (vals a' : list A),
    put_mask a m vals = Some a' ->
    length a' = length a
    /\ forall p, nth p m false = false -> nth p a' d = nth p a d.
Proof.
  induction a as [|h t IH]; intros m vals a' E.
  - destruct m; [|discriminate]. destruct vals; [|discriminate].
    injection E as <-. split; [reflexivity|]. intros; reflexivity.
  - destruct m as [|b m]; [discriminate|]. simpl in E.
    destruct b.
    + destruct vals as [|v vs]; [discriminate|].
      destruct (put_mask t m vs) as [r|] eqn:Er; [|discriminate].
      injection E as <-. destruct (IH _ _ _ Er) as [Hl Hn].
      split; [simpl; now rewrite Hl|].
      intros [|p] Hp; simpl in *; [discriminate|auto].
    + destruct (put_mask t m vals) as [r|] eqn:Er; [|discriminate].
      injection E as <-. destruct (IH _ _ _ Er) as [Hl Hn].
      split; [simpl; now rewrite Hl|].
      intros [|p] Hp; simpl in *; auto.
Qed.

Lemma nth_map_seq {A : Type} (f : nat -> A) (d : A) (n p : nat) :
  (p < n)%nat -> nth p (map f (seq 0 n)) d = f p.
Proof.
  intros Hp. rewrite (nth_indep _ d (f 0%nat))
    by (now rewrite length_map, length_seq).
  rewrite map_nth, seq_nth by exact Hp. reflexivity.
Qed.

(** Outside the held-out block the test mask is false. *)
Lemma test_mask_outside (idx : list nat) (n : nat) (j : Z) (i p : nat) :
  ~ In p (test_block idx n j i) -> nth p (test_mask idx n j i) false = false.
Proof.
  intros Hout. unfold test_mask, set_at, zeros_bool. rewrite repeat_length.
  destruct (Nat.lt_ge_cases p n) as [Hp|Hp].
  - rewrite (nth_map_seq _ false n p Hp), nth_repeat. simpl.
    destruct (existsb (Nat.eqb p) (test_block idx n j i)) eqn:E; [|reflexivity].
    apply FoldFacts.mem_block in E. contradiction.
  - apply nth_overflow. now rewrite length_map, length_seq.
Qed.

End MaskFacts.

Section FoldFrames.
Context `{B : BGMM_base} `{P : PriorDensity}.
Import MaskFacts.

(** The last part of a fold writes into the labels and the scores only at the
    positions of the mask. *)
Lemma score_held_out_frame (test : list bool) (x : matrix) (zr : ref)
  (plike slike : vector) (w : world) (z0 : list Z) :
  nth_error (heap w) zr = Some z0 ->
  (exists z', nth_error (heap (state_of (score_held_out test x zr plike slike w))) zr
              = Some z'
              /\ length z' = length z0
              /\ forall p, nth p test false = false -> nth p z' 0 = nth p z0 0)
  /\ forall s1 w1, score_held_out test x zr plike slike w = Ok s1 w1 ->
       length s1 = length slike
       /\ forall p, nth p test false = false -> nth p s1 NaN = nth p slike NaN.
Proof.
  intros Hz.
  assert (Hstay : forall e,
            (exists z', nth_error (heap (state_of (@Raised world vector e w))) zr
                        = Some z'
                        /\ length z' = length z0
                        /\ forall p, nth p test false = false ->
                                     nth p z' 0 = nth p z0 0)
            /\ forall s1 w1, @Raised world vector e w = Ok s1 w1 ->
                 length s1 = length slike
                 /\ forall p, nth p test false = false ->
                              nth p s1 NaN = nth p slike NaN).
  { intros e. split; [exists z0; simpl; auto|discriminate]. }
  unfold score_held_out.
  destruct (Numpy.select test x) as [xs|];
    [rewrite (bind_ok _ _ _ _ _ (expect_some _ _ _))
    |rewrite (bind_raised _ _ _ _ _ (expect_none _ _)); apply Hstay].
  destruct (Numpy.select test plike) as [ps|];
    [rewrite (bind_ok _ _ _ _ _ (expect_some _ _ _))
    |rewrite (bind_raised _ _ _ _ _ (expect_none _ _)); apply Hstay].
  pose proof (likelihood_state xs (Some ps) w) as Hl. cbv beta in Hl.
  destruct (likelihood xs (Some ps) w) as [alike wl|e wl] eqn:El;
    simpl in Hl; subst wl;
    [rewrite (bind_ok _ _ _ _ _ El)
    |rewrite (bind_raised _ _ _ _ _ El); apply Hstay].
  destruct (Numpy.put_mask slike test (Mat.sum1 alike)) as [slike1|] eqn:Es;
    [rewrite (bind_ok _ _ _ _ _ (expect_some _ _ _))
    |rewrite (bind_raised _ _ _ _ _ (expect_none _ _)); apply Hstay].
  pose proof (sample_indicator_keeps heap alike (fun _ _ => eq_refl) w) as Hs.
  destruct (sample_indicator alike w) as [znew w2|e w2] eqn:Esi; simpl in Hs;
    [rewrite (bind_ok _ _ _ _ _ Esi)
    |rewrite (bind_raised _ _ _ _ _ Esi)].
  2:{ split; [exists z0; simpl; rewrite Hs; auto|discriminate]. }
  assert (Hz2 : nth_error (heap w2) zr = Some z0) by now rewrite Hs.
  rewrite (bind_ok _ _ _ _ _ (read_some _ _ _ Hz2)).
  destruct (Numpy.put_mask z0 test znew) as [z3|] eqn:Ez;
    [rewrite (bind_ok _ _ _ _ _ (expect_some _ _ _))
    |rewrite (bind_raised _ _ _ _ _ (expect_none _ _))].
  2:{ split; [exists z0; simpl; auto|discriminate]. }
  unfold write, modify, bindO, ret. simpl.
  destruct (put_mask_frame 0 _ _ _ _ Ez) as [Hl3 Hn3].
  destruct (put_mask_frame NaN _ _ _ _ Es) as [Hls Hns].
  split.
  - exists z3. split; [|auto].
    apply StoreFacts.store_set_same. apply nth_error_Some. congruence.
  - intros s1 w1 E. injection E as <- _. auto.
Qed.

(** One fold: in the labels of the caller and in the scores, only the
    positions of the held-out block can change. *)
Lemma cv_fold_frame (x : matrix) (zr : ref) (plike : vector)
  (idx : list nat) (j : Z) (slike : vector) (i : nat) (w : world)
  (z0 : list Z) :
  nth_error (heap w) zr = Some z0 ->
  (exists z', nth_error (heap (state_of (cv_fold x zr plike idx j slike i w))) zr
              = Some z'
              /\ length z' = length z0
              /\ forall p, ~ In p (test_block idx (length x) j i) ->
                           nth p z' 0 = nth p z0 0)
  /\ forall s1 w1, cv_fold x zr plike idx j slike i w = Ok s1 w1 ->
       length s1 = length slike
       /\ forall p, ~ In p (test_block idx (length x) j i) ->
                    nth p s1 NaN = nth p slike NaN.
Proof.
  intros Hz.
  assert (Hzr : (zr < length (heap w))%nat) by (apply nth_error_Some; congruence).
  unfold cv_fold.
  set (test := test_mask idx (length x) j i).
  set (train := Numpy.logical_not test).
  pose proof (reduce_on_slice_effect train zr w) as [_ Hr].
  specialize (Hr zr Hzr).
  destruct (reduce_on_slice train zr w) as [u w1|e w1] eqn:E1; simpl in Hr;
    [rewrite (bind_ok _ _ _ _ _ E1)|rewrite (bind_raised _ _ _ _ _ E1)].
  2:{ split; [exists z0; simpl; rewrite Hr; auto|discriminate]. }
  pose proof (update_on_slice_effect train x zr w1) as [Hu _].
  destruct (update_on_slice train x zr w1) as [u2 w2|e w2] eqn:E2; simpl in Hu;
    [rewrite (bind_ok _ _ _ _ _ E2)|rewrite (bind_raised _ _ _ _ _ E2)].
  2:{ split; [exists z0; simpl; rewrite Hu, Hr; auto|discriminate]. }
  assert (Hz2 : nth_error (heap w2) zr = Some z0) by (rewrite Hu, Hr; exact Hz).
  destruct (score_held_out_frame test x zr plike slike w2 z0 Hz2)
    as [(z' & Hh & Hl & Hn) Hs].
  split.
  - exists z'. split; [exact Hh|]. split; [exact Hl|].
    intros p Hp. apply Hn. now apply test_mask_outside.
  - intros s1 w3 E. destruct (Hs s1 w3 E) as [Hls Hns].
    split; [exact Hls|]. intros p Hp. apply Hns. now apply test_mask_outside.
Qed.

(** The loop over the folds. *)
Lemma cv_loop_frame (x : matrix) (zr : ref) (plike : vector)
  (idx : list nat) (j : Z) (folds : list nat) :
  forall (slike : vector) (w : world) (z0 : list Z),
  nth_error (heap w) zr = Some z0 ->
  (exists z', nth_error (heap (state_of (cv_loop x zr plike idx j slike folds w))) zr
              = Some z'
              /\ length z' = length z0
              /\ forall p, (forall i, In i folds ->
                                      ~ In p (test_block idx (length x) j i)) ->
                           nth p z' 0 = nth p z0 0)
  /\ forall s1 w1, cv_loop x zr plike idx j slike folds w = Ok s1 w1 ->
       length s1 = length slike
       /\ forall p, (forall i, In i folds ->
                               ~ In p (test_block idx (length x) j i)) ->
                    nth p s1 NaN = nth p slike NaN.
Proof.
  induction folds as [|i rest IH]; intros slike w z0 Hz.
  - simpl. split; [exists z0; auto|].
    intros s1 w1 E. injection E as <- _. auto.
  - cbn [cv_loop].
    destruct (cv_fold_frame x zr plike idx j slike i w z0 Hz)
      as [(z1 & Hh1 & Hl1 & Hn1) Hs1].
    destruct (cv_fold x zr plike idx j slike i w) as [sl1 w1|e w1] eqn:E1;
      [rewrite (bind_ok _ _ _ _ _ E1)|rewrite (bind_raised _ _ _ _ _ E1)];
      simpl in Hh1.
    2:{ split; [|discriminate]. exists z1. simpl. split; [exact Hh1|].
        split; [exact Hl1|]. intros p Hp. apply Hn1. apply Hp. now left. }
    destruct (Hs1 sl1 w1 eq_refl) as [Hls1 Hns1].
    destruct (IH sl1 w1 z1 Hh1) as [(z' & Hh & Hl & Hn) Hs].
    split.
    + exists z'. split; [exact Hh|]. split; [congruence|].
      intros p Hp. rewrite Hn by (intros i' Hi'; apply Hp; now right).
      apply Hn1. apply Hp. now left.
    + intros s1 w2 E. destruct (Hs s1 w2 E) as [Hls Hns].
      split; [congruence|].
      intros p Hp. rewrite Hns by (intros i' Hi'; apply Hp; now right).
      apply Hns1. apply Hp. now left.
Qed.

(** X4.  [cross_validated_update] writes into the caller's label array only
    at held-out positions: whether it returns or raises, the array keeps its
    length, and a point that is in the block of no fold keeps its label. *)
Theorem cv_labels_change_only_when_held_out (x : matrix) (zr : ref)
  (plike : vector) (nfolds : Z) (w : world) (z0 : list Z) :
  nth_error (heap w) zr = Some z0 ->
  let n := length x in
  let idx := fst (argsort_rand (rng w) n) in
  let j := Z.of_nat n / nfolds in
  exists z',
    nth_error (heap (state_of (cross_validated_update x zr plike nfolds w))) zr
    = Some z'
    /\ length z' = length z0
    /\ forall p, (forall i, (i < Z.to_nat nfolds)%nat ->
                            ~ In p (test_block idx n j i)) ->
                 nth p z' 0 = nth p z0 0.
Proof.
  intros Hz n idx j. rewrite cross_validated_update_unfold.
  fold n. fold idx. fold j. cbv zeta.
  destruct (nfolds =? 0); [exists z0; simpl; auto|].
  destruct (cv_loop_frame x zr plike idx j (seq 0 (Z.to_nat nfolds))
              (repeat NpFloat.zero n)
              (with_rng w (snd (argsort_rand (rng w) n))) z0 Hz)
    as [(z' & Hh & Hl & Hn) _].
  exists z'. split; [exact Hh|]. split; [exact Hl|].
  intros p Hp. apply Hn. intros i Hi. apply Hp. apply in_seq in Hi. lia.
Qed.

(** X5.  When [cross_validated_update] returns, the result has one score per
    point, and the score of a point that is in the block of no fold is the
    initial 0.0. *)
Theorem cv_score_zero_when_never_held_out (x : matrix) (zr : ref)
  (plike : vector) (nfolds : Z) (w w' : world) (z0 : list Z) (slike : vector) :
  nth_error (heap w) zr = Some z0 ->
  cross_validated_update x zr plike nfolds w = Ok slike w' ->
  let n := length x in
  let idx := fst (argsort_rand (rng w) n) in
  let j := Z.of_nat n / nfolds in
  length slike = n
  /\ forall p, (p < n)%nat ->
       (forall i, (i < Z.to_nat nfolds)%nat -> ~ In p (test_block idx n j i)) ->
       nth p slike NaN = NpFloat.zero.
Proof.
  intros Hz E n idx j. rewrite cross_validated_update_unfold in E.
  fold n in E. fold idx in E. fold j in E. cbv zeta in E.
  destruct (nfolds =? 0); [discriminate|].
  destruct (cv_loop_frame x zr plike idx j (seq 0 (Z.to_nat nfolds))
              (repeat NpFloat.zero n)
              (with_rng w (snd (argsort_rand (rng w) n))) z0 Hz)
    as [_ Hs].
  destruct (Hs slike w' E) as [Hl Hn].
  split; [now rewrite Hl, repeat_length|].
  intros p Hp Hout.
  rewrite Hn by (intros i Hi; apply Hout; apply in_seq in Hi; lia).
  apply nth_repeat_lt. exact Hp.
Qed.

End FoldFrames.

(** Ten points in three folds: the point 0 is last in the permutation, is in
    no block, and keeps its label 0. *)
Lemma cv_labels_change_only_when_held_out_witness :
  nth_error (heap w10) 0 = Some (map Z.of_nat (seq 0 10))
  /\ exists z',
       nth_error (heap (state_of (cross_validated_update x10 0%nat plike10 3 w10))) 0
       = Some z'
       /\ length z' = 10%nat
       /\ nth 0 z' 0 = 0.
Proof.
  assert (H1 : nth_error (heap w10) 0 = Some (map Z.of_nat (seq 0 10)))
    by reflexivity.
  split; [exact H1|].
  destruct (@cv_labels_change_only_when_held_out demo_base demo_density
              x10 0%nat plike10 3 w10 _ H1) as (z' & Hh & Hl & Hn).
  exists z'. split; [exact Hh|]. split; [exact Hl|].
  apply (Hn 0%nat).
  intros [|[|[|i]]] Hi; [| | |simpl in Hi; lia];
    vm_compute; intuition discriminate.
Defined.

(** In the same run the score of the point 0 is 0.0. *)
Lemma cv_score_zero_when_never_held_out_witness :
  nth_error (heap w10) 0 = Some (map Z.of_nat (seq 0 10))
  /\ exists slike w',
       cross_validated_update x10 0%nat plike10 3 w10 = Ok slike w'
       /\ length slike = 10%nat
       /\ nth 0 slike NaN = NpFloat.zero.
Proof.
  assert (H1 : nth_error (heap w10) 0 = Some (map Z.of_nat (seq 0 10)))
    by reflexivity.
  split; [exact H1|].
  pose (o := cross_validated_update x10 0%nat plike10 3 w10).
  pose (s10 := match o with Ok s _ => s | Raised _ _ => [] end).
  assert (E : cross_validated_update x10 0%nat plike10 3 w10
              = Ok s10 (state_of o)) by (vm_compute; reflexivity).
  destruct (@cv_score_zero_when_never_held_out demo_base demo_density
              x10 0%nat plike10 3 w10 (state_of o)
              (map Z.of_nat (seq 0 10)) s10 H1 E) as [Hl Hn].
  exists s10, (state_of o). split; [exact E|]. split; [exact Hl|].
  apply (Hn 0%nat); [simpl; lia|].
  intros [|[|[|i]]] Hi; [| | |simpl in Hi; lia];
    vm_compute; intuition discriminate.
Defined.

(** ** cross_validated_update with a single fold *)

Section SingleFold.
Context `{B : BGMM_base} `{P : PriorDensity}.
Import Numpy.

Lemma select_none_selected {A : Type} (a : list A) :
  select (repeat false (length a)) a = Some [].
Proof.
  induction a as [|h t IH]; simpl; [reflexivity|]. now rewrite IH.
Qed.

(** With one fold and a permutation of all positions, the training mask is
    false everywhere. *)
Lemma single_fold_train_empty (idx : list nat) (n : nat) :
  Permutation idx (seq 0 n) ->
  logical_not (test_mask idx n (Z.of_nat n / 1) 0) = repeat false n.
Proof.
  intros Hp. rewrite FoldFacts.train_mask_eq.
  assert (Hlen : length idx = n)
    by (rewrite (Permutation_length Hp); apply length_seq).
  assert (Hb : test_block idx n (Z.of_nat n / 1) 0 = idx).
  { unfold test_block, slice. rewrite Z.div_1_r. simpl Z.of_nat.
    rewrite Z.mul_0_l, Z.add_0_l, Z.mul_1_r, Z.min_id, Nat2Z.id.
    simpl. rewrite Nat.sub_0_r, <- Hlen. apply firstn_all. }
  rewrite Hb.
  transitivity (map (fun _ : nat => false) (seq 0 n));
    [|now rewrite map_const, length_seq].
  apply map_ext_in. intros p Hin.
  apply (Permutation_in _ (Permutation_sym Hp)) in Hin.
  apply FoldFacts.mem_block in Hin. now rewrite Hin.
Qed.

(** X6.  [cross_validated_update] with a single fold cannot work: every point
    is held out, the training labels [z[train]] are empty, and [reduce] raises
    ValueError on their maximum before the base update is called; the labels
    of the caller and [self.k] are as before. *)
Theorem cv_single_fold_always_raises (x : matrix) (zr : ref)
  (plike : vector) (w : world) (z0 : list Z) :
  nth_error (heap w) zr = Some z0 ->
  length z0 = length x ->
  Permutation (fst (argsort_rand (rng w) (length x))) (seq 0 (length x)) ->
  exists w',
    cross_validated_update x zr plike 1 w = Raised ValueError w'
    /\ trace w' = trace w
    /\ nth_error (heap w') zr = Some z0
    /\ k (self w') = k (self w).
Proof.
  intros Hz Hlen Hperm.
  rewrite cross_validated_update_unfold. cbv zeta.
  change (1 =? 0) with false. change (Z.to_nat 1) with 1%nat.
  cbn [seq cv_loop]. unfold cv_fold.
  rewrite (single_fold_train_empty _ _ Hperm).
  set (w1 := with_rng w (snd (argsort_rand (rng w) (length x)))).
  assert (Hz1 : nth_error (heap w1) zr = Some z0) by exact Hz.
  assert (Hzr : (zr < length (heap w))%nat) by (apply nth_error_Some; congruence).
  assert (Hred : reduce_on_slice (repeat false (length x)) zr w1
                 = Raised ValueError
                     (with_heap w1 (store_set (heap w ++ [[]]) (length (heap w))
                                              (reduce_loop [])))).
  { unfold reduce_on_slice.
    rewrite (bind_ok _ _ _ _ _ (read_some _ _ _ Hz1)).
    rewrite <- Hlen, select_none_selected.
    rewrite (bind_ok _ _ _ _ _ (expect_some _ _ _)).
    rewrite (bind_ok _ _ _ _ _ (alloc_ok _ _)).
    unfold reduce.
    assert (Ht : nth_error (heap (with_heap w1 (heap w1 ++ [[]])))
                           (length (heap w1)) = Some [])
      by (simpl; rewrite nth_error_app2, Nat.sub_diag by lia; reflexivity).
    rewrite (bind_ok _ _ _ _ _ (read_some _ _ _ Ht)).
    reflexivity. }
  rewrite (bind_raised _ _ _ _ _ (bind_raised _ _ _ _ _ Hred)).
  eexists. split; [reflexivity|]. simpl.
  split; [reflexivity|]. split; [|reflexivity].
  rewrite StoreFacts.store_set_other by lia.
  rewrite nth_error_app1 by lia. exact Hz.
Qed.

End SingleFold.

Lemma cv_single_fold_always_raises_witness :
  nth_error (heap w10) 0 = Some (map Z.of_nat (seq 0 10))
  /\ length (map Z.of_nat (seq 0 10)) = length x10
  /\ Permutation (fst (@argsort_rand demo_base (rng w10) (length x10)))
                 (seq 0 (length x10))
  /\ exists w', cross_validated_update x10 0%nat plike10 1 w10
                = Raised ValueError w'
                /\ trace w' = trace w10.
Proof.
  assert (H1 : nth_error (heap w10) 0 = Some (map Z.of_nat (seq 0 10)))
    by reflexivity.
  assert (H2 : length (map Z.of_nat (seq 0 10)) = length x10) by reflexivity.
  assert (H3 : Permutation (fst (@argsort_rand demo_base (rng w10) (length x10)))
                           (seq 0 (length x10)))
    by (apply Permutation_sym, Permutation_rev).
  split; [exact H1|]. split; [exact H2|]. split; [exact H3|].
  destruct (@cv_single_fold_always_raises demo_base demo_density
              x10 0%nat plike10 w10 (map Z.of_nat (seq 0 10)) H1 H2 H3)
    as (w' & E & Ht & _).
  exists w'. split; [exact E|exact Ht].
Defined.

(** ** simple_update *)

Section SimpleUpdate.
Context `{B : BGMM_base} `{P : PriorDensity}.
Import Numpy ReduceFacts ReduceMore.

(** The matrix returned by [likelihood] has one row per point. *)
Lemma likelihood_rows (x : matrix) (plike : option vector) (w w' : world)
  (like : matrix) :
  likelihood x plike w = Ok like w' -> length like = length x.
Proof.
  unfold likelihood, bindO, get, ret, raise.
  set (pl := match plike with
             | Some p => p
             | None => prior_density (self w) x
             end).
  destruct (Nat.eqb (length pl) (length x)) eqn:El; [|discriminate].
  apply Nat.eqb_eq in El.
  assert (Hmul : forall (m r : matrix) (wt : vector),
            broadcast_mul_rows m wt = Some r -> length r = length m).
  { intros m r wt. unfold broadcast_mul_rows.
    destruct wt as [|y [|y' t]];
      try destruct (forallb _ m);
      intros E; try discriminate; injection E as <-; apply length_map. }
  destruct (0 <? k (self w)).
  - unfold hstack_col.
    destruct (Nat.eqb (length (unweighted_likelihood (self w) x)) (length pl))
      eqn:Eh; [|discriminate].
    apply Nat.eqb_eq in Eh. simpl.
    destruct (broadcast_mul_rows _ (weights (self w))) as [r|] eqn:Em;
      [|discriminate].
    intros E. injection E as <- _.
    rewrite (Hmul _ _ _ Em), length_map, length_combine. lia.
  - simpl.
    destruct (broadcast_mul_rows _ (weights (self w))) as [r|] eqn:Em;
      [|discriminate].
    intros E. injection E as <- _.
    rewrite (Hmul _ _ _ Em), length_map. exact El.
Qed.

(** X7.  [simple_update] rebinds its parameter [z] to a fresh draw before any
    use, so the label array of the caller is never written: whether the call
    returns or raises, every label array that existed before it is
    unchanged.  The statement is about the label arrays, which are the arrays
    of the store; it says nothing of the float array [plike], which
    [likelihood] multiplies in place when [self.k] is 0. *)
Theorem simple_update_leaves_caller_arrays (x : matrix) (zr : ref)
  (plike : vector) (w : world) (r : ref) :
  (r < length (heap w))%nat ->
  nth_error (heap (state_of (simple_update x zr plike w))) r
  = nth_error (heap w) r.
Proof.
  intros Hr. unfold simple_update.
  pose proof (likelihood_state x (Some plike) w) as Hl. cbv beta in Hl.
  destruct (likelihood x (Some plike) w) as [like wl|e wl] eqn:El;
    simpl in Hl; subst wl;
    [rewrite (bind_ok _ _ _ _ _ El)
    |rewrite (bind_raised _ _ _ _ _ El); reflexivity].
  pose proof (sample_indicator_keeps heap like (fun _ _ => eq_refl) w) as Hs.
  destruct (sample_indicator like w) as [z w1|e w1] eqn:Es; simpl in Hs;
    [rewrite (bind_ok _ _ _ _ _ Es)
    |rewrite (bind_raised _ _ _ _ _ Es); simpl; now rewrite Hs].
  rewrite (bind_ok _ _ _ _ _ (alloc_ok _ _)).
  set (w2 := with_heap w1 (heap w1 ++ [z])).
  assert (H2 : nth_error (heap w2) r = nth_error (heap w) r)
    by (simpl; rewrite Hs; now apply nth_error_app1).
  pose proof (reduce_keeps_other (length (heap w1)) r
                ltac:(rewrite Hs; lia) w2) as Hk.
  cbv beta in Hk.
  destruct (reduce (length (heap w1)) w2) as [u w3|e w3] eqn:Er;
    cbn [state_of] in Hk;
    [rewrite (bind_ok _ _ _ _ _ Er)
    |rewrite (bind_raised _ _ _ _ _ Er); simpl; congruence].
  pose proof (read_state (length (heap w1)) w3) as Hrd. cbv beta in Hrd.
  destruct (read (length (heap w1)) w3) as [z' w4|e w4] eqn:Erd;
    simpl in Hrd; subst w4;
    [rewrite (bind_ok _ _ _ _ _ Erd)
    |rewrite (bind_raised _ _ _ _ _ Erd); simpl; congruence].
  destruct (update_effect x z' w3) as (Hh & _).
  destruct (update x z' w3) as [u2 w5|e w5] eqn:Eu; simpl in Hh;
    [rewrite (bind_ok _ _ _ _ _ Eu)
    |rewrite (bind_raised _ _ _ _ _ Eu)]; simpl; congruence.
Qed.

(** The base draw never returns a negative column index. *)
Hypothesis draw_nonneg : forall s g like,
  Forall (fun d => 0 <= d) (fst (BGMM_sample_indicator s g like)).

Lemma sample_indicator_nonneg (like : matrix) (w w1 : world) (z : list Z) :
  0 <= k (self w) ->
  sample_indicator like w = Ok z w1 ->
  Forall (fun d => 0 <= d) z
  /\ heap w1 = heap w /\ trace w1 = trace w.
Proof.
  intros Hk. unfold sample_indicator, bindO, get, modify.
  pose proof (draw_nonneg (self w) (rng w) like) as Hd.
  destruct (BGMM_sample_indicator (self w) (rng w) like) as [z0 g].
  simpl in Hd. cbn [k self with_rng].
  destruct (NumpyFacts.put_mask_fresh (k (self w)) z0 0) as (z1 & Hp & Hl & Hn).
  unfold arange. rewrite Hp. simpl. intros E. injection E as <- <-.
  split; [|split; reflexivity].
  apply Forall_forall. intros v Hv.
  destruct (In_nth _ _ 0 Hv) as (i & Hi & <-).
  rewrite Hn by lia.
  rewrite Forall_forall in Hd.
  destruct (nth i z0 0 =? k (self w)); [lia|].
  apply Hd, nth_In. lia.
Qed.

(** X8.  When [simple_update] returns, it has made exactly one call of the
    base update, with the whole data and compacted labels: the labels passed
    are exactly 0, ..., [self.k]-1 for the [self.k] >= 1 of that call.  The
    returned vector is the row sums of the likelihood computed on entry, one
    value per point. *)
Theorem simple_update_single_base_call (x : matrix) (zr : ref)
  (plike : vector) (w w' : world) (v : vector) :
  0 <= k (self w) ->
  simple_update x zr plike w = Ok v w' ->
  exists like z' kk,
    likelihood x (Some plike) w = Ok like w
    /\ v = Mat.sum1 like
    /\ length v = length x
    /\ trace w' = trace w ++ [BaseCall kk x z']
    /\ 1 <= kk
    /\ forall c, In c z' <-> 0 <= c < kk.
Proof.
  intros Hk. unfold simple_update.
  pose proof (likelihood_state x (Some plike) w) as Hl. cbv beta in Hl.
  destruct (likelihood x (Some plike) w) as [like wl|e wl] eqn:El;
    simpl in Hl; subst wl;
    [rewrite (bind_ok _ _ _ _ _ El)
    |rewrite (bind_raised _ _ _ _ _ El); discriminate].
  destruct (sample_indicator like w) as [z w1|e w1] eqn:Es;
    [rewrite (bind_ok _ _ _ _ _ Es)
    |rewrite (bind_raised _ _ _ _ _ Es); discriminate].
  destruct (sample_indicator_nonneg like w w1 z Hk Es) as (Hz & Hh1 & Ht1).
  rewrite (bind_ok _ _ _ _ _ (alloc_ok _ _)).
  set (w2 := with_heap w1 (heap w1 ++ [z])).
  assert (Hc : nth_error (heap w2) (length (heap w1)) = Some z)
    by (simpl; rewrite nth_error_app2, Nat.sub_diag by lia; reflexivity).
  destruct z as [|z0 zt].
  { assert (Er : exists w3, reduce (length (heap w1)) w2 = Raised ValueError w3).
    { unfold reduce. rewrite (bind_ok _ _ _ _ _ (read_some _ _ _ Hc)).
      eexists. reflexivity. }
    destruct Er as [w3 Er]. rewrite (bind_raised _ _ _ _ _ Er). discriminate. }
  assert (Hne : z0 :: zt <> []) by discriminate.
  rewrite (bind_ok _ _ _ _ _
             (@reduce_run B w2 (length (heap w1)) (z0 :: zt) Hc Hne Hz)).
  set (z := z0 :: zt) in *.
  set (w3 := with_self _ _).
  assert (Hc3 : nth_error (heap w3) (length (heap w1)) = Some (reduce_loop z)).
  { simpl. apply StoreFacts.store_set_same. rewrite length_app. simpl. lia. }
  rewrite (bind_ok _ _ _ _ _ (read_some _ _ _ Hc3)).
  destruct (update_effect x (reduce_loop z) w3) as (_ & _ & Hok).
  destruct (update x (reduce_loop z) w3) as [u2 w5|e w5] eqn:Eu;
    [rewrite (bind_ok _ _ _ _ _ Eu)
    |rewrite (bind_raised _ _ _ _ _ Eu); discriminate].
  specialize (Hok eq_refl). simpl in Hok.
  intros E. injection E as <- <-.
  exists like, (reduce_loop z), (Z.of_nat (length (unique z)) - 1 + 1).
  split; [reflexivity|]. split; [reflexivity|].
  split; [unfold Mat.sum1; rewrite length_map; apply (likelihood_rows _ _ _ _ _ El)|].
  split; [rewrite Hok, Ht1; reflexivity|].
  assert (Hu : (0 < length (unique z))%nat).
  { assert (In z0 (unique z)) by (apply unique_In; now left).
    destruct (unique z); [contradiction|simpl; lia]. }
  split; [lia|].
  intros c. rewrite (reduce_loop_labels z c Hz). lia.
Qed.

End SimpleUpdate.

Lemma demo_draw_nonneg (s : IMM) (g : nat) (like : matrix) :
  Forall (fun d => 0 <= d) (fst (@BGMM_sample_indicator demo_base s g like)).
Proof.
  simpl. apply Forall_map. apply Forall_forall. intros p _. lia.
Qed.

(** Two points, two clusters: the labels 0 and 1 of the caller are still in
    place after the call. *)
Lemma simple_update_leaves_caller_arrays_witness :
  (0 < length (heap w_two))%nat
  /\ nth_error (heap (state_of (simple_update x_two 0%nat plike_two w_two))) 0
     = Some [0; 1].
Proof.
  assert (H1 : (0 < length (heap w_two))%nat) by (simpl; lia).
  split; [exact H1|].
  apply (@simple_update_leaves_caller_arrays demo_base demo_density
           x_two 0%nat plike_two w_two 0%nat H1).
Defined.

Lemma simple_update_single_base_call_witness :
  0 <= k (self w_two)
  /\ exists v w' z' kk,
       simple_update x_two 0%nat plike_two w_two = Ok v w'
       /\ length v = 2%nat
       /\ trace w' = trace w_two ++ [BaseCall kk x_two z']
       /\ 1 <= kk.
Proof.
  assert (H1 : 0 <= k (self w_two)) by (vm_compute; discriminate).
  split; [exact H1|].
  pose (o := simple_update x_two 0%nat plike_two w_two).
  pose (v2 := match o with Ok s _ => s | Raised _ _ => [] end).
  assert (E : simple_update x_two 0%nat plike_two w_two = Ok v2 (state_of o))
    by (vm_compute; reflexivity).
  destruct (@simple_update_single_base_call demo_base demo_density
              demo_draw_nonneg x_two 0%nat plike_two w_two (state_of o) v2 H1 E)
    as (like & z' & kk & _ & _ & Hl & Ht & Hk & _).
  exists v2, (state_of o), z', kk.
  split; [exact E|]. split; [exact Hl|]. split; [exact Ht|exact Hk].
Defined.

(** ** sample_indicator on an object without clusters *)

Section FirstDraw.
Context `{B : BGMM_base}.
Import Numpy.

(** The base draw returns one column index per row of the matrix. *)
Hypothesis draw_length : forall s g like,
  length (fst (BGMM_sample_indicator s g like)) = length like.
Hypothesis draw_range : forall s g like c,
  (0 < c)%nat ->
  Forall (fun row => length row = c) like ->
  Forall (fun d => 0 <= d < Z.of_nat c) (fst (BGMM_sample_indicator s g like)).

Lemma new_before_all (d : list Z) (kk : Z) :
  Forall (fun v => v = kk) d ->
  forall i, (i <= length d)%nat -> new_before d kk i = i.
Proof.
  unfold new_before.
  induction 1 as [|h t Hh Ht IH]; intros i Hi; simpl in Hi.
  - replace i with 0%nat by lia. reflexivity.
  - destruct i as [|i]; [reflexivity|].
    simpl firstn. simpl mask_eq. rewrite NumpyFacts.count_true_cons.
    rewrite (proj2 (Z.eqb_eq _ _) Hh), IH by lia. reflexivity.
Qed.

(** With no cluster and a single column every draw is the new-cluster
    column, and the fresh labels count up from 0. *)
Lemma first_draw_labels (w : world) (like : matrix) :
  k (self w) = 0 ->
  Forall (fun row => length row = 1%nat) like ->
  sample_indicator like w
  = Ok (arange (length like))
       (with_rng w (snd (BGMM_sample_indicator (self w) (rng w) like))).
Proof.
  intros Hk Hcols.
  pose proof (draw_length (self w) (rng w) like) as Hlen.
  pose proof (draw_range (self w) (rng w) like 1 Nat.lt_0_1 Hcols) as Hr.
  unfold sample_indicator, bindO, get, modify.
  destruct (BGMM_sample_indicator (self w) (rng w) like) as [z0 g].
  simpl fst in *. simpl snd. cbn [k self with_rng]. rewrite Hk.
  assert (Hall : Forall (fun v => v = 0) z0)
    by (eapply Forall_impl; [|exact Hr]; cbv beta; intros; lia).
  destruct (NumpyFacts.put_mask_fresh 0 z0 0) as (z & Hp & Hl & Hn).
  unfold arange at 1. rewrite Hp. simpl.
  assert (Ez : z = arange (length like)); [|now rewrite Ez].
  apply nth_ext with (d := 0) (d' := 0).
  - unfold arange. rewrite length_map, length_seq. lia.
  - intros i Hi. rewrite Hn by lia.
    rewrite (new_before_all z0 0 Hall i) by lia.
    rewrite Forall_forall in Hall.
    rewrite (Hall (nth i z0 0)) by (apply nth_In; lia).
    simpl. unfold arange.
    rewrite (MaskFacts.nth_map_seq Z.of_nat 0) by lia. lia.
Qed.

(** X9.  While the object has no cluster ([self.k = 0]) the likelihood matrix
    has the single column of the prior, every point draws that column, and
    [sample_indicator] gives each point a cluster of its own: the labels are
    0, 1, ..., n-1 in point order. *)
Theorem sample_indicator_without_clusters (w : world) (like : matrix) :
  k (self w) = 0 ->
  Forall (fun row => length row = 1%nat) like ->
  exists w',
    sample_indicator like w = Ok (arange (length like)) w'
    /\ self w' = self w /\ heap w' = heap w /\ trace w' = trace w.
Proof.
  intros Hk Hcols. eexists.
  split; [apply (first_draw_labels w like Hk Hcols)|].
  simpl. auto.
Qed.

End FirstDraw.

(** Three points and the new object: the labels drawn are 0, 1, 2. *)
Lemma sample_indicator_without_clusters_witness :
  k (self (demo_world (fresh (Fin (1 # 2)) 1) [])) = 0
  /\ Forall (fun row => length row = 1%nat) (repeat [NpFloat.one] 3)
  /\ exists w',
       sample_indicator (repeat [NpFloat.one] 3)
                        (demo_world (fresh (Fin (1 # 2)) 1) [])
       = Ok [0; 1; 2] w'.
Proof.
  assert (H1 : k (self (demo_world (fresh (Fin (1 # 2)) 1) [])) = 0)
    by reflexivity.
  assert (H2 : Forall (fun row => length row = 1%nat) (repeat [NpFloat.one] 3))
    by (repeat constructor).
  split; [exact H1|]. split; [exact H2|].
  destruct (@sample_indicator_without_clusters demo_base
              demo_draw_length demo_draw_range
              (demo_world (fresh (Fin (1 # 2)) 1) []) _ H1 H2)
    as (w' & E & _).
  exists w'. exact E.
Defined.

(** ** update: what it needs and what breaks it *)

Module RedimensionFacts.
Import PriorFacts.

Ltac fields :=
  cbn [k prior_means prior_dof prior_shrinkage _dets _inv_prior_scale dim
       set_prior_means set_prior_dof set_prior_shrinkage set_dets
       set_inv_prior_scale set_means set_precisions].

Lemma repeat0_nonneg {A : Type} (a : list A) (kk : Z) :
  0 <= kk -> exists v, repeat0 a kk = Some v.
Proof.
  intros Hk. unfold repeat0.
  replace (kk <? 0) with false by (symmetry; apply Z.ltb_ge; exact Hk).
  eauto.
Qed.

(** Without the cached determinant the re-dimensioning cannot complete; when
    the three priors it reads first are in place, it stops on the missing
    cache. *)
Lemma redimension_without_cache (s : IMM) :
  _dets s = None ->
  exists e s',
    redimension_priors s = Raised e s'
    /\ In e [TypeError; ValueError; IndexError; AttributeError]
    /\ (forall pm d dt sh st,
          prior_means s = Some pm ->
          prior_dof s = Some (d :: dt) ->
          prior_shrinkage s = Some (sh :: st) ->
          0 <= k s ->
          e = AttributeError).
Proof.
  intros Hd.
  unfold redimension_priors, bindO, get, modify, expect, ret, raise. fields.
  destruct (prior_means s) as [pm|] eqn:E1.
  2:{ do 2 eexists. split; [reflexivity|]. split; [simpl; auto|].
      intros; discriminate. }
  destruct (repeat0 (firstn 1 pm) (k s)) as [v1|] eqn:R1.
  2:{ do 2 eexists. split; [reflexivity|]. split; [simpl; auto|].
      intros ? ? ? ? ? _ _ _ Hk.
      destruct (repeat0_nonneg (firstn 1 pm) (k s) Hk); congruence. }
  fields.
  destruct (prior_dof s) as [pd|] eqn:E2.
  2:{ do 2 eexists. split; [reflexivity|]. split; [simpl; auto|].
      intros; discriminate. }
  destruct pd as [|d0 dt0].
  { do 2 eexists. split; [reflexivity|]. split; [simpl; auto|].
    intros; discriminate. }
  cbn [hd_error].
  destruct (times_ones d0 (k s)) as [v2|] eqn:R2.
  2:{ do 2 eexists. split; [reflexivity|]. split; [simpl; auto|].
      intros ? ? ? ? ? _ _ _ Hk. rewrite (times_ones_some _ _ Hk) in R2.
      discriminate. }
  fields.
  destruct (prior_shrinkage s) as [ps|] eqn:E3.
  2:{ do 2 eexists. split; [reflexivity|]. split; [simpl; auto|].
      intros; discriminate. }
  destruct ps as [|sh0 st0].
  { do 2 eexists. split; [reflexivity|]. split; [simpl; auto|].
    intros; discriminate. }
  cbn [hd_error].
  destruct (times_ones sh0 (k s)) as [v3|] eqn:R3.
  2:{ do 2 eexists. split; [reflexivity|]. split; [simpl; auto|].
      intros ? ? ? ? ? _ _ _ Hk. rewrite (times_ones_some _ _ Hk) in R3.
      discriminate. }
  fields. rewrite Hd.
  do 2 eexists. split; [reflexivity|]. split; [simpl; auto|]. reflexivity.
Qed.

(** With no row left in the prior means and the prior dof, the
    re-dimensioning stops with IndexError on [self.prior_dof[0]]. *)
Lemma redimension_no_rows (s : IMM) :
  prior_means s = Some [] ->
  prior_dof s = Some [] ->
  0 <= k s ->
  exists s', redimension_priors s = Raised IndexError s'.
Proof.
  intros E1 E2 Hk.
  unfold redimension_priors, bindO, get, modify, expect, ret, raise. fields.
  rewrite E1. cbn [firstn].
  destruct (repeat0_nonneg (@nil (list npfloat)) (k s) Hk) as [v Hv].
  rewrite Hv. fields. rewrite E2. cbn [hd_error].
  eexists. reflexivity.
Qed.

End RedimensionFacts.

Section UpdateNeeds.
Context `{B : BGMM_base}.
Import RedimensionFacts.

Lemma update_stops_early (x : matrix) (z : list Z) (w : world) (e : exn)
  (s' : IMM) :
  redimension_priors (self w) = Raised e s' ->
  update x z w = Raised e (with_self w s').
Proof.
  intros E. unfold update.
  apply bind_raised. unfold on_self. now rewrite E.
Qed.

(** X10.  [update] needs [set_priors] first.  On an object whose cache
    [_dets] does not exist yet, as the constructor leaves it, [update] raises
    before it reaches the base update, and nothing is logged or written to
    the arrays; when the constructor was given prior means, dof and shrinkage,
    the exception is the AttributeError of the missing cache. *)
Theorem update_needs_set_priors (x : matrix) (z : list Z) (w : world) :
  _dets (self w) = None ->
  exists e w',
    update x z w = Raised e w'
    /\ In e [TypeError; ValueError; IndexError; AttributeError]
    /\ trace w' = trace w
    /\ heap w' = heap w
    /\ (forall pm d dt sh st,
          prior_means (self w) = Some pm ->
          prior_dof (self w) = Some (d :: dt) ->
          prior_shrinkage (self w) = Some (sh :: st) ->
          0 <= k (self w) ->
          e = AttributeError).
Proof.
  intros Hd.
  destruct (redimension_without_cache (self w) Hd) as (e & s' & E & Hin & Hattr).
  exists e, (with_self w s').
  split; [now apply update_stops_early|]. auto.
Qed.

End UpdateNeeds.

(** The new object, and the object built with prior means, dof and shrinkage
    given to the constructor. *)
Lemma update_needs_set_priors_witness :
  _dets (self (demo_world
                 (init (PyF (Fin (1 # 2))) 1 (Some [[Fin 0]]) None None
                       (Some [Fin 3]) (Some [Fin (1 # 100)])) [])) = None
  /\ exists w',
       update x_two [0; 0]
              (demo_world
                 (init (PyF (Fin (1 # 2))) 1 (Some [[Fin 0]]) None None
                       (Some [Fin 3]) (Some [Fin (1 # 100)])) [])
       = Raised AttributeError w'
       /\ trace w' = [].
Proof.
  split; [reflexivity|].
  destruct (@update_needs_set_priors demo_base x_two [0; 0]
              (demo_world
                 (init (PyF (Fin (1 # 2))) 1 (Some [[Fin 0]]) None None
                       (Some [Fin 3]) (Some [Fin (1 # 100)])) [])
              eq_refl)
    as (e & w' & E & _ & Ht & _ & Ha).
  exists w'. split; [|exact Ht].
  rewrite <- (Ha _ _ _ _ _ eq_refl eq_refl eq_refl ltac:(simpl; lia)).
  exact E.
Defined.

Section UpdateCounts.
Context `{B : BGMM_base} `{L : LinAlg}.
Import RedimensionFacts.

(** The base class update leaves the cluster count and the prior
    hyperparameters alone, whether it returns or raises. *)
Hypothesis base_update_frame : forall s g x z,
  let s' := fst (state_of (BGMM_update s g x z)) in
  k s' = k s
  /\ prior_means s' = prior_means s
  /\ prior_dof s' = prior_dof s
  /\ prior_shrinkage s' = prior_shrinkage s
  /\ _dets s' = _dets s
  /\ _inv_prior_scale s' = _inv_prior_scale s.

(** X11.  The priors follow the cluster count.  After [set_priors], let
    [update] be called any number of times, the cluster count being set to
    some value >= 1 before each call (as [reduce] does): after the last call
    each of the five arrays holds as many copies of the row stored by
    [set_priors] as the count of that call. *)
Theorem update_priors_follow_cluster_count (s0 s1 : IMM) (x0 : matrix)
  (w : world) (calls : list (Z * matrix * list Z)) :
  set_priors x0 s0 = Ok tt s1 ->
  self w = s1 ->
  calls <> [] ->
  Forall (fun call => 1 <= fst (fst call)) calls ->
  exists c,
    canon_of s1 = Some c
    /\ k (self (run_updates_at calls w)) = fst (fst (last calls (0, [], [])))
    /\ replicated c (Z.to_nat (k (self (run_updates_at calls w))))
                  (self (run_updates_at calls w)).
Proof.
  intros Hset Hw Hne Hall.
  destruct (set_priors_canon s0 s1 x0 Hset) as (_ & _ & c & Hc).
  exists c. split; [exact Hc|].
  pose proof (canon_replicated_once s1 c Hc) as H1. rewrite <- Hw in H1.
  destruct (@update_keeps_priors_across_counts B base_update_frame c calls w 1
              H1 (le_n 1) Hall) as (n' & Hn' & Hr & Hq).
  specialize (Hq Hne). rewrite <- Hq, Nat2Z.id.
  split; [|exact Hr].
  rewrite Hq. clear - Hne Hall base_update_frame.
  revert w. induction calls as [|[[kk x] z] rest IH]; intros w; [congruence|].
  inversion Hall as [|? ? Hkk Hrest]; subst.
  destruct rest as [|c' rest'].
  - simpl.
    pose proof (keeps_on_self_field k _ redimension_keeps_k
                  (with_self w (set_k (self w) kk))) as Hk1.
    unfold update.
    destruct (on_self redimension_priors (with_self w (set_k (self w) kk)))
      as [u w1|e w1] eqn:E1; simpl in Hk1.
    + rewrite (bind_ok _ _ _ _ _ E1). unfold bindO, modify.
      cbn [self with_trace rng].
      pose proof (base_update_frame (self w1) (rng w1) x z) as Hf.
      destruct (BGMM_update (self w1) (rng w1) x z) as [u2 [s g]|e [s g]];
        simpl in Hf |- *; destruct Hf as (F0 & _); congruence.
    + rewrite (bind_raised _ _ _ _ _ E1). simpl. exact Hk1.
  - change (run_updates_at ((kk, x, z) :: c' :: rest') w)
      with (run_updates_at (c' :: rest')
              (state_of (update x z (with_self w (set_k (self w) kk))))).
    rewrite IH by (try discriminate; exact Hrest). reflexivity.
Qed.

(** X12.  An [update] made while the cluster count is 0 empties the prior
    arrays, and the rows are lost: whatever count (>= 0) is set afterwards,
    the next [update] raises IndexError on [self.prior_dof[0]] without
    reaching the base update, until [set_priors] is called again. *)
Theorem update_after_empty_update_raises (c : canon_rows) (w : world)
  (x x' : matrix) (z z' : list Z) (kk : Z) :
  canon_of (self w) = Some c ->
  k (self w) = 0 ->
  0 <= kk ->
  let w1 := state_of (update x z w) in
  exists w2,
    update x' z' (with_self w1 (set_k (self w1) kk)) = Raised IndexError w2
    /\ trace w2 = trace w1
    /\ heap w2 = heap w1.
Proof.
  intros Hc Hk Hkk w1.
  pose proof (canon_replicated_once (self w) c Hc) as H1.
  destruct (@update_replicates B base_update_frame c 1 w x z H1
              ltac:(lia) ltac:(discriminate)) as [Hr _].
  rewrite Hk in Hr. fold w1 in Hr. destruct Hr as (R1 & R2 & _).
  destruct (redimension_no_rows (set_k (self w1) kk) R1 R2 Hkk) as [s' E].
  exists (with_self (with_self w1 (set_k (self w1) kk)) s').
  split; [|split; reflexivity].
  now apply update_stops_early.
Qed.

End UpdateCounts.

(** Priors set from two points, then an update with three clusters and one
    with a single cluster: one copy of each row is left. *)
Lemma update_priors_follow_cluster_count_witness :
  set_priors x_two imm_k2 = Ok tt imm_k2_priors
  /\ [(3, x_two, [0; 1]); (1, x_two, [0; 0])] <> []
  /\ Forall (fun call : Z * matrix * list Z => 1 <= fst (fst call))
            [(3, x_two, [0; 1]); (1, x_two, [0; 0])]
  /\ exists c,
       canon_of imm_k2_priors = Some c
       /\ k (self (run_updates_at [(3, x_two, [0; 1]); (1, x_two, [0; 0])]
                                  (demo_world imm_k2_priors []))) = 1.
Proof.
  assert (H1 : set_priors x_two imm_k2 = Ok tt imm_k2_priors)
    by (vm_compute; reflexivity).
  assert (H2 : [(3, x_two, [0; 1]); (1, x_two, [0; 0])] <> []) by discriminate.
  assert (H3 : Forall (fun call : Z * matrix * list Z => 1 <= fst (fst call))
                      [(3, x_two, [0; 1]); (1, x_two, [0; 0])])
    by (repeat constructor; simpl; lia).
  split; [exact H1|]. split; [exact H2|]. split; [exact H3|].
  destruct (@update_priors_follow_cluster_count demo_base diag_linalg
              demo_update_frame imm_k2 imm_k2_priors x_two
              (demo_world imm_k2_priors [])
              [(3, x_two, [0; 1]); (1, x_two, [0; 0])] H1 eq_refl H2 H3)
    as (c & Hc & Hk & _).
  exists c. split; [exact Hc|exact Hk].
Defined.

(** Priors set, the count put back to 0, one update, and then an update with
    two clusters. *)
Lemma update_after_empty_update_raises_witness :
  canon_of (self (demo_world (set_k imm_k2_priors 0) [])) = Some canon_two
  /\ k (self (demo_world (set_k imm_k2_priors 0) [])) = 0
  /\ 0 <= 2
  /\ exists w2,
       update x_two [0; 1]
         (with_self
            (state_of (update x_two [] (demo_world (set_k imm_k2_priors 0) [])))
            (set_k (self (state_of (update x_two []
                                      (demo_world (set_k imm_k2_priors 0) []))))
                   2))
       = Raised IndexError w2.
Proof.
  assert (H1 : canon_of (self (demo_world (set_k imm_k2_priors 0) []))
               = Some canon_two) by (vm_compute; reflexivity).
  assert (H2 : k (self (demo_world (set_k imm_k2_priors 0) [])) = 0)
    by reflexivity.
  assert (H3 : 0 <= 2) by lia.
  split; [exact H1|]. split; [exact H2|]. split; [exact H3|].
  destruct (@update_after_empty_update_raises demo_base demo_update_frame
              canon_two (demo_world (set_k imm_k2_priors 0) [])
              x_two x_two [] [0; 1] 2 H1 H2 H3) as (w2 & E & _).
  exists w2. exact E.
Defined.

(** ** likelihood: the columns of the returned matrix *)

Section LikelihoodColumns.
Context `{B : BGMM_base} `{P : PriorDensity}.
Import ReduceFacts.

(** X13.  For an object with [k > 0] clusters, a base likelihood of shape
    (n, k), [k + 1] weights and one prior value per point, [likelihood]
    returns, without changing anything, a matrix of shape (n, k + 1): column
    [c < k] of row [i] is the base likelihood times weight [c], and the last
    column is the prior likelihood of the point times the weight of the new
    cluster. *)
Theorem likelihood_appends_weighted_prior (x : matrix) (plike : vector)
  (w : world) :
  let ul := unweighted_likelihood (self w) x in
  let ws := weights (self w) in
  let kn := Z.to_nat (k (self w)) in
  0 < k (self w) ->
  length plike = length x ->
  length ul = length x ->
  Forall (fun row => length row = kn) ul ->
  length ws = S kn ->
  exists like,
    likelihood x (Some plike) w = Ok like w
    /\ length like = length x
    /\ forall i, (i < length x)%nat ->
         length (nth i like []) = S kn
         /\ (forall c, (c < kn)%nat ->
               nth c (nth i like []) NaN
               = NpFloat.mul (nth c (nth i ul []) NaN) (nth c ws NaN))
         /\ nth kn (nth i like []) NaN
            = NpFloat.mul (nth i plike NaN) (nth kn ws NaN).
Proof.
  intros ul ws kn Hk Hpl Hul Hrows Hws.
  assert (Hkn : (0 < kn)%nat) by (unfold kn; lia).
  set (m := map (fun p : list npfloat * npfloat => fst p ++ [snd p])
                (combine ul plike)).
  assert (Hm : hstack_col ul plike = Some m).
  { unfold hstack_col. rewrite Hul, Hpl, Nat.eqb_refl. reflexivity. }
  assert (Hml : length m = length x).
  { unfold m. rewrite length_map, length_combine. lia. }
  assert (Hmi : forall i, (i < length x)%nat ->
                  nth i m [] = nth i ul [] ++ [nth i plike NaN]).
  { intros i Hi. unfold m.
    rewrite (nth_map_lt _ _ i ([], NaN))
      by (rewrite length_combine; lia).
    rewrite combine_nth by lia. reflexivity. }
  assert (Hmr : forall row, In row m -> length row = length ws).
  { intros row Hin. destruct (In_nth _ _ [] Hin) as (i & Hi & <-).
    rewrite Hmi by lia. rewrite length_app, Hws. simpl.
    rewrite Forall_forall in Hrows. rewrite (Hrows (nth i ul []))
      by (apply nth_In; lia). lia. }
  set (scaled := map (fun row => map (fun p => NpFloat.mul (fst p) (snd p))
                                     (combine row ws)) m).
  assert (Hb : broadcast_mul_rows m ws = Some scaled).
  { unfold broadcast_mul_rows.
    assert (Hf : forallb (fun row => Nat.eqb (length row) (length ws)) m = true).
    { apply forallb_forall. intros row Hin. apply Nat.eqb_eq. auto. }
    destruct ws as [|a [|b t]] eqn:Ews; simpl in Hws; try lia.
    rewrite Hf. reflexivity. }
  exists scaled.
  split.
  { unfold likelihood, bindO, get, ret, expect. cbv zeta.
    rewrite Hpl, Nat.eqb_refl.
    rewrite (proj2 (Z.ltb_lt 0 (k (self w))) Hk).
    fold ul. rewrite Hm. unfold ret. cbv beta iota. fold ws.
    rewrite Hb. reflexivity. }
  split; [unfold scaled; now rewrite length_map|].
  intros i Hi.
  assert (Hrow : nth i scaled []
                 = map (fun p => NpFloat.mul (fst p) (snd p))
                       (combine (nth i ul [] ++ [nth i plike NaN]) ws)).
  { unfold scaled. rewrite (nth_map_lt _ _ i []) by lia.
    now rewrite Hmi. }
  assert (Hlu : length (nth i ul []) = kn).
  { rewrite Forall_forall in Hrows. apply Hrows, nth_In. lia. }
  assert (Hlr : length (nth i ul [] ++ [nth i plike NaN]) = S kn)
    by (rewrite length_app, Hlu; simpl; lia).
  rewrite Hrow.
  split; [rewrite length_map, length_combine; lia|].
  split.
  - intros c Hc.
    rewrite (nth_map_lt _ _ c (NaN, NaN)) by (rewrite length_combine; lia).
    rewrite combine_nth by lia. simpl.
    rewrite app_nth1 by lia. reflexivity.
  - rewrite (nth_map_lt _ _ kn (NaN, NaN)) by (rewrite length_combine; lia).
    rewrite combine_nth by lia. simpl.
    rewrite app_nth2 by lia. rewrite Hlu, Nat.sub_diag. reflexivity.
Qed.

End LikelihoodColumns.

(** Two points, two clusters, weights 1/2, 1/4, 1/4: the third column of the
    first row is the prior value 1.0 times 1/4. *)
Lemma likelihood_appends_weighted_prior_witness :
  0 < k (self w_weighted)
  /\ length plike_two = length x_two
  /\ length (@unweighted_likelihood demo_base (self w_weighted) x_two)
     = length x_two
  /\ Forall (fun row => length row = Z.to_nat (k (self w_weighted)))
            (@unweighted_likelihood demo_base (self w_weighted) x_two)
  /\ length (weights (self w_weighted)) = S (Z.to_nat (k (self w_weighted)))
  /\ exists like,
       likelihood x_two (Some plike_two) w_weighted = Ok like w_weighted
       /\ nth 2 (nth 0 like []) NaN = NpFloat.mul (Fin 1) (Fin (1 # 4)).
Proof.
  assert (H1 : 0 < k (self w_weighted)) by (vm_compute; reflexivity).
  assert (H2 : length plike_two = length x_two) by reflexivity.
  assert (H3 : length (@unweighted_likelihood demo_base (self w_weighted) x_two)
               = length x_two) by reflexivity.
  assert (H4 : Forall (fun row => length row = Z.to_nat (k (self w_weighted)))
                      (@unweighted_likelihood demo_base (self w_weighted) x_two))
    by (repeat constructor).
  assert (H5 : length (weights (self w_weighted))
               = S (Z.to_nat (k (self w_weighted)))) by reflexivity.
  split; [exact H1|]. split; [exact H2|]. split; [exact H3|].
  split; [exact H4|]. split; [exact H5|].
  destruct (@likelihood_appends_weighted_prior demo_base demo_density
              x_two plike_two w_weighted H1 H2 H3 H4 H5)
    as (like & E & _ & Hn).
  exists like. split; [exact E|].
  exact (proj2 (proj2 (Hn 0%nat ltac:(simpl; lia)))).
Defined.

(** ** update_weights: bounds and order of the weights *)

Module WeightOrder.

Lemma Qsum_nonneg (qs : list Q) :
  Forall (fun v => 0 <= v)%Q qs -> (0 <= Qsum qs)%Q.
Proof.
  induction 1 as [|h t Hh Ht IH]; simpl; [apply Qle_refl|].
  apply (Qle_trans _ (0 + 0)%Q); [discriminate|].
  now apply Qplus_le_compat.
Qed.

Lemma Qsum_member (qs : list Q) (q : Q) :
  Forall (fun v => 0 <= v)%Q qs -> In q qs -> (q <= Qsum qs)%Q.
Proof.
  induction 1 as [|h t Hh Ht IH]; intros Hin; [contradiction|].
  simpl. destruct Hin as [<-|Hin].
  - apply (Qle_trans _ (h + 0)%Q); [rewrite Qplus_0_r; apply Qle_refl|].
    apply Qplus_le_compat; [apply Qle_refl|now apply Qsum_nonneg].
  - apply (Qle_trans _ (0 + Qsum t)%Q); [rewrite Qplus_0_l; now apply IH|].
    apply Qplus_le_compat; [exact Hh|apply Qle_refl].
Qed.

End WeightOrder.

Section UpdateWeightsOrder.
Context `{B : BGMM_base}.
Import WeightFacts WeightOrder IntWeightFacts ReduceFacts.

(** The base class counts are never negative. *)
Hypothesis pop_nonneg : forall s z, Forall (fun c => 0 <= c) (pop s z).

Lemma slot_counts_nonneg (s : IMM) (z : list Z) :
  Forall (fun c => 0 <= c)%Q (slot_counts s z).
Proof.
  unfold slot_counts. apply Forall_map. apply Forall_app. split.
  - eapply Forall_impl; [|apply pop_nonneg]. cbv beta. intros c Hc.
    change 0%Q with (inject_Z 0). now rewrite <- Zle_Qle.
  - constructor; [apply Qle_refl|constructor].
Qed.

(** The float path. *)
Lemma float_weights_ordered (s : IMM) (z : list Z) (a : Q) :
  prior_weights s = Some [PyF (Fin a)] ->
  (0 < a)%Q ->
  exists s' ws,
    update_weights z s = Ok tt s'
    /\ weights s' = map Fin ws
    /\ length ws = length (slot_counts s z)
    /\ Forall (fun v => 0 <= v /\ v <= 1)%Q ws
    /\ (forall i j, (i < length ws)%nat -> (j < length ws)%nat ->
          (nth i (slot_counts s z) 0 <= nth j (slot_counts s z) 0)%Q ->
          (nth i ws 0 <= nth j ws 0)%Q)
    /\ Forall (fun v => last ws 0 <= v)%Q ws.
Proof.
  intros Hpw Ha.
  destruct (@update_weights_run B pop_nonneg s z a Hpw Ha)
    as (Hpos & t & Ht & Hrun).
  set (cs := slot_counts s z) in *.
  set (vs := map (fun c => c + a)%Q cs) in *.
  assert (Htpos : (0 < t)%Q) by now rewrite Ht.
  pose proof (slot_counts_nonneg s z) as Hcs. fold cs in Hcs.
  assert (Hvs : Forall (fun v => 0 < v)%Q vs).
  { unfold vs. apply Forall_map. eapply Forall_impl; [|exact Hcs].
    cbv beta. intros c Hc.
    apply (Qlt_le_trans _ (0 + a)%Q); [now rewrite Qplus_0_l|].
    now apply Qplus_le_l. }
  assert (Hvs0 : Forall (fun v => 0 <= v)%Q vs)
    by (eapply Forall_impl; [|exact Hvs]; intros; now apply Qlt_le_weak).
  assert (Hmono : forall i j, (i < length cs)%nat -> (j < length cs)%nat ->
            (nth i cs 0 <= nth j cs 0)%Q ->
            (nth i (map (fun v => v / t) vs) 0
             <= nth j (map (fun v => v / t) vs) 0)%Q).
  { intros i j Hi Hj Hle. unfold vs.
    rewrite !(nth_map_lt (fun v => v / t)%Q _ _ 0%Q) by now rewrite length_map.
    rewrite !(nth_map_lt (fun c => c + a)%Q _ _ 0%Q) by assumption.
    unfold Qdiv. apply Qmult_le_compat_r.
    - now apply Qplus_le_l.
    - apply Qinv_le_0_compat. now apply Qlt_le_weak. }
  exists (set_weights s (map (fun v => Fin (v / t)) vs)),
         (map (fun v => v / t)%Q vs).
  split; [exact Hrun|].
  split; [cbn [weights set_weights]; symmetry; apply map_map|].
  split; [unfold vs; now rewrite !length_map|].
  split; [|split].
  - apply Forall_map. apply Forall_forall. intros v Hv. split.
    + apply Qlt_le_weak, Qlt_shift_div_l; [exact Htpos|]. rewrite Qmult_0_l.
      rewrite Forall_forall in Hvs. now apply Hvs.
    + apply Qle_shift_div_r; [exact Htpos|]. rewrite Qmult_1_l, Ht.
      now apply Qsum_member.
  - intros i j Hi Hj. unfold vs in Hi, Hj. rewrite !length_map in Hi, Hj.
    now apply Hmono.
  - assert (Hlast : last (map (fun v => v / t)%Q vs) 0%Q
                    = ((inject_Z 0 + a) / t)%Q).
    { unfold vs, cs, slot_counts. rewrite !map_app. simpl. now rewrite last_last. }
    rewrite Hlast. apply Forall_map. unfold vs. apply Forall_map.
    eapply Forall_impl; [|exact Hcs]. cbv beta. intros c Hc.
    unfold Qdiv. apply Qmult_le_compat_r.
    + apply Qplus_le_l. exact Hc.
    + apply Qinv_le_0_compat. now apply Qlt_le_weak.
Qed.

(** The int path: the integer division keeps the bounds and the order. *)
Lemma int_weights_ordered (s : IMM) (z : list Z) (a : Z) :
  prior_weights s = Some [PyI a] ->
  1 <= a ->
  exists s' ws,
    update_weights z s = Ok tt s'
    /\ weights s' = map Fin ws
    /\ length ws = length (slot_counts s z)
    /\ Forall (fun v => 0 <= v /\ v <= 1)%Q ws
    /\ (forall i j, (i < length ws)%nat -> (j < length ws)%nat ->
          (nth i (slot_counts s z) 0 <= nth j (slot_counts s z) 0)%Q ->
          (nth i ws 0 <= nth j ws 0)%Q)
    /\ Forall (fun v => last ws 0 <= v)%Q ws.
Proof.
  intros Hpw Ha.
  set (cs := pop s z ++ [0]).
  set (w := map (fun c => c + a) cs).
  set (t := fold_left Z.add w 0).
  assert (Hcs : Forall (fun c => 0 <= c) cs).
  { unfold cs. apply Forall_app. split; [apply pop_nonneg|].
    constructor; [lia|constructor]. }
  assert (Hw : Forall (fun v => 1 <= v) w).
  { unfold w. apply Forall_map. eapply Forall_impl; [|exact Hcs].
    cbv beta. intros; lia. }
  assert (Hlen : (0 < length w)%nat)
    by (unfold w, cs; rewrite length_map, length_app; simpl; lia).
  assert (Hle : forall v, In v w -> 1 <= v <= t).
  { intros v Hv. pose proof (entry_below_sum w Hw v Hv) as Hb. fold t in Hb.
    rewrite Forall_forall in Hw. specialize (Hw v Hv). lia. }
  assert (Ht : 0 < t).
  { destruct w as [|v w'] eqn:Ew; [simpl in Hlen; lia|].
    specialize (Hle v (or_introl eq_refl)). lia. }
  exists (set_weights s (map (fun v => NpFloat.of_Z (v / t)) w)),
         (map (fun v => inject_Z (v / t)) w).
  split; [apply (update_weights_int_run s z a Hpw)|].
  split; [cbn [weights set_weights]; now rewrite map_map|].
  split; [unfold w, cs, slot_counts; now rewrite !length_map|].
  assert (Hmono : forall c1 c2, c1 <= c2 ->
            (inject_Z ((c1 + a) / t) <= inject_Z ((c2 + a) / t))%Q).
  { intros c1 c2 Hc. rewrite <- Zle_Qle. apply Z.div_le_mono; lia. }
  split; [|split].
  - apply Forall_map. apply Forall_forall. intros v Hv.
    specialize (Hle v Hv).
    change 0%Q with (inject_Z 0). change 1%Q with (inject_Z 1).
    rewrite <- !Zle_Qle. split.
    + apply Z.div_pos; lia.
    + apply Z.div_le_upper_bound; lia.
  - intros i j Hi Hj Hc. rewrite length_map in Hi, Hj.
    unfold w in Hi, Hj. rewrite length_map in Hi, Hj.
    unfold slot_counts in Hc. fold cs in Hc.
    rewrite !(nth_map_lt inject_Z cs _ 0 0%Q) in Hc by assumption.
    rewrite <- Zle_Qle in Hc.
    unfold w. rewrite map_map.
    rewrite !(nth_map_lt (fun c => inject_Z ((c + a) / t)) cs _ 0 0%Q)
      by assumption.
    now apply Hmono.
  - assert (Hlast : last (map (fun v => inject_Z (v / t)) w) 0%Q
                    = inject_Z ((0 + a) / t)).
    { unfold w, cs. rewrite !map_app. simpl. now rewrite last_last. }
    rewrite Hlast. unfold w. rewrite map_map. apply Forall_map.
    eapply Forall_impl; [|exact Hcs]. cbv beta. intros c Hc.
    now apply Hmono.
Qed.

(** X14.  With the one-entry prior weight [[alpha]], [alpha] an int >= 1 or
    a finite float > 0, every weight left by [update_weights] lies in [0, 1],
    and the weights are ordered like the counts of their slots: a cluster
    with no more points than another has no larger weight.  In particular the
    new cluster, whose count is 0, has the smallest weight. *)
Theorem update_weights_ordered_like_counts (s : IMM) (z : list Z)
  (al : pyscalar) :
  prior_weights s = Some [al] ->
  positive_concentration al ->
  exists s' ws,
    update_weights z s = Ok tt s'
    /\ weights s' = map Fin ws
    /\ length ws = length (slot_counts s z)
    /\ Forall (fun v => 0 <= v /\ v <= 1)%Q ws
    /\ (forall i j, (i < length ws)%nat -> (j < length ws)%nat ->
          (nth i (slot_counts s z) 0 <= nth j (slot_counts s z) 0)%Q ->
          (nth i ws 0 <= nth j ws 0)%Q)
    /\ Forall (fun v => last ws 0 <= v)%Q ws.
Proof.
  intros Hpw Hal. destruct al as [a|[a| | |]]; simpl in Hal; try contradiction.
  - exact (int_weights_ordered s z a Hpw Hal).
  - exact (float_weights_ordered s z a Hpw Hal).
Qed.

End UpdateWeightsOrder.

(** Two clusters, labels 0, 0, 1, 5: with the float concentration 1/2 the
    counts 2, 1, 0 give the weights 5/9, 3/9, 1/9; with the int concentration
    1 they give 0, 0, 0. *)
Lemma update_weights_ordered_like_counts_witness :
  prior_weights imm_int_alpha = Some [PyI 1]
  /\ positive_concentration (PyI 1)
  /\ exists s' ws,
       update_weights [0; 0; 1; 5] imm_int_alpha = Ok tt s'
       /\ weights s' = map Fin ws
       /\ Forall (fun v => 0 <= v /\ v <= 1)%Q ws.
Proof.
  assert (H2 : prior_weights imm_int_alpha = Some [PyI 1]) by reflexivity.
  assert (H3 : positive_concentration (PyI 1)) by (simpl; lia).
  split; [exact H2|]. split; [exact H3|].
  destruct (@update_weights_ordered_like_counts demo_base demo_pop_nonneg
              imm_int_alpha [0; 0; 1; 5] (PyI 1) H2 H3)
    as (s' & ws & E & Hw & _ & Hb & _).
  exists s', ws. auto.
Defined.

(** ** The likelihood under the prior, point by point *)

Module PriorLikePoints.
Import PriorLike PriorLikeFacts.
Local Open Scope R_scope.

Lemma update_at_same (i : nat) (f : R -> R) (w : list R) (d : R) :
  (i < length w)%nat -> nth i (update_at i f w) d = f (nth i w d).
Proof.
  revert i. induction w as [|h t IH]; intros i Hi; simpl in Hi; [lia|].
  destruct i as [|i]; simpl; [reflexivity|]. apply IH. lia.
Qed.

Lemma update_at_other (i j : nat) (f : R -> R) (w : list R) (d : R) :
  i <> j -> nth j (update_at i f w) d = nth j w d.
Proof.
  revert i j. induction w as [|h t IH]; intros i j Hij; [destruct i; reflexivity|].
  destruct i as [|i]; destruct j as [|j]; simpl; try reflexivity; try lia.
  apply IH. lia.
Qed.

Section Points.
Context `{Lib : RealLib}.

Lemma point_loop_snoc (a : pynum) (ib : rmatrix) (tau : R) (m : list R)
  (x : list (list R)) (l : list nat) (i : nat) (w : list R) :
  point_loop a ib tau m x (l ++ [i]) w
  = match point_loop a ib tau m x l w with
    | Some w1 =>
        match np_log (real_det (point_matrix ib tau m x i)) with
        | Some lg => Some (update_at i (fun wi => wi - to_R (add_int a 1) * lg) w1)
        | None => None
        end
    | None => None
    end.
Proof. unfold point_loop. now rewrite fold_left_app. Qed.

(** The in-place loop, entry by entry: after the first [n] rounds, entry
    [i < n] has lost [(a+1)] times the logarithm of its own determinant, and
    the later entries are as they were. *)
Lemma point_loop_prefix (a : pynum) (ib : rmatrix) (tau : R) (m : list R)
  (x : list (list R)) (w : list R) :
  forall (n : nat) (w1 : list R),
    point_loop a ib tau m x (seq 0 n) w = Some w1 ->
    length w1 = length w
    /\ forall i,
         ((i < n)%nat -> (i < length w)%nat ->
          exists lg, np_log (real_det (point_matrix ib tau m x i)) = Some lg
                     /\ nth i w1 0 = nth i w 0 - to_R (add_int a 1) * lg)
         /\ ((n <= i)%nat -> nth i w1 0 = nth i w 0).
Proof.
  induction n as [|n IH]; intros w1 E.
  - injection E as <-. split; [reflexivity|]. intros i. split; [lia|reflexivity].
  - rewrite seq_S, point_loop_snoc in E. simpl in E.
    destruct (point_loop a ib tau m x (seq 0 n) w) as [w0|]; [|discriminate].
    destruct (IH w0 eq_refl) as [Hl Hn].
    destruct (np_log (real_det (point_matrix ib tau m x n))) as [lg|] eqn:El;
      [|discriminate].
    injection E as <-.
    split; [now rewrite update_at_length|].
    intros i. split.
    + intros Hi Hw. destruct (Nat.eq_dec i n) as [->|Hne].
      * exists lg. split; [exact El|].
        rewrite update_at_same by lia.
        now rewrite (proj2 (Hn n) (le_n n)).
      * rewrite update_at_other by lia. apply (proj1 (Hn i)); lia.
    + intros Hi. rewrite update_at_other by lia. apply (proj2 (Hn i)). lia.
Qed.

(** X15.  [likelihood_under_the_prior] works point by point: when it returns
    on an array of points, it returns one value per point, and the value of
    point [i] is the one the method returns for that point alone.  (This is
    what lets [cross_validated_update] pass [plike[test]] along with
    [x[test]].) *)
Theorem likelihood_under_the_prior_pointwise (self : priors)
  (x : list (list R)) (w : list R) :
  likelihood_under_the_prior self x = Returned w ->
  length w = length x
  /\ forall i, (i < length x)%nat ->
       likelihood_under_the_prior self [nth i x []] = Returned [nth i w 0].
Proof.
  unfold likelihood_under_the_prior.
  destruct (prior_dof self) as [|a ?]; [discriminate|].
  destruct (prior_shrinkage self) as [|tau0 ?]; [discriminate|].
  destruct (prior_means self) as [|m ?]; [discriminate|].
  destruct (prior_scale self) as [|b0 ?]; [discriminate|].
  cbv zeta.
  destruct (scalar_part (dim self) a (tau0 / (1 + tau0)) b0) as [sw|];
    [|discriminate].
  destruct (point_loop a (real_inv b0) (tau0 / (1 + tau0)) m x
              (seq 0 (length x)) (map (fun _ => sw * 1) (seq 0 (length x))))
    as [w1|] eqn:Ep; [|discriminate].
  intros E. injection E as <-.
  destruct (point_loop_prefix _ _ _ _ _ _ _ _ Ep) as [Hl Hn].
  rewrite length_map, length_seq in Hl.
  split; [now rewrite !length_map|].
  intros i Hi.
  destruct (proj1 (Hn i) Hi ltac:(now rewrite length_map, length_seq))
    as (lg & Elg & Ei).
  rewrite (MaskFacts.nth_map_seq (fun _ => sw * 1) 0 (length x) i Hi) in Ei.
  unfold point_loop. simpl.
  change (point_matrix (real_inv b0) (tau0 / (1 + tau0)) m [nth i x []] 0)
    with (point_matrix (real_inv b0) (tau0 / (1 + tau0)) m x i).
  rewrite Elg. simpl. do 2 f_equal.
  rewrite (ReduceFacts.nth_map_lt exp _ i 0) by (rewrite length_map; lia).
  rewrite (ReduceFacts.nth_map_lt (fun wi => wi / 2) _ i 0) by lia.
  now rewrite Ei.
Qed.

End Points.

(** One dimension, the int dof 3 that [set_priors] stores, two points. *)
Lemma likelihood_under_the_prior_pointwise_witness :
  exists w,
    @likelihood_under_the_prior one_dim_lib priors_1d [[1]; [2]] = Returned w
    /\ @likelihood_under_the_prior one_dim_lib priors_1d [[2]]
       = Returned [nth 1 w 0].
Proof.
  destruct likelihood_under_the_prior_positive_at_two_points
    as (_ & _ & w & E & _).
  exists w. split; [exact E|].
  exact (proj2 (@likelihood_under_the_prior_pointwise one_dim_lib priors_1d
                  [[1]; [2]] w E) 1%nat ltac:(simpl; lia)).
Defined.

End PriorLikePoints.

(** ** set_priors starts afresh *)

Section SetPriorsAgain.
Context `{L : LinAlg}.

(** X17.  [set_priors] computes the priors from the data, [self.dim] and
    [self.alpha] alone.  If it returns on one object, it returns on any
    object with the same [dim] and [alpha], whatever that object holds as
    priors (nothing, rows re-dimensioned by [update], or no row at all); it
    leaves the same prior means, dof, shrinkage, weights, scale and caches,
    and does not touch [self.k] or [self.weights]. *)
Theorem set_priors_starts_afresh (s s' s1 : IMM) (x : matrix) :
  dim s' = dim s ->
  alpha s' = alpha s ->
  set_priors x s = Ok tt s1 ->
  exists s1',
    set_priors x s' = Ok tt s1'
    /\ canon_of s1' = canon_of s1
    /\ prior_weights s1' = prior_weights s1
    /\ prior_scale s1' = prior_scale s1
    /\ k s1' = k s'
    /\ weights s1' = weights s'.
Proof.
  intros Hd Ha.
  unfold set_priors, bindO, get, modify, expect, ret, raise.
  cbn [dim alpha set_prior_means set_prior_weights set_prior_scale
       set_prior_dof set_prior_shrinkage set_dets].
  rewrite Hd.
  destruct (forallb _ x); [|discriminate].
  match goal with |- context [inv ?m] => destruct (inv m) end; [|discriminate].
  intros E. injection E as <-.
  eexists. split; [reflexivity|].
  unfold canon_of. simpl. rewrite ?Hd, ?Ha. auto 10.
Qed.

End SetPriorsAgain.

(** The object whose prior rows were lost by an update with no cluster gets
    its rows back from [set_priors]. *)
Lemma set_priors_starts_afresh_witness :
  dim imm_lost = dim imm_k2
  /\ alpha imm_lost = alpha imm_k2
  /\ set_priors x_two imm_k2 = Ok tt imm_k2_priors
  /\ prior_means imm_lost = Some []
  /\ exists s1',
       set_priors x_two imm_lost = Ok tt s1'
       /\ canon_of s1' = canon_of imm_k2_priors.
Proof.
  assert (H1 : dim imm_lost = dim imm_k2) by reflexivity.
  assert (H2 : alpha imm_lost = alpha imm_k2) by reflexivity.
  assert (H3 : set_priors x_two imm_k2 = Ok tt imm_k2_priors)
    by (vm_compute; reflexivity).
  split; [exact H1|]. split; [exact H2|]. split; [exact H3|].
  split; [vm_compute; reflexivity|].
  destruct (@set_priors_starts_afresh diag_linalg imm_k2 imm_lost imm_k2_priors
              x_two H1 H2 H3) as (s1' & E & Hc & _).
  exists s1'. split; [exact E|exact Hc].
Defined.

(** ** Edge cases: no fold, and the new object *)

Section EdgeCases.
Context `{B : BGMM_base} `{P : PriorDensity}.

(** X18.  A fold count that is not positive is not refused.  With 0 folds the
    division [n_samples/k] raises ZeroDivisionError; with a negative count
    the loop body never runs and the call returns the initial scores, 0.0
    for every point.  In both cases the permutation has been drawn, and the
    object, the labels and the log of base updates are as before. *)
Theorem cv_nonpositive_fold_count (x : matrix) (zr : ref) (plike : vector)
  (nfolds : Z) (w : world) :
  nfolds <= 0 ->
  exists w',
    cross_validated_update x zr plike nfolds w
    = (if nfolds =? 0 then Raised ZeroDivisionError w'
       else Ok (repeat NpFloat.zero (length x)) w')
    /\ rng w' = snd (argsort_rand (rng w) (length x))
    /\ self w' = self w /\ heap w' = heap w /\ trace w' = trace w.
Proof.
  intros Hn. rewrite cross_validated_update_unfold. cbv zeta.
  exists (with_rng w (snd (argsort_rand (rng w) (length x)))).
  split; [|auto].
  destruct (nfolds =? 0) eqn:E; [reflexivity|].
  apply Z.eqb_neq in E.
  replace (Z.to_nat nfolds) with 0%nat by lia. reflexivity.
Qed.

(** X19.  On an object as the constructor leaves it ([self.k = 0], weights
    [[1]]), [likelihood] returns the prior likelihood as a single column,
    value for value (multiplying by the weight 1 changes no float, finite or
    not), and changes nothing. *)
Theorem likelihood_of_new_object (a : pyscalar) (d : nat)
  (pm : option matrix) (pw : option (list pyscalar))
  (ps : option (list matrix))
  (pd psh : option vector) (x : matrix) (plike : vector) (w : world) :
  self w = init a d pm pw ps pd psh ->
  length plike = length x ->
  likelihood x (Some plike) w = Ok (map (fun v => [v]) plike) w.
Proof.
  intros Hs Hl. unfold likelihood, bindO, get, ret, expect. cbv zeta.
  rewrite Hl, Nat.eqb_refl, Hs. simpl.
  rewrite map_map. simpl.
  rewrite (map_ext (fun v => [NpFloat.mul v NpFloat.one]) (fun v => [v]))
    by (intros v; now rewrite PriorFacts.mul_one).
  reflexivity.
Qed.

End EdgeCases.

Lemma cv_nonpositive_fold_count_witness :
  -2 <= 0
  /\ exists w',
       cross_validated_update x10 0%nat plike10 (-2) w10
       = Ok (repeat NpFloat.zero 10) w'
       /\ trace w' = trace w10.
Proof.
  assert (H1 : -2 <= 0) by lia.
  split; [exact H1|].
  destruct (@cv_nonpositive_fold_count demo_base demo_density
              x10 0%nat plike10 (-2) w10 H1) as (w' & E & _ & _ & _ & Ht).
  exists w'. split; [exact E|exact Ht].
Defined.

Lemma likelihood_of_new_object_witness :
  self (demo_world (fresh (Fin (1 # 2)) 1) [])
  = init (PyF (Fin (1 # 2))) 1 None None None None None
  /\ length [Fin (1 # 3); PInf] = length x_two
  /\ likelihood x_two (Some [Fin (1 # 3); PInf])
                (demo_world (fresh (Fin (1 # 2)) 1) [])
     = Ok [[Fin (1 # 3)]; [PInf]] (demo_world (fresh (Fin (1 # 2)) 1) []).
Proof.
  assert (H1 : self (demo_world (fresh (Fin (1 # 2)) 1) [])
               = init (PyF (Fin (1 # 2))) 1 None None None None None) by reflexivity.
  assert (H2 : length [Fin (1 # 3); PInf] = length x_two) by reflexivity.
  split; [exact H1|]. split; [exact H2|].
  exact (@likelihood_of_new_object demo_base demo_density
           (PyF (Fin (1 # 2))) 1%nat None None None None None
           x_two [Fin (1 # 3); PInf] _ H1 H2).
Defined.

(** ** update after set_priors: only the base class can fail *)

Module RedimensionRuns.
Import PriorFacts RedimensionFacts.

(** With at least one row in each of the five arrays and a cluster count
    [k >= 0], the re-dimensioning completes: [k] copies of each row, and
    means and precisions zeroed at the shapes (k, dim) and (k, dim, dim). *)
Lemma redimension_ok (c : canon_rows) (n : nat) (s : IMM) :
  replicated c n s ->
  (1 <= n)%nat ->
  0 <= k s ->
  exists s1,
    redimension_priors s = Ok tt s1
    /\ replicated c (Z.to_nat (k s)) s1
    /\ means s1 = Mat.zeros2 (Z.to_nat (k s)) (dim s)
    /\ precisions s1 = repeat (Mat.zeros2 (dim s) (dim s)) (Z.to_nat (k s))
    /\ k s1 = k s /\ dim s1 = dim s /\ weights s1 = weights s
    /\ alpha s1 = alpha s /\ prior_weights s1 = prior_weights s
    /\ prior_scale s1 = prior_scale s.
Proof.
  intros (H1 & H2 & H3 & H4 & H5) Hn Hk.
  destruct n as [|n]; [lia|].
  unfold redimension_priors, bindO, get, modify, expect, ret, raise. fields.
  rewrite H1, (repeat0_first _ (S n) (k s) Hk ltac:(discriminate)). fields.
  rewrite H2. cbn [repeat hd_error]. rewrite (times_ones_some _ _ Hk). fields.
  rewrite H3. cbn [repeat hd_error]. rewrite (times_ones_some _ _ Hk). fields.
  rewrite H4. cbn [repeat hd_error]. rewrite (times_ones_some _ _ Hk). fields.
  rewrite H5, (repeat0_first _ (S n) (k s) Hk ltac:(discriminate)). fields.
  rewrite (zeros_kd_some _ _ Hk), (zeros_kdd_some _ _ Hk).
  eexists. split; [reflexivity|].
  unfold replicated. simpl. auto 20.
Qed.

End RedimensionRuns.

Section UpdateReachesBase.
Context `{B : BGMM_base}.
Import RedimensionRuns.

(** X20.  Once the priors are in place (at least one row in each of the five
    arrays, as after [set_priors]) and [self.k >= 0], [update] itself never
    raises: it re-dimensions the priors to [k] rows, zeroes means and
    precisions at the shapes (k, dim) and (k, dim, dim), calls the base
    update exactly once with its own arguments, and returns or raises as
    that call does. *)
Theorem update_fails_only_in_base (c : canon_rows) (n : nat) (w : world)
  (x : matrix) (z : list Z) :
  replicated c n (self w) ->
  (1 <= n)%nat ->
  0 <= k (self w) ->
  exists s1,
    replicated c (Z.to_nat (k (self w))) s1
    /\ means s1 = Mat.zeros2 (Z.to_nat (k (self w))) (dim (self w))
    /\ precisions s1
       = repeat (Mat.zeros2 (dim (self w)) (dim (self w)))
                (Z.to_nat (k (self w)))
    /\ k s1 = k (self w)
    /\ weights s1 = weights (self w)
    /\ trace (state_of (update x z w))
       = trace w ++ [BaseCall (k (self w)) x z]
    /\ heap (state_of (update x z w)) = heap w
    /\ match BGMM_update s1 (rng w) x z, update x z w with
       | Ok _ (s, g), Ok _ w' => self w' = s /\ rng w' = g
       | Raised e (s, g), Raised e' w' => e' = e /\ self w' = s /\ rng w' = g
       | _, _ => False
       end.
Proof.
  intros Hrep Hn Hk.
  destruct (redimension_ok c n (self w) Hrep Hn Hk)
    as (s1 & E & Hr & Hm & Hp & Hk1 & Hd1 & Hw1 & _).
  exists s1. repeat (split; [assumption|]).
  unfold update.
  assert (E1 : on_self redimension_priors w = Ok tt (with_self w s1))
    by (unfold on_self; now rewrite E).
  rewrite (bind_ok _ _ _ _ _ E1). unfold bindO, modify.
  cbn [self with_trace with_self rng trace heap]. rewrite Hk1.
  destruct (BGMM_update s1 (rng w) x z) as [u [s g]|e [s g]]; simpl; auto.
Qed.

End UpdateReachesBase.

(** Priors set from two points, two clusters: the update reaches the base
    class, which is logged with the count 2. *)
Lemma update_fails_only_in_base_witness :
  replicated canon_two 1 (self w_two)
  /\ (1 <= 1)%nat
  /\ 0 <= k (self w_two)
  /\ trace (state_of (update x_two [0; 1] w_two))
     = trace w_two ++ [BaseCall (k (self w_two)) x_two [0; 1]].
Proof.
  assert (H1 : replicated canon_two 1 (self w_two))
    by (unfold replicated; repeat split; vm_compute; reflexivity).
  assert (H2 : (1 <= 1)%nat) by lia.
  assert (H3 : 0 <= k (self w_two)) by (vm_compute; discriminate).
  split; [exact H1|]. split; [exact H2|]. split; [exact H3|].
  destruct (@update_fails_only_in_base demo_base canon_two 1 w_two x_two [0; 1]
              H1 H2 H3) as (s1 & _ & _ & _ & _ & _ & Ht & _).
  exact Ht.
Defined.

(** ** The first sweep: one cluster per point *)

Module AlreadyCompact.
Import Numpy ReduceFacts.

Lemma unique_sorted_id (u : list Z) :
  StronglySorted Z.lt u -> unique u = u.
Proof.
  induction 1 as [|h t Hs IH Hh]; [reflexivity|].
  unfold unique in *. simpl. rewrite IH.
  destruct t as [|h' t']; [reflexivity|]. simpl.
  inversion Hh as [|? ? Hlt _]; subst.
  now rewrite (proj2 (Z.ltb_lt h h') Hlt).
Qed.

Lemma arange_sorted (n : nat) : StronglySorted Z.lt (arange n).
Proof.
  unfold arange. generalize 0%nat.
  induction n as [|n IH]; intros a; simpl; constructor; [apply IH|].
  apply Forall_map, Forall_forall. intros p Hp. apply in_seq in Hp. lia.
Qed.

Lemma arange_nth (n i : nat) : (i < n)%nat -> nth i (arange n) 0 = Z.of_nat i.
Proof. intros Hi. unfold arange. now apply MaskFacts.nth_map_seq. Qed.

Lemma arange_length (n : nat) : length (arange n) = n.
Proof. unfold arange. now rewrite length_map, length_seq. Qed.

(** Labels that are already 0, ..., n-1 are left as they are by the loop of
    [reduce]. *)
Lemma reduce_loop_arange (n : nat) : reduce_loop (arange n) = arange n.
Proof.
  assert (Hz : Forall (fun v => 0 <= v) (arange n)).
  { apply Forall_forall. intros v Hv. unfold arange in Hv.
    apply in_map_iff in Hv. destruct Hv as (p & <- & _). lia. }
  apply nth_ext with (d := 0) (d' := 0); [apply reduce_loop_length|].
  intros i Hi. rewrite reduce_loop_length, arange_length in Hi.
  destruct (reduce_loop_rank (arange n) Hz i ltac:(now rewrite arange_length))
    as [Hr He].
  rewrite (unique_sorted_id _ (arange_sorted n)) in Hr, He.
  rewrite arange_length in Hr.
  apply nth_error_nth with (d := 0) in He.
  rewrite arange_nth in He by lia. rewrite arange_nth in He by lia.
  rewrite arange_nth by lia. lia.
Qed.

End AlreadyCompact.

Section FirstSweep.
Context `{B : BGMM_base} `{P : PriorDensity}.
Import Numpy AlreadyCompact RedimensionRuns.

(** The base draw returns one column index per row of the matrix. *)
Hypothesis draw_length : forall s g like,
  length (fst (BGMM_sample_indicator s g like)) = length like.
Hypothesis draw_range : forall s g like c,
  (0 < c)%nat ->
  Forall (fun row => length row = c) like ->
  Forall (fun d => 0 <= d < Z.of_nat c) (fst (BGMM_sample_indicator s g like)).

(** With the priors in place [update] logs its call of the base update. *)
Lemma update_logs_call (c : canon_rows) (n : nat) (w : world)
  (x : matrix) (z : list Z) :
  replicated c n (self w) -> (1 <= n)%nat -> 0 <= k (self w) ->
  trace (state_of (update x z w)) = trace w ++ [BaseCall (k (self w)) x z].
Proof.
  intros Hrep Hn Hk.
  destruct (redimension_ok c n (self w) Hrep Hn Hk) as (s1 & E & _ & _ & _ & Hk1 & _).
  unfold update.
  assert (E1 : on_self redimension_priors w = Ok tt (with_self w s1))
    by (unfold on_self; now rewrite E).
  rewrite (bind_ok _ _ _ _ _ E1). unfold bindO, modify.
  cbn [self with_trace with_self rng trace]. rewrite Hk1.
  destruct (BGMM_update s1 (rng w) x z) as [u [s g]|e [s g]]; reflexivity.
Qed.

(** X21.  The first sweep starts from singletons.  On an object with priors
    set, no cluster yet ([self.k = 0]) and a single weight, [simple_update] on
    n >= 1 points draws the labels 0, ..., n-1, sets [self.k = n] and calls
    the base update once, with the whole data and one cluster per point. *)
Theorem simple_update_first_sweep (c : canon_rows) (n0 : nat) (w : world)
  (x : matrix) (zr : ref) (plike : vector) (w0 : npfloat) :
  k (self w) = 0 ->
  weights (self w) = [w0] ->
  replicated c n0 (self w) ->
  (1 <= n0)%nat ->
  x <> [] ->
  length plike = length x ->
  trace (state_of (simple_update x zr plike w))
  = trace w ++ [BaseCall (Z.of_nat (length x)) x (arange (length x))].
Proof.
  intros Hk Hw Hrep Hn0 Hx Hpl.
  set (like := map (fun v : npfloat => [NpFloat.mul v w0]) plike).
  assert (El : likelihood x (Some plike) w = Ok like w).
  { unfold likelihood, bindO, get, ret, expect. cbv zeta.
    rewrite Hpl, Nat.eqb_refl, Hk, Hw. simpl. now rewrite map_map. }
  assert (Hcols : Forall (fun row => length row = 1%nat) like)
    by (unfold like; apply Forall_map, Forall_forall; intros; reflexivity).
  assert (Hll : length like = length x) by (unfold like; now rewrite length_map).
  pose proof (first_draw_labels draw_length draw_range w like Hk Hcols) as Es.
  rewrite Hll in Es.
  set (w1 := with_rng w (snd (BGMM_sample_indicator (self w) (rng w) like))) in *.
  set (n := length x) in *.
  assert (Hnpos : (0 < n)%nat) by (unfold n; destruct x; [congruence|simpl; lia]).
  unfold simple_update.
  rewrite (bind_ok _ _ _ _ _ El), (bind_ok _ _ _ _ _ Es).
  rewrite (bind_ok _ _ _ _ _ (alloc_ok _ _)).
  set (w2 := with_heap w1 (heap w1 ++ [arange n])).
  assert (Hc : nth_error (heap w2) (length (heap w1)) = Some (arange n))
    by (simpl; rewrite nth_error_app2, Nat.sub_diag by lia; reflexivity).
  assert (Hne : arange n <> [])
    by (intros E; apply (f_equal (@length Z)) in E;
        rewrite arange_length in E; simpl in E; lia).
  assert (Hz : Forall (fun v => 0 <= v) (arange n)).
  { apply Forall_forall. intros v Hv. unfold arange in Hv.
    apply in_map_iff in Hv. destruct Hv as (p & <- & _). lia. }
  rewrite (bind_ok _ _ _ _ _
             (@reduce_run B w2 (length (heap w1)) (arange n) Hc Hne Hz)).
  rewrite reduce_loop_arange, (unique_sorted_id _ (arange_sorted n)),
    arange_length.
  set (w3 := with_self _ _).
  assert (Hc3 : nth_error (heap w3) (length (heap w1)) = Some (arange n)).
  { simpl. apply StoreFacts.store_set_same. rewrite length_app. simpl. lia. }
  rewrite (bind_ok _ _ _ _ _ (read_some _ _ _ Hc3)).
  assert (Hrep3 : replicated c n0 (self w3)) by exact Hrep.
  assert (Hk3 : 0 <= k (self w3)) by (simpl; lia).
  pose proof (update_logs_call c n0 w3 x (arange n) Hrep3 Hn0 Hk3) as Ht.
  replace (k (self w3)) with (Z.of_nat n) in Ht by (simpl; lia).
  destruct (update x (arange n) w3) as [u w5|e w5] eqn:Eu;
    [rewrite (bind_ok _ _ _ _ _ Eu)|rewrite (bind_raised _ _ _ _ _ Eu)];
    simpl in Ht |- *; exact Ht.
Qed.

End FirstSweep.

(** Two points, priors set, no cluster: the base update is called with two
    clusters and the labels 0 and 1. *)
Lemma simple_update_first_sweep_witness :
  k (self (demo_world (set_k imm_k2_priors 0) [])) = 0
  /\ weights (self (demo_world (set_k imm_k2_priors 0) [])) = [NpFloat.one]
  /\ replicated canon_two 1 (self (demo_world (set_k imm_k2_priors 0) []))
  /\ (1 <= 1)%nat
  /\ x_two <> []
  /\ length plike_two = length x_two
  /\ trace (state_of (simple_update x_two 0%nat plike_two
                        (demo_world (set_k imm_k2_priors 0) [])))
     = [BaseCall 2 x_two [0; 1]].
Proof.
  assert (H1 : k (self (demo_world (set_k imm_k2_priors 0) [])) = 0)
    by reflexivity.
  assert (H2 : weights (self (demo_world (set_k imm_k2_priors 0) []))
               = [NpFloat.one]) by reflexivity.
  assert (H3 : replicated canon_two 1
                 (self (demo_world (set_k imm_k2_priors 0) [])))
    by (unfold replicated; repeat split; vm_compute; reflexivity).
  assert (H4 : (1 <= 1)%nat) by lia.
  assert (H5 : x_two <> []) by discriminate.
  assert (H6 : length plike_two = length x_two) by reflexivity.
  split; [exact H1|]. split; [exact H2|]. split; [exact H3|].
  split; [exact H4|]. split; [exact H5|]. split; [exact H6|].
  exact (@simple_update_first_sweep demo_base demo_density
           demo_draw_length demo_draw_range canon_two 1
           (demo_world (set_k imm_k2_priors 0) []) x_two 0%nat plike_two
           NpFloat.one H1 H2 H3 H4 H5 H6).
Defined.
